(** * kfc consumer (src/consumer.c): a shallow embedding and its properties

    The first part is the program, in the order of [consumer.c]:

    - machine integers, [strtoll], [atoi] and the librdkafka constants;
    - the global configuration [conf] and [consumer_argparse];
    - the output stream ([FILE]) with [fprintf] and [fwrite];
    - the global end-of-partition bookkeeping and [consume_cb];
    - [consumer_main]: metadata checks, start loop, consume loop, stop loop.

    Global variables of the C program are fields of the record [state];
    statements are computations in a small state-and-exit monad.  What
    librdkafka and the C library's stream do during a run (metadata
    reply, start results, message batches, what the stdio calls report)
    is an input, [world] and the [f_io] of [stdout].

    The second part names what the statements talk about (observations,
    invariants, closed forms, sample inputs); the third has the lemmas;
    the last has the properties of the specification, C1 to C10. *)

From Stdlib Require Import ZArith Lia Bool Ascii String List DecimalString DecimalPos.
From stdpp Require Import base list.

Open Scope Z_scope.

(** ** Machine integers *)

Module Int.

Definition INT_MAX : Z := 2 ^ 31 - 1.
Definition LLONG_MIN : Z := - 2 ^ 63.
Definition LLONG_MAX : Z := 2 ^ 63 - 1.

(** Two's complement reduction of a mathematical integer to [int]. *)
Definition wrap32 (z : Z) : Z := (z + 2 ^ 31) mod 2 ^ 32 - 2 ^ 31.

(** Two's complement reduction to [int64_t] / [long long]. *)
Definition wrap64 (z : Z) : Z := (z + 2 ^ 63) mod 2 ^ 64 - 2 ^ 63.

(** Reduction to [uint64_t]. *)
Definition wrapu64 (z : Z) : Z := z mod 2 ^ 64.

Definition in_int (z : Z) : Prop := - 2 ^ 31 <= z <= INT_MAX.
Definition in_int64 (z : Z) : Prop := LLONG_MIN <= z <= LLONG_MAX.

End Int.

(** ** The C library's number parsing *)

Module Libc.

Definition code (c : ascii) : Z := Z.of_N (N_of_ascii c).

(** [isspace] in the C locale: space, and \t \n \v \f \r. *)
Definition isspace (c : ascii) : bool :=
  (code c =? 32) || ((9 <=? code c) && (code c <=? 13)).

Definition digit (c : ascii) : option Z :=
  if (48 <=? code c) && (code c <=? 57) then Some (code c - 48) else None.

Fixpoint skip_spaces (s : string) : string :=
  match s with
  | String c s' => if isspace c then skip_spaces s' else s
  | EmptyString => s
  end.

(** The value of the longest prefix of decimal digits, on top of [acc]. *)
Fixpoint digits_value (acc : Z) (s : string) : Z :=
  match s with
  | String c s' =>
      match digit c with
      | Some d => digits_value (acc * 10 + d) s'
      | None => acc
      end
  | EmptyString => acc
  end.

Definition clamp (lo hi z : Z) : Z :=
  if z <? lo then lo else if hi <? z then hi else z.

(** [strtoll(nptr, NULL, 10)]: white space, an optional sign, then the
    longest run of digits; no digits give 0; a value out of range is
    clamped to [LLONG_MIN] / [LLONG_MAX].  With a NULL end pointer the
    caller cannot tell where, or whether, the conversion stopped. *)
Definition strtoll (nptr : string) : Z :=
  let s := skip_spaces nptr in
  let '(neg, ds) :=
    match s with
    | String "-"%char s' => (true, s')
    | String "+"%char s' => (false, s')
    | _ => (false, s)
    end in
  let v := digits_value 0 ds in
  clamp Int.LLONG_MIN Int.LLONG_MAX (if neg then - v else v).

(** [atoi(s)] is [(int) strtol(s, NULL, 10)]; on an LP64 target [long]
    is 64 bits wide and the conversion to [int] truncates. *)
Definition atoi (s : string) : Z := Int.wrap32 (strtoll s).

End Libc.

(** ** librdkafka constants (rdkafka.h) *)

Definition RD_KAFKA_PARTITION_UA : Z := -1.
Definition RD_KAFKA_OFFSET_BEGINNING : Z := -2.
Definition RD_KAFKA_OFFSET_END : Z := -1.
Definition RD_KAFKA_OFFSET_STORED : Z := -1000.
Definition RD_KAFKA_OFFSET_TAIL_BASE : Z := -2000.

(** [#define RD_KAFKA_OFFSET_TAIL(CNT) (RD_KAFKA_OFFSET_TAIL_BASE - (CNT))],
    evaluated in 64-bit signed arithmetic. *)
Definition RD_KAFKA_OFFSET_TAIL (cnt : Z) : Z :=
  Int.wrap64 (RD_KAFKA_OFFSET_TAIL_BASE - cnt).

Definition RD_KAFKA_RESP_ERR__PARTITION_EOF : Z := -191.
Definition RD_KAFKA_RESP_ERR_NO_ERROR : Z := 0.

Inductive rd_kafka_conf_res_t : Type :=
  | RD_KAFKA_CONF_UNKNOWN
  | RD_KAFKA_CONF_INVALID
  | RD_KAFKA_CONF_OK.

Definition conf_res_eqb (a b : rd_kafka_conf_res_t) : bool :=
  match a, b with
  | RD_KAFKA_CONF_UNKNOWN, RD_KAFKA_CONF_UNKNOWN
  | RD_KAFKA_CONF_INVALID, RD_KAFKA_CONF_INVALID
  | RD_KAFKA_CONF_OK, RD_KAFKA_CONF_OK => true
  | _, _ => false
  end.

(** How librdkafka reads the [int64_t] start offset handed to
    [rd_kafka_consume_start_queue]: the logical offsets are negative
    sentinels, everything at or below the tail base counts back from the
    end of the partition, and non-negative values are absolute. *)
Inductive OffsetDirective : Type :=
  | Earliest
  | Latest
  | Stored
  | Absolute (offset : Z)
  | TailRelative (cnt : Z).

Definition directive_of_offset (o : Z) : option OffsetDirective :=
  if o =? RD_KAFKA_OFFSET_END then Some Latest
  else if o =? RD_KAFKA_OFFSET_BEGINNING then Some Earliest
  else if o =? RD_KAFKA_OFFSET_STORED then Some Stored
  else if o <=? RD_KAFKA_OFFSET_TAIL_BASE
       then Some (TailRelative (RD_KAFKA_OFFSET_TAIL_BASE - o))
  else if 0 <=? o then Some (Absolute o)
  else None.

(** ** The global configuration [conf] *)

(** Modelled from the spec: [struct conf] of common.h (absent), the
    Config of section 3.  The fields are the ones consumer.c reads or
    writes, under the names it uses; [int] fields are kept as integers,
    tested against zero the way C does, [offset] and [msg_cnt] are
    64-bit ([strtoll] fills them in), the delimiters are bytes. *)
Record conf_t : Type := mk_conf {
  run : Z;
  partition : Z;
  offset : Z;
  flags : Z;
  key_delim : Byte.byte;
  delim : Byte.byte;
  msg_cnt : Z;
  exit_eof : Z;
  verbosity : Z;
  conf_dump : Z;
  exitcode : Z;
  topic : string;
  brokers : string
}.

(** Modelled from the spec: the bit values of the two formatting flags
    of common.h (absent); section 3 only names an "offset-printing flag"
    and a configured key delimiter, so they are two distinct bits. *)
Definition CONF_F_KEY_DELIM : Z := 2.
Definition CONF_F_OFFSET : Z := 4.

(** C truth value of an integer expression. *)
Definition truthy (z : Z) : bool := negb (z =? 0).

Definition set_run (v : Z) (c : conf_t) : conf_t :=
  mk_conf v (partition c) (offset c) (flags c) (key_delim c) (delim c)
    (msg_cnt c) (exit_eof c) (verbosity c) (conf_dump c) (exitcode c)
    (topic c) (brokers c).

Definition set_partition (v : Z) (c : conf_t) : conf_t :=
  mk_conf (run c) v (offset c) (flags c) (key_delim c) (delim c)
    (msg_cnt c) (exit_eof c) (verbosity c) (conf_dump c) (exitcode c)
    (topic c) (brokers c).

Definition set_offset (v : Z) (c : conf_t) : conf_t :=
  mk_conf (run c) (partition c) v (flags c) (key_delim c) (delim c)
    (msg_cnt c) (exit_eof c) (verbosity c) (conf_dump c) (exitcode c)
    (topic c) (brokers c).

Definition set_flags (v : Z) (c : conf_t) : conf_t :=
  mk_conf (run c) (partition c) (offset c) v (key_delim c) (delim c)
    (msg_cnt c) (exit_eof c) (verbosity c) (conf_dump c) (exitcode c)
    (topic c) (brokers c).

Definition set_key_delim (v : Byte.byte) (c : conf_t) : conf_t :=
  mk_conf (run c) (partition c) (offset c) (flags c) v (delim c)
    (msg_cnt c) (exit_eof c) (verbosity c) (conf_dump c) (exitcode c)
    (topic c) (brokers c).

Definition set_delim (v : Byte.byte) (c : conf_t) : conf_t :=
  mk_conf (run c) (partition c) (offset c) (flags c) (key_delim c) v
    (msg_cnt c) (exit_eof c) (verbosity c) (conf_dump c) (exitcode c)
    (topic c) (brokers c).

Definition set_msg_cnt (v : Z) (c : conf_t) : conf_t :=
  mk_conf (run c) (partition c) (offset c) (flags c) (key_delim c) (delim c)
    v (exit_eof c) (verbosity c) (conf_dump c) (exitcode c)
    (topic c) (brokers c).

Definition set_exit_eof (v : Z) (c : conf_t) : conf_t :=
  mk_conf (run c) (partition c) (offset c) (flags c) (key_delim c) (delim c)
    (msg_cnt c) v (verbosity c) (conf_dump c) (exitcode c)
    (topic c) (brokers c).

Definition set_verbosity (v : Z) (c : conf_t) : conf_t :=
  mk_conf (run c) (partition c) (offset c) (flags c) (key_delim c) (delim c)
    (msg_cnt c) (exit_eof c) v (conf_dump c) (exitcode c)
    (topic c) (brokers c).

Definition set_conf_dump (v : Z) (c : conf_t) : conf_t :=
  mk_conf (run c) (partition c) (offset c) (flags c) (key_delim c) (delim c)
    (msg_cnt c) (exit_eof c) (verbosity c) v (exitcode c)
    (topic c) (brokers c).

Definition set_topic (v : string) (c : conf_t) : conf_t :=
  mk_conf (run c) (partition c) (offset c) (flags c) (key_delim c) (delim c)
    (msg_cnt c) (exit_eof c) (verbosity c) (conf_dump c) (exitcode c)
    v (brokers c).

Definition set_brokers (v : string) (c : conf_t) : conf_t :=
  mk_conf (run c) (partition c) (offset c) (flags c) (key_delim c) (delim c)
    (msg_cnt c) (exit_eof c) (verbosity c) (conf_dump c) (exitcode c)
    (topic c) v.

(** ** [consumer_argparse] *)

(** What handling one option, or the whole command line, leads to: the
    updated configuration, or the process leaving through [exit]. *)
Inductive arg_outcome : Type :=
  | ArgNext (c : conf_t)
  | ArgExit (status : Z).

(** The [-o] case (lines 82-94): three keywords, anything else goes
    through [strtoll] with a NULL end pointer, and a negative value is
    turned into a tail offset. *)
Definition offset_of_optarg (optarg : string) : Z :=
  if String.eqb optarg "end" then RD_KAFKA_OFFSET_END
  else if String.eqb optarg "beginning" then RD_KAFKA_OFFSET_BEGINNING
  else if String.eqb optarg "stored" then RD_KAFKA_OFFSET_STORED
  else
    let o := Libc.strtoll optarg in
    if o <? 0 then RD_KAFKA_OFFSET_TAIL (Int.wrap64 (- o)) else o.

(** [strchr(name, '=')] followed by [*val = 0; val++]: the text before
    the first '=' and the text after it. *)
Fixpoint split_eq (s : string) : option (string * string) :=
  match s with
  | EmptyString => None
  | String c s' =>
      if Ascii.eqb c "="%char then Some (EmptyString, s')
      else match split_eq s' with
           | Some (name, val) => Some (String c name, val)
           | None => None
           end
  end.

Section ArgParse.

(** Functions of common.c and librdkafka that the option loop calls.
    [parse_delim] decodes a delimiter argument; the two setters report
    how the library took a property. *)
Variable parse_delim : string -> Byte.byte.
Variable rd_kafka_topic_conf_set : string -> string -> rd_kafka_conf_res_t.
Variable rd_kafka_conf_set : string -> string -> rd_kafka_conf_res_t.

(** The [-X] case (lines 110-157). *)
Definition argparse_X (optarg : string) (c : conf_t) : arg_outcome :=
  if String.eqb optarg "list" || String.eqb optarg "help" then ArgExit 0
  else if String.eqb optarg "dump" then ArgNext (set_conf_dump 1 c)
  else
    match split_eq optarg with
    | None => ArgExit 1
    | Some (name, val) =>
        let res :=
          if String.prefix "topic." name
          then rd_kafka_topic_conf_set
                 (String.substring 6 (String.length name - 6) name) val
          else RD_KAFKA_CONF_UNKNOWN in
        let res :=
          if conf_res_eqb res RD_KAFKA_CONF_UNKNOWN
          then rd_kafka_conf_set name val else res in
        if conf_res_eqb res RD_KAFKA_CONF_OK then ArgNext c else ArgExit 1
    end.

(** The body of the [switch (opt)] (lines 65-162), on the code [opt]
    that [getopt_long] has returned ([getopt_code] below tells which
    options on the command line give which code).  [usage] and [FATAL]
    belong to common.c (absent); as section 7 of the spec has it for a
    configuration error, they end the process, here with the status 1
    that [usage] is passed.  The case ['u'] calls [setbuf(stdout, NULL)]
    (line 108): that changes how [stdout] buffers, not [conf], and what
    the stream then reports to each stdio call is left to the [f_io] of
    [FILE], for buffered and unbuffered streams alike. *)
Definition argparse_opt (opt : ascii) (optarg : string) (c : conf_t)
  : arg_outcome :=
  if Ascii.eqb opt "p" then ArgNext (set_partition (Libc.atoi optarg) c)
  else if Ascii.eqb opt "b" then ArgNext (set_brokers optarg c)
  else if Ascii.eqb opt "d" then ArgNext (set_delim (parse_delim optarg) c)
  else if Ascii.eqb opt "k" then
    ArgNext (set_flags (Z.lor (flags c) CONF_F_KEY_DELIM)
               (set_key_delim (parse_delim optarg) c))
  else if Ascii.eqb opt "c" then ArgNext (set_msg_cnt (Libc.strtoll optarg) c)
  else if Ascii.eqb opt "o" then ArgNext (set_offset (offset_of_optarg optarg) c)
  else if Ascii.eqb opt "O" then
    ArgNext (set_flags (Z.lor (flags c) CONF_F_OFFSET) c)
  else if Ascii.eqb opt "e" then ArgNext (set_exit_eof 1 c)
  else if Ascii.eqb opt "q" then ArgNext (set_verbosity 0 c)
  else if Ascii.eqb opt "v" then
    ArgNext (set_verbosity (Int.wrap32 (verbosity c + 1)) c)
  else if Ascii.eqb opt "u" then ArgNext c
  else if Ascii.eqb opt "X" then argparse_X optarg c
  else ArgExit 1.

(** The [while (getopt_long ...)] loop over the options as [getopt_long]
    hands them out, each with its argument. *)
Fixpoint argparse_opts (opts : list (ascii * string)) (c : conf_t)
  : arg_outcome :=
  match opts with
  | [] => ArgNext c
  | (opt, optarg) :: rest =>
      match argparse_opt opt optarg c with
      | ArgNext c' => argparse_opts rest c'
      | ArgExit status => ArgExit status
      end
  end.

(** [consumer_argparse]: the options, then the topic (the first operand)
    and the broker list (lines 165-175). *)
Definition consumer_argparse (opts : list (ascii * string))
    (operands : list string) (c : conf_t) : arg_outcome :=
  match argparse_opts opts c with
  | ArgExit status => ArgExit status
  | ArgNext c1 =>
      match operands with
      | [] => ArgExit 1
      | t :: _ =>
          let c2 := set_topic t c1 in
          if conf_res_eqb (rd_kafka_conf_set "metadata.broker.list" (brokers c2))
               RD_KAFKA_CONF_OK
          then ArgNext c2 else ArgExit 1
      end
  end.

End ArgParse.

(** ** The options [getopt_long] is given (lines 41-54 and 62) *)

(** The option string of line 62. *)
Definition short_options : string := "b:p:d:k:o:c:euX:vq".

(** [consumer_long_options] (lines 41-54): the name, whether the option
    takes an argument ([required_argument] or [no_argument]), and the
    code [getopt_long] returns for it. *)
Definition consumer_long_options : list (string * bool * ascii) :=
  [("brokers"%string,       true,  "b"%char);
   ("partition"%string,     true,  "p"%char);
   ("delimiter"%string,     true,  "d"%char);
   ("key-delimiter"%string, true,  "k"%char);
   ("offset"%string,        true,  "o"%char);
   ("count"%string,         true,  "c"%char);
   ("exit"%string,          false, "e"%char);
   ("print-offset"%string,  false, "O"%char);
   ("unbuffered"%string,    false, "u"%char);
   ("verbose"%string,       false, "v"%char);
   ("quiet"%string,         false, "q"%char)].

(** An option as it stands on the command line: [-c] or [--name]. *)
Inductive option_word : Type :=
  | Short (c : ascii)
  | Long (name : string).

(** The code [getopt_long] returns for an option: for a short option
    its letter, if the option string lists it; for a long option the
    code of the table entry of that name or, failing that, of the one
    entry whose name it abbreviates; ['?'] for anything else. *)
Definition getopt_code (o : option_word) : ascii :=
  match o with
  | Short c =>
      if Ascii.eqb c ":" then "?"%char
      else if existsb (Ascii.eqb c) (list_ascii_of_string short_options)
           then c else "?"%char
  | Long name =>
      match List.filter (fun e => String.eqb (fst (fst e)) name)
              consumer_long_options with
      | e :: _ => snd e
      | [] =>
          match List.filter (fun e => String.prefix name (fst (fst e)))
                  consumer_long_options with
          | [e] => snd e
          | _ => "?"%char
          end
      end
  end.

(** The codes the option loop sees for the options of a command line,
    each with its argument. *)
Definition getopt_codes (words : list (option_word * string))
  : list (ascii * string) :=
  map (fun w => (getopt_code (fst w), snd w)) words.

(** ** The output stream *)

(** What becomes of the bytes of one stdio call ([fprintf], [fwrite]),
    as the call itself reports it: the stream takes all of them, or it
    takes only the first [n] and the call reports an error.  Whether
    bytes the stream has taken are on the device already or still in the
    stream's buffer is not part of the model: [stdout] is buffered
    unless [-u] has called [setbuf(stdout, NULL)] (line 108), and on a
    buffered stream a write the device refuses is reported by the call
    that flushes the buffer, which may be a later call than the one
    that handed the bytes over.  So [f_data] holds the bytes the stream
    has taken, and [f_io] what the stdio calls still to come will
    report, whatever the buffering; once [f_io] is used up every call
    succeeds. *)
Inductive io_result : Type :=
  | IO_ok
  | IO_short (n : nat).

Record FILE : Type := mk_FILE {
  f_data : list Byte.byte;
  f_io : list io_result
}.

Definition stream_put (bs : list Byte.byte) (fp : FILE) : bool * FILE :=
  match f_io fp with
  | [] => (true, mk_FILE (f_data fp ++ bs) [])
  | IO_ok :: io => (true, mk_FILE (f_data fp ++ bs) io)
  | IO_short n :: io =>
      if (n <? length bs)%nat
      then (false, mk_FILE (f_data fp ++ take n bs) io)
      else (true, mk_FILE (f_data fp ++ bs) io)
  end.

(** [fprintf]: the number of bytes written, or a negative value. *)
Definition fprintf (formatted : list Byte.byte) (fp : FILE) : Z * FILE :=
  let '(ok, fp') := stream_put formatted fp in
  (if ok then Z.of_nat (length formatted) else -1, fp').

(** [fwrite(ptr, size, 1, fp)] with [size] the length of [ptr]: the
    number of whole items written.  For a size of zero the C standard
    has [fwrite] return zero and leave the stream as it is. *)
Definition fwrite (ptr : list Byte.byte) (fp : FILE) : Z * FILE :=
  if (length ptr =? 0)%nat then (0, fp)
  else
    let '(ok, fp') := stream_put ptr fp in
    (if ok then 1 else 0, fp').

(** The bytes of a C string: everything before the first NUL. *)
Fixpoint c_string (s : list Byte.byte) : list Byte.byte :=
  match s with
  | [] => []
  | b :: s' => if Byte.eqb b Byte.x00 then [] else b :: c_string s'
  end.

Definition has_nul (s : list Byte.byte) : bool :=
  existsb (fun b => Byte.eqb b Byte.x00) s.

(** ["%" PRId64 "%c"] *)
Definition format_offset (o : Z) (c : Byte.byte) : list Byte.byte :=
  list_byte_of_string (NilZero.string_of_int (Z.to_int o)) ++ [c].

(** ["%.*s%c"] with precision [prec]: [%s] stops at a NUL, and reads at
    most [prec] bytes; a negative precision counts as none, and then the
    argument has to be NUL-terminated. *)
Definition format_key (prec : Z) (key : list Byte.byte) (c : Byte.byte)
  : option (list Byte.byte) :=
  if prec <? 0 then
    if has_nul key then Some (c_string key ++ [c]) else None
  else Some (c_string (take (Z.to_nat prec) key) ++ [c]).

(** ** Messages and metadata handed over by librdkafka *)

Record rd_kafka_message_t : Type := mk_message {
  m_err : Z;
  m_partition : Z;
  m_offset : Z;
  m_key : list Byte.byte;
  m_payload : list Byte.byte
}.

Definition key_len (m : rd_kafka_message_t) : Z := Z.of_nat (length (m_key m)).
Definition len (m : rd_kafka_message_t) : Z := Z.of_nat (length (m_payload m)).

Record rd_kafka_metadata_topic : Type := mk_topic {
  t_err : Z;
  partitions : list Z
}.

Definition partition_cnt (t : rd_kafka_metadata_topic) : Z :=
  Z.of_nat (length (partitions t)).

Record rd_kafka_metadata : Type := mk_metadata {
  topics : list rd_kafka_metadata_topic
}.

Definition topic_cnt (md : rd_kafka_metadata) : Z :=
  Z.of_nat (length (topics md)).

(** Calls into librdkafka that open and close things, in the order the
    program makes them. *)
Inductive call : Type :=
  | rd_kafka_queue_new
  | rd_kafka_consume_start_queue (partition offset : Z) (r : Z)
  | rd_kafka_consume_stop (partition : Z)
  | rd_kafka_queue_destroy.

(** What the library answers during one run: the metadata reply (an
    error code and, when that is zero, the metadata), the return value
    of [rd_kafka_consume_start_queue] per partition, and the batches of
    messages the successive [rd_kafka_consume_callback_queue] calls
    serve. *)
Record world : Type := mk_world {
  metadata_err : Z;
  metadata : rd_kafka_metadata;
  consume_start_ret : Z -> Z;
  polls : list (list rd_kafka_message_t)
}.

(** ** Program state and the monad of statements *)

(** [conf], the three globals of lines 178-183, [stats.rx], [stdout],
    and the log of library calls.  [stats] is declared in common.h
    (absent); of section 3's Stats the consumer uses the one counter
    [rx], zero when the program starts. *)
Record state : Type := mk_state {
  conf : conf_t;
  part_eof : list Z;
  part_eof_cnt : Z;
  part_eof_thres : Z;
  stats_rx : Z;
  stdout : FILE;
  calls : list call
}.

(** The arguments each [FATAL] of consumer_main and consume_cb prints. *)
Inductive fatal_msg : Type :=
  | Failed_to_query_metadata (err : Z)
  | No_such_topic_in_cluster
  | Topic_error (err : Z)
  | Topic_has_no_partitions
  | Failed_to_start_consuming (partition : Z)
  | Partition_does_not_exist (last : Z) (partition : Z)
  | Topic_partition_error (partition : Z) (err : Z)
  | Write_error (len : Z) (offset : Z).

(** A computation returns a value, calls [FATAL] (with the arguments
    [m], in the state [s] the program is in at the call), is still
    polling when the served batches run out, or has no defined behaviour
    (an access outside an array). *)
Inductive result (A : Type) : Type :=
  | Done (a : A) (s : state)
  | Fatal (m : fatal_msg) (s : state)
  | Polling (s : state)
  | Undefined.

Arguments Done {A} a s.
Arguments Fatal {A} m s.
Arguments Polling {A} s.
Arguments Undefined {A}.

Definition M (A : Type) : Type := state -> result A.

Definition ret {A} (a : A) : M A := fun s => Done a s.

Definition bind {A B} (m : M A) (k : A -> M B) : M B :=
  fun s =>
    match m s with
    | Done a s' => k a s'
    | Fatal e s' => Fatal e s'
    | Polling s' => Polling s'
    | Undefined => Undefined
    end.

Notation "'let*' x ':=' e 'in' k" := (bind e (fun x => k))
  (at level 10, x name, e at level 100, k at level 200, only parsing).
Notation "e >> k" := (bind e (fun _ => k))
  (at level 90, right associativity, only parsing).

Definition gets {A} (f : state -> A) : M A := fun s => Done (f s) s.
Definition modify (f : state -> state) : M unit := fun s => Done tt (f s).
Definition when (b : bool) (m : M unit) : M unit := if b then m else ret tt.
Definition undefined {A} : M A := fun _ => Undefined.

(** A call of the macro [FATAL]: control does not come back to the
    caller (section 4.6 of the spec: "abort the run immediately"), so
    the computation ends there, with the arguments and the state of the
    call.  What the macro does with the process from that state on is
    [FATAL_exit] below. *)
Definition FATAL {A} (m : fatal_msg) : M A := fun s => Fatal m s.

(** Modelled from the spec: the exit status of the macro FATAL, which is
    defined in common.h, not among the sources.  Section 6 has the exit
    code "non-zero on any fatal condition"; the spec names no value, and
    1 is the status the source itself passes to [exit] and [usage]
    (lines 132, 160-175). *)
Definition FATAL_status : Z := 1.

(** The process exit status of a finished run of [consumer_main]. *)
Definition exit_status (r : result Z) : option Z :=
  match r with
  | Done code _ => Some code
  | Fatal _ _ => Some FATAL_status
  | Polling _ => None
  | Undefined => None
  end.

Definition with_conf (f : conf_t -> conf_t) (s : state) : state :=
  mk_state (f (conf s)) (part_eof s) (part_eof_cnt s) (part_eof_thres s)
    (stats_rx s) (stdout s) (calls s).

Definition with_part_eof (a : list Z) (s : state) : state :=
  mk_state (conf s) a (part_eof_cnt s) (part_eof_thres s)
    (stats_rx s) (stdout s) (calls s).

Definition with_part_eof_cnt (v : Z) (s : state) : state :=
  mk_state (conf s) (part_eof s) v (part_eof_thres s)
    (stats_rx s) (stdout s) (calls s).

Definition with_part_eof_thres (v : Z) (s : state) : state :=
  mk_state (conf s) (part_eof s) (part_eof_cnt s) v
    (stats_rx s) (stdout s) (calls s).

Definition with_stats_rx (v : Z) (s : state) : state :=
  mk_state (conf s) (part_eof s) (part_eof_cnt s) (part_eof_thres s)
    v (stdout s) (calls s).

Definition with_stdout (fp : FILE) (s : state) : state :=
  mk_state (conf s) (part_eof s) (part_eof_cnt s) (part_eof_thres s)
    (stats_rx s) fp (calls s).

Definition log_call (c : call) (s : state) : state :=
  mk_state (conf s) (part_eof s) (part_eof_cnt s) (part_eof_thres s)
    (stats_rx s) (stdout s) (calls s ++ [c]).

(** The state [consumer_main] starts in: [conf] as the command line left
    it, the globals zero, [part_eof] a NULL pointer (no valid index),
    nothing written. *)
Definition initial_state (c : conf_t) (io : list io_result) : state :=
  mk_state c [] 0 0 0 (mk_FILE [] io) [].

(** [part_eof[i]] as an rvalue and as the target of an assignment; the
    array has as many elements as [calloc] was asked for. *)
Definition in_bounds (a : list Z) (i : Z) : bool :=
  (0 <=? i) && (i <? Z.of_nat (length a)).

Definition part_eof_load (i : Z) : M Z :=
  fun s =>
    if in_bounds (part_eof s) i
    then match part_eof s !! Z.to_nat i with
         | Some v => Done v s
         | None => Undefined
         end
    else Undefined.

Definition part_eof_store (i v : Z) : M unit :=
  fun s =>
    if in_bounds (part_eof s) i
    then Done tt (with_part_eof (<[Z.to_nat i := v]> (part_eof s)) s)
    else Undefined.

(** A stdio call on [stdout]. *)
Definition on_stdout (f : FILE -> Z * FILE) : M Z :=
  fun s => let '(r, fp) := f (stdout s) in Done r (with_stdout fp s).

(** ** [consume_cb] (lines 188-240) *)

(** Lines 198-204: the first end-of-partition of a partition is recorded
    and counted, and the count is compared with the threshold. *)
Definition mark_eof (p : Z) : M unit :=
  let* at_eof := part_eof_load p in
  if truthy at_eof then ret tt
  else
    part_eof_store p 1 >>
    modify (fun s => with_part_eof_cnt (Int.wrap32 (part_eof_cnt s + 1)) s) >>
    let* cnt := gets part_eof_cnt in
    let* thres := gets part_eof_thres in
    when (thres <=? cnt) (modify (with_conf (set_run 0))).

(** Lines 222-236: the two unchecked [fprintf] calls and the two checked
    [fwrite] calls, the second one only if the first wrote its item. *)
Definition print_message (rkmessage : rd_kafka_message_t) : M unit :=
  let* c := gets conf in
  when (truthy (Z.land (flags c) CONF_F_OFFSET))
       (on_stdout (fprintf (format_offset (m_offset rkmessage) (key_delim c)))
        >> ret tt) >>
  when (truthy (Z.land (flags c) CONF_F_KEY_DELIM))
       (match format_key (Int.wrap32 (key_len rkmessage)) (m_key rkmessage)
                (key_delim c) with
        | Some bs => on_stdout (fprintf bs) >> ret tt
        | None => undefined
        end) >>
  let* w1 := on_stdout (fwrite (m_payload rkmessage)) in
  if negb (w1 =? 1)
  then FATAL (Write_error (len rkmessage) (m_offset rkmessage))
  else
    let* w2 := on_stdout (fwrite [delim c]) in
    if negb (w2 =? 1)
    then FATAL (Write_error (len rkmessage) (m_offset rkmessage))
    else ret tt.

(** Lines 238-239: [if (++stats.rx == conf.msg_cnt) conf.run = 0;].
    The declaration of [stats] is in common.h (absent); [rx] is taken to
    be an unsigned 64-bit counter, so that the signed limit is converted
    to unsigned for the comparison. *)
Definition count_message : M unit :=
  modify (fun s => with_stats_rx (Int.wrapu64 (stats_rx s + 1)) s) >>
  let* rx := gets stats_rx in
  let* c := gets conf in
  when (rx =? Int.wrapu64 (msg_cnt c)) (modify (with_conf (set_run 0))).

(** The callback.  The [INFO] line of the end-of-partition branch goes
    to the diagnostic stream and leaves the state alone. *)
Definition consume_cb (rkmessage : rd_kafka_message_t) : M unit :=
  let* c := gets conf in
  if negb (truthy (run c)) then ret tt
  else if truthy (m_err rkmessage) then
    if m_err rkmessage =? RD_KAFKA_RESP_ERR__PARTITION_EOF then
      if truthy (exit_eof c) then mark_eof (m_partition rkmessage)
      else ret tt
    else FATAL (Topic_partition_error (m_partition rkmessage) (m_err rkmessage))
  else
    print_message rkmessage >>
    count_message.

(** [rd_kafka_consume_callback_queue]: the callback runs on each message
    of the batch, in order. *)
Fixpoint consume_callback_queue (batch : list rd_kafka_message_t) : M unit :=
  match batch with
  | [] => ret tt
  | m :: rest => consume_cb m >> consume_callback_queue rest
  end.

(** ** [consumer_main] (lines 242-338) *)

(** Lines 252-268: the metadata query and its error handling; yields
    [metadata->topics[0]]. *)
Definition query_metadata (w : world) : M rd_kafka_metadata_topic :=
  if truthy (metadata_err w) then FATAL (Failed_to_query_metadata (metadata_err w))
  else
    match topics (metadata w) with
    | [] => FATAL No_such_topic_in_cluster
    | t :: _ =>
        if truthy (t_err t) then FATAL (Topic_error (t_err t))
        else if partition_cnt t =? 0 then FATAL Topic_has_no_partitions
        else ret t
    end.

(** Lines 272-280: the end-of-partition array and the threshold. *)
Definition setup_eof (t : rd_kafka_metadata_topic) : M unit :=
  let* c := gets conf in
  when (truthy (exit_eof c))
    (modify (with_part_eof (replicate (Z.to_nat (partition_cnt t)) 0)) >>
     if negb (partition c =? RD_KAFKA_PARTITION_UA)
     then modify (with_part_eof_thres 1)
     else modify (with_part_eof_thres (partition_cnt t))).

(** [-p <part>] was given and names another partition. *)
Definition unwanted (c : conf_t) (p : Z) : bool :=
  negb (partition c =? RD_KAFKA_PARTITION_UA) && negb (partition c =? p).

(** Lines 287-305: the start loop, from index [i] over the remaining
    partitions [ps]; yields the value of [i] when the loop is left. *)
Fixpoint start_loop (w : world) (ps : list Z) (i : Z) : M Z :=
  match ps with
  | [] => ret i
  | p :: rest =>
      let* c := gets conf in
      if unwanted c p then start_loop w rest (i + 1)
      else
        let r := consume_start_ret w p in
        modify (log_call (rd_kafka_consume_start_queue p (offset c) r)) >>
        if r =? -1 then FATAL (Failed_to_start_consuming p)
        else if negb (partition c =? RD_KAFKA_PARTITION_UA) then ret i
        else start_loop w rest (i + 1)
  end.

(** Lines 307-313. *)
Definition check_partition_found (t : rd_kafka_metadata_topic) (i : Z) : M unit :=
  let* c := gets conf in
  if negb (partition c =? RD_KAFKA_PARTITION_UA) && (i =? partition_cnt t)
  then FATAL (Partition_does_not_exist (partition_cnt t - 1) (partition c))
  else ret tt.

(** Lines 317-320: [while (conf.run)] over the batches the library
    serves. *)
Fixpoint consume_loop (batches : list (list rd_kafka_message_t)) : M unit :=
  fun s =>
    if negb (truthy (run (conf s))) then Done tt s
    else
      match batches with
      | [] => Polling s
      | b :: rest => (consume_callback_queue b >> consume_loop rest) s
      end.

(** Lines 323-332: the stop loop. *)
Fixpoint stop_loop (ps : list Z) : M unit :=
  match ps with
  | [] => ret tt
  | p :: rest =>
      let* c := gets conf in
      if unwanted c p then stop_loop rest
      else modify (log_call (rd_kafka_consume_stop p)) >> stop_loop rest
  end.

(** Everything before the consume loop (lines 252-313). *)
Definition consumer_begin (w : world) : M rd_kafka_metadata_topic :=
  let* t := query_metadata w in
  setup_eof t >>
  modify (log_call rd_kafka_queue_new) >>
  let* i := start_loop w (partitions t) 0 in
  check_partition_found t i >>
  ret t.

(** [consumer_main] once [consumer_argparse] and [kfc_rdkafka_init] have
    filled in [conf]. *)
Definition consumer_main (w : world) : M Z :=
  let* t := consumer_begin w in
  consume_loop (polls w) >>
  stop_loop (partitions t) >>
  modify (log_call rd_kafka_queue_destroy) >>
  let* c := gets conf in
  ret (exitcode c).

(** ** Runs of the callback, observed *)

(** The states a run goes through while the callback takes the messages
    [msgs] one after the other, starting with [s]; the list ends where
    the process does. *)
Fixpoint states_of (msgs : list rd_kafka_message_t) (s : state) : list state :=
  match msgs with
  | [] => [s]
  | m :: rest =>
      s :: match consume_cb m s with
           | Done _ s' => states_of rest s'
           | _ => []
           end
  end.

(** The partitions whose streams the logged calls have opened. *)
Fixpoint opened_streams (cs : list call) : list Z :=
  match cs with
  | [] => []
  | rd_kafka_consume_start_queue p _ r :: rest =>
      if r =? -1 then opened_streams rest else p :: opened_streams rest
  | _ :: rest => opened_streams rest
  end.

(** The partitions whose streams the logged calls have closed. *)
Fixpoint closed_streams (cs : list call) : list Z :=
  match cs with
  | [] => []
  | rd_kafka_consume_stop p :: rest => p :: closed_streams rest
  | _ :: rest => closed_streams rest
  end.

(** ** Leaving through [FATAL] *)




(** ** Sample inputs *)

Definition conf0 : conf_t :=
  mk_conf 1 RD_KAFKA_PARTITION_UA RD_KAFKA_OFFSET_END 0 Byte.x09 Byte.x0a
    0 0 1 0 0 "events" "localhost:9092".

Definition topic3 : rd_kafka_metadata_topic := mk_topic 0 [0; 1; 2].

Definition world3 (batches : list (list rd_kafka_message_t)) : world :=
  mk_world 0 (mk_metadata [topic3]) (fun _ => 0) batches.

Definition eof_message (p o : Z) : rd_kafka_message_t :=
  mk_message RD_KAFKA_RESP_ERR__PARTITION_EOF p o [] [].

Definition data_message (p o : Z) (key payload : string) : rd_kafka_message_t :=
  mk_message 0 p o (list_byte_of_string key) (list_byte_of_string payload).

(** The state of a run that has taken the messages [msgs] after
    [consumer_begin]; the initial state if it did not get that far. *)
Definition state_after (w : world) (c : conf_t) (io : list io_result)
    (msgs : list rd_kafka_message_t) : state :=
  match (consumer_begin w >> consume_callback_queue msgs) (initial_state c io) with
  | Done _ s => s
  | _ => initial_state c io
  end.

(** ** The spec's reading of an offset argument *)



(** The string has something for [strtoll] to convert: after white
    space and an optional sign comes a digit. *)
Definition numeric_prefix (s : string) : bool :=
  let ds :=
    match Libc.skip_spaces s with
    | String "-"%char s' => s'
    | String "+"%char s' => s'
    | s' => s'
    end in
  match ds with
  | String c _ => match Libc.digit c with Some _ => true | None => false end
  | EmptyString => false
  end.

(** Sample externals of the option loop: a delimiter is the first byte
    of its argument, and the library takes every property. *)
Definition parse_delim0 (s : string) : Byte.byte :=
  match list_byte_of_string s with
  | b :: _ => b
  | [] => Byte.x0a
  end.

Definition conf_set0 (name val : string) : rd_kafka_conf_res_t :=
  RD_KAFKA_CONF_OK.

(** ** The spec's record format *)

(** Section 4.4 of the spec, in its words: the decimal offset and the
    key delimiter if offset printing is enabled, the raw key bytes and
    the key delimiter if a key delimiter is configured, the raw payload
    bytes, the record delimiter. *)
Definition formatted_record (c : conf_t) (m : rd_kafka_message_t)
  : list Byte.byte :=
  (if truthy (Z.land (flags c) CONF_F_OFFSET)
   then list_byte_of_string (NilZero.string_of_int (Z.to_int (m_offset m)))
        ++ [key_delim c]
   else []) ++
  (if truthy (Z.land (flags c) CONF_F_KEY_DELIM)
   then m_key m ++ [key_delim c]
   else []) ++
  m_payload m ++ [delim c].

(** A record the formatter has no trouble with: a data record with a
    payload of at least one byte and a key free of NUL bytes, no longer
    than [INT_MAX]. *)
Definition plain_record (m : rd_kafka_message_t) : Prop :=
  m_err m = 0 /\ m_payload m <> [] /\
  has_nul (m_key m) = false /\ key_len m <= Int.INT_MAX.

(** ** Closed forms, observations and invariants *)

(** The definitions below are not part of the program: they name what
    the statements of the lemmas talk about. *)

(** The state after [count_message]. *)
Definition counted (s : state) : state :=
  let s1 := with_stats_rx (Int.wrapu64 (stats_rx s + 1)) s in
  if stats_rx s1 =? Int.wrapu64 (msg_cnt (conf s1))
  then with_conf (set_run 0) s1 else s1.

(** The state after the first end-of-partition of partition [p]. *)
Definition marked (p : Z) (s : state) : state :=
  let s1 := with_part_eof (<[Z.to_nat p := 1]> (part_eof s)) s in
  let s2 := with_part_eof_cnt (Int.wrap32 (part_eof_cnt s + 1)) s1 in
  if part_eof_thres s2 <=? part_eof_cnt s2
  then with_conf (set_run 0) s2 else s2.

(** A computation that leaves everything but [stdout] alone, and never
    ends up polling. *)
Definition stdout_only {A} (m : M A) : Prop :=
  forall s,
    match m s with
    | Done _ s' | Fatal _ s' => exists fp, s' = with_stdout fp s
    | Polling _ => False
    | Undefined => True
    end.

(** Partition [p] has its flag set in [part_eof]. *)
Definition at_eof (s : state) (p : Z) : bool :=
  in_bounds (part_eof s) p &&
  match part_eof s !! Z.to_nat p with
  | Some v => truthy v
  | None => false
  end.

(** The number of flags set in the array. *)
Definition count_eof (a : list Z) : Z :=
  Z.of_nat (length (List.filter truthy a)).

(** What holds of the globals throughout a run. *)
Record eof_inv (s : state) : Prop := mk_eof_inv {
  inv_count : part_eof_cnt s = count_eof (part_eof s);
  inv_le : part_eof_cnt s <= part_eof_thres s;
  inv_int : part_eof_thres s <= Int.INT_MAX;
  inv_running :
    truthy (run (conf s)) = true ->
    truthy (exit_eof (conf s)) = true ->
    part_eof_cnt s < part_eof_thres s
}.

(** A computation that can leave through [FATAL] with the message [e0]
    only. *)
Definition fails_with {A} (e0 : fatal_msg) (m : M A) : Prop :=
  forall s e s', m s = Fatal e s' -> e = e0.

(** How a later state relates to an earlier one of the same run. *)
Record later (s s' : state) : Prop := mk_later {
  later_conf : conf s' = conf s \/ conf s' = set_run 0 (conf s);
  later_thres : part_eof_thres s' = part_eof_thres s;
  later_length : length (part_eof s') = length (part_eof s);
  later_calls : calls s' = calls s;
  later_at_eof : forall p, at_eof s p = true -> at_eof s' p = true
}.

(** A call of the callback that comes back, or leaves through [FATAL],
    ends in a state [later] than the one it started in. *)
Definition ends_later (r : result unit) (s : state) : Prop :=
  match r with
  | Done _ s' | Fatal _ s' => later s s'
  | Polling _ => False
  | Undefined => True
  end.

(** Several calls logged in a row. *)
Definition log_calls (cs : list call) (s : state) : state :=
  mk_state (conf s) (part_eof s) (part_eof_cnt s) (part_eof_thres s)
    (stats_rx s) (stdout s) (calls s ++ cs).

(** The start calls for the partitions [ps], as the loop logs them. *)
Definition start_calls (w : world) (c : conf_t) (ps : list Z) : list call :=
  map (fun p => rd_kafka_consume_start_queue p (offset c) (consume_start_ret w p)) ps.

(** The stop calls for the partitions [ps]. *)
Definition stop_calls (ps : list Z) : list call := map rd_kafka_consume_stop ps.

(** The partitions the start loop gets to when all are wanted: up to and
    including the first one that fails to start, which comes second. *)
Fixpoint start_attempts (w : world) (ps : list Z) : list Z * option Z :=
  match ps with
  | [] => ([], None)
  | p :: rest =>
      if consume_start_ret w p =? -1 then ([p], Some p)
      else let '(pre, f) := start_attempts w rest in (p :: pre, f)
  end.

(** Where the requested partition [q] first occurs in [ps]. *)
Fixpoint index_of (q : Z) (ps : list Z) : option Z :=
  match ps with
  | [] => None
  | p :: rest =>
      if q =? p then Some 0
      else match index_of q rest with
           | Some k => Some (k + 1)
           | None => None
           end
  end.

(** The state after lines 272-280. *)
Definition after_setup (t : rd_kafka_metadata_topic) (s : state) : state :=
  if truthy (exit_eof (conf s)) then
    with_part_eof_thres
      (if partition (conf s) =? RD_KAFKA_PARTITION_UA then partition_cnt t else 1)
      (with_part_eof (replicate (Z.to_nat (partition_cnt t)) 0) s)
  else s.

(** What [consumer_begin] comes to, as one decision tree over the
    metadata reply, the requested partition and the start results. *)
Definition begin_outcome (w : world) (s : state) : result rd_kafka_metadata_topic :=
  if truthy (metadata_err w) then Fatal (Failed_to_query_metadata (metadata_err w)) s
  else
    match topics (metadata w) with
    | [] => Fatal No_such_topic_in_cluster s
    | t :: _ =>
        if truthy (t_err t) then Fatal (Topic_error (t_err t)) s
        else if partition_cnt t =? 0 then Fatal Topic_has_no_partitions s
        else
          let s1 := log_call rd_kafka_queue_new (after_setup t s) in
          if partition (conf s) =? RD_KAFKA_PARTITION_UA then
            match start_attempts w (partitions t) with
            | (pre, None) => Done t (log_calls (start_calls w (conf s) pre) s1)
            | (pre, Some p) =>
                Fatal (Failed_to_start_consuming p)
                  (log_calls (start_calls w (conf s) pre) s1)
            end
          else
            match index_of (partition (conf s)) (partitions t) with
            | None =>
                Fatal (Partition_does_not_exist (partition_cnt t - 1)
                         (partition (conf s))) s1
            | Some _ =>
                let s2 := log_calls (start_calls w (conf s) [partition (conf s)]) s1 in
                if consume_start_ret w (partition (conf s)) =? -1
                then Fatal (Failed_to_start_consuming (partition (conf s))) s2
                else Done t s2
            end
    end.

(** How often the flag of partition [p] goes from unset to set along a
    list of successive states. *)
Fixpoint rises (p : Z) (l : list state) : nat :=
  match l with
  | a :: (b :: _) as tl =>
      ((if negb (at_eof a p) && at_eof b p then 1 else 0) + rises p tl)%nat
  | _ => 0%nat
  end.

(** The consume loop ends in a [later] state, and when it ends by
    itself the run flag is down. *)
Definition loop_ends_later (r : result unit) (s : state) : Prop :=
  match r with
  | Done _ s' => later s s' /\ run (conf s') = 0
  | Fatal _ s' | Polling s' => later s s'
  | Undefined => True
  end.

(** The partitions the stop loop stops. *)
Definition wanted_partitions (c : conf_t) (ps : list Z) : list Z :=
  List.filter (fun p => negb (unwanted c p)) ps.

(** ** Further observations *)

(** The decimal rendering of ["%" PRId64], as a string. *)
Definition decimal (o : Z) : string := NilZero.string_of_int (Z.to_int o).

(** The text goes on with something that is not a digit, or ends. *)
Definition no_digit_ahead (s : string) : Prop :=
  match s with
  | String c _ => Libc.digit c = None
  | EmptyString => True
  end.

(** The argument of the last occurrence of the option [opt] on the
    command line, if it occurs. *)
Fixpoint last_arg (opt : ascii) (opts : list (ascii * string)) : option string :=
  match opts with
  | [] => None
  | (o, a) :: rest =>
      match last_arg opt rest with
      | Some a' => Some a'
      | None => if Ascii.eqb o opt then Some a else None
      end
  end.

(** The value a field has after the command line: made from the last
    argument of its option, or left as it was. *)
Definition field_after {A} (opt : ascii) (opts : list (ascii * string))
    (of_arg : string -> A) (before : A) : A :=
  match last_arg opt opts with
  | Some a => of_arg a
  | None => before
  end.

(** The option [opt] occurs on the command line. *)
Definition given (opt : ascii) (opts : list (ascii * string)) : Prop :=
  In opt (map fst opts).

(** The string holds no '='. *)
Definition no_equals_sign (s : string) : Prop :=
  ~ In "="%char (list_ascii_of_string s).

(** The bytes the callback puts on [stdout] for a data record when
    every write succeeds: as [formatted_record], but with the key as
    ["%.*s"] prints it. *)
Definition written_record (c : conf_t) (m : rd_kafka_message_t)
  : list Byte.byte :=
  (if truthy (Z.land (flags c) CONF_F_OFFSET)
   then list_byte_of_string (decimal (m_offset m)) ++ [key_delim c]
   else []) ++
  (if truthy (Z.land (flags c) CONF_F_KEY_DELIM)
   then c_string (m_key m) ++ [key_delim c]
   else []) ++
  m_payload m ++ [delim c].

(** Neither offsets nor keys are printed. *)
Definition bare_output (c : conf_t) : Prop :=
  truthy (Z.land (flags c) CONF_F_OFFSET) = false /\
  truthy (Z.land (flags c) CONF_F_KEY_DELIM) = false.

(** The option [opt] occurs among [opts], as a test. *)
Definition occurs (opt : ascii) (opts : list (ascii * string)) : bool :=
  existsb (fun x => Ascii.eqb (fst x) opt) opts.

(** The options that come after the last occurrence of [opt]; all of
    them if [opt] does not occur. *)
Fixpoint after_last (opt : ascii) (opts : list (ascii * string))
  : list (ascii * string) :=
  match opts with
  | [] => []
  | (o, a) :: rest =>
      if occurs opt rest then after_last opt rest
      else if Ascii.eqb o opt then rest
      else (o, a) :: rest
  end.

(** How often the option [opt] occurs among [opts]. *)
Definition count_opt (opt : ascii) (opts : list (ascii * string)) : Z :=
  Z.of_nat (length (List.filter (fun x => Ascii.eqb (fst x) opt) opts)).

(** [-X list] or [-X help]. *)
Definition asks_for_properties (o : ascii * string) : Prop :=
  fst o = "X"%char /\ (snd o = "list"%string \/ snd o = "help"%string).

(** * Properties *)

(** ** Machine integers and number parsing *)

Lemma wrap32_id z : Int.in_int z -> Int.wrap32 z = z.
Proof.
  unfold Int.in_int, Int.INT_MAX, Int.wrap32. intros H.
  rewrite Z.mod_small; lia.
Qed.

Lemma wrap64_id z : Int.in_int64 z -> Int.wrap64 z = z.
Proof.
  unfold Int.in_int64, Int.LLONG_MIN, Int.LLONG_MAX, Int.wrap64. intros H.
  rewrite Z.mod_small; lia.
Qed.

Lemma wrapu64_id z : 0 <= z < 2 ^ 64 -> Int.wrapu64 z = z.
Proof. intros H. unfold Int.wrapu64. apply Z.mod_small. exact H. Qed.

Lemma clamp_range lo hi z : lo <= hi -> lo <= Libc.clamp lo hi z <= hi.
Proof.
  intros Hle. unfold Libc.clamp.
  destruct (Z.ltb_spec z lo); [lia|].
  destruct (Z.ltb_spec hi z); lia.
Qed.

Lemma strtoll_range s : Int.in_int64 (Libc.strtoll s).
Proof.
  unfold Libc.strtoll.
  destruct (match Libc.skip_spaces s with
            | String "-"%char s' => (true, s')
            | String "+"%char s' => (false, s')
            | _ => (false, Libc.skip_spaces s)
            end) as [neg ds].
  apply clamp_range. unfold Int.LLONG_MIN, Int.LLONG_MAX. lia.
Qed.

(** ** Stepping through the monad *)

Lemma bind_Done {A B} (m : M A) (k : A -> M B) s a s' :
  m s = Done a s' -> bind m k s = k a s'.
Proof. intros H. unfold bind. rewrite H. reflexivity. Qed.

Lemma bind_Done_inv {A B} (m : M A) (k : A -> M B) s b s2 :
  bind m k s = Done b s2 -> exists a s1, m s = Done a s1 /\ k a s1 = Done b s2.
Proof.
  unfold bind. destruct (m s) as [a s1| | |]; try discriminate.
  intros H. exists a, s1. split; [reflexivity | exact H].
Qed.

Lemma bind_Fatal_inv {A B} (m : M A) (k : A -> M B) s e s2 :
  bind m k s = Fatal e s2 ->
  m s = Fatal e s2 \/ exists a s1, m s = Done a s1 /\ k a s1 = Fatal e s2.
Proof.
  unfold bind. destruct (m s) as [a s1|e1 s1| |]; try discriminate.
  - intros H. right. exists a, s1. split; [reflexivity | exact H].
  - intros H. left. injection H as -> ->. reflexivity.
Qed.

(** ** The callback once the run flag is down *)

Lemma consume_cb_stopped m s :
  run (conf s) = 0 -> consume_cb m s = Done tt s.
Proof.
  intros Hrun. unfold consume_cb, bind, gets, truthy.
  rewrite Hrun. reflexivity.
Qed.

Lemma consume_callback_queue_stopped batch s :
  run (conf s) = 0 -> consume_callback_queue batch s = Done tt s.
Proof.
  intros Hrun. induction batch as [|m rest IH]; [reflexivity|].
  cbn [consume_callback_queue]. rewrite (bind_Done _ _ s tt s).
  - exact IH.
  - apply consume_cb_stopped. exact Hrun.
Qed.

Lemma consume_callback_queue_app pre post s :
  consume_callback_queue (pre ++ post) s =
  (consume_callback_queue pre >> consume_callback_queue post) s.
Proof.
  revert s. induction pre as [|m pre IH]; intros s.
  - reflexivity.
  - cbn [consume_callback_queue app]. unfold bind in *.
    destruct (consume_cb m s) as [[] s1| | |]; try reflexivity.
    apply IH.
Qed.

Lemma consume_loop_stopped batches s :
  run (conf s) = 0 -> consume_loop batches s = Done tt s.
Proof.
  intros Hrun. destruct batches; cbn; unfold truthy; rewrite Hrun; reflexivity.
Qed.

(** ** What one call of the callback does to the state *)

Lemma count_message_eq s : count_message s = Done tt (counted s).
Proof.
  unfold count_message, counted, bind, modify, gets, when, ret. cbn.
  destruct (_ =? _); reflexivity.
Qed.

Lemma mark_eof_eq p v s :
  in_bounds (part_eof s) p = true ->
  part_eof s !! Z.to_nat p = Some v ->
  mark_eof p s = Done tt (if truthy v then s else marked p s).
Proof.
  intros Hb Hv.
  unfold mark_eof, bind, part_eof_load. rewrite Hb, Hv.
  destruct (truthy v); [reflexivity|].
  unfold part_eof_store, marked, modify, gets, when, ret. rewrite Hb. cbn.
  destruct (_ <=? _); reflexivity.
Qed.

Lemma in_bounds_lookup a i :
  in_bounds a i = true -> exists v, a !! Z.to_nat i = Some v.
Proof.
  unfold in_bounds. intros H.
  apply andb_true_iff in H as [H1 H2].
  apply Z.leb_le in H1. apply Z.ltb_lt in H2.
  destruct (lookup_lt_is_Some_2 a (Z.to_nat i)) as [v Hv]; [lia|].
  exists v. exact Hv.
Qed.

Lemma mark_eof_out_of_bounds p s :
  in_bounds (part_eof s) p = false -> mark_eof p s = Undefined.
Proof.
  intros Hb. unfold mark_eof, bind, part_eof_load. rewrite Hb. reflexivity.
Qed.

(** [print_message] touches nothing but [stdout]. *)
Lemma on_stdout_frame f s : exists r fp, on_stdout f s = Done r (with_stdout fp s).
Proof.
  unfold on_stdout. destruct (f (stdout s)) as [r fp]. exists r, fp. reflexivity.
Qed.

Lemma with_stdout_twice fp1 fp2 s :
  with_stdout fp2 (with_stdout fp1 s) = with_stdout fp2 s.
Proof. reflexivity. Qed.

Lemma with_stdout_same s : with_stdout (stdout s) s = s.
Proof. destruct s. reflexivity. Qed.

Lemma stdout_only_bind {A B} (m : M A) (k : A -> M B) :
  stdout_only m -> (forall a, stdout_only (k a)) -> stdout_only (bind m k).
Proof.
  intros Hm Hk s. unfold bind. specialize (Hm s).
  destruct (m s) as [a s1|e s1|s1|]; try exact Hm.
  destruct Hm as [fp ->]. specialize (Hk a (with_stdout fp s)).
  destruct (k a (with_stdout fp s)) as [b s2|e s2|s2|]; exact Hk.
Qed.

Lemma stdout_only_ret {A} (a : A) : stdout_only (ret a).
Proof. intros s. exists (stdout s). symmetry. apply with_stdout_same. Qed.

Lemma stdout_only_gets {A} (f : state -> A) : stdout_only (gets f).
Proof. intros s. exists (stdout s). symmetry. apply with_stdout_same. Qed.

Lemma stdout_only_FATAL {A} e : stdout_only (@FATAL A e).
Proof. intros s. exists (stdout s). symmetry. apply with_stdout_same. Qed.

Lemma stdout_only_undefined {A} : stdout_only (@undefined A).
Proof. intros s. exact I. Qed.

Lemma stdout_only_on_stdout f : stdout_only (on_stdout f).
Proof.
  intros s. destruct (on_stdout_frame f s) as (r & fp & ->).
  exists fp. reflexivity.
Qed.

Lemma stdout_only_when b m : stdout_only m -> stdout_only (when b m).
Proof. intros H. destruct b; [exact H | apply stdout_only_ret]. Qed.

Create HintDb frame.
#[local] Hint Resolve stdout_only_ret stdout_only_gets stdout_only_FATAL
  stdout_only_undefined stdout_only_on_stdout stdout_only_when : frame.

Lemma print_message_stdout_only m : stdout_only (print_message m).
Proof.
  unfold print_message.
  apply stdout_only_bind; [auto with frame|]. intros c.
  apply stdout_only_bind.
  { apply stdout_only_when, stdout_only_bind; auto with frame. }
  intros _. apply stdout_only_bind.
  { apply stdout_only_when. destruct (format_key _ _ _); [|auto with frame].
    apply stdout_only_bind; auto with frame. }
  intros _. apply stdout_only_bind; [auto with frame|]. intros w1.
  destruct (negb (w1 =? 1)); [auto with frame|].
  apply stdout_only_bind; [auto with frame|]. intros w2.
  destruct (negb (w2 =? 1)); auto with frame.
Qed.

Lemma fails_with_bind {A B} e0 (m : M A) (k : A -> M B) :
  fails_with e0 m -> (forall a, fails_with e0 (k a)) -> fails_with e0 (bind m k).
Proof.
  intros Hm Hk s e s' H. apply bind_Fatal_inv in H as [H | (a & s1 & _ & H)].
  - exact (Hm _ _ _ H).
  - exact (Hk _ _ _ _ H).
Qed.

Lemma fails_with_ret {A} e0 (a : A) : fails_with e0 (ret a).
Proof. intros s e s' H. discriminate. Qed.

Lemma fails_with_gets {A} e0 (f : state -> A) : fails_with e0 (gets f).
Proof. intros s e s' H. discriminate. Qed.

Lemma fails_with_undefined {A} e0 : fails_with e0 (@undefined A).
Proof. intros s e s' H. discriminate. Qed.

Lemma fails_with_on_stdout e0 f : fails_with e0 (on_stdout f).
Proof.
  intros s e s' H. destruct (on_stdout_frame f s) as (r & fp & Hf).
  rewrite Hf in H. discriminate.
Qed.

Lemma fails_with_FATAL {A} e0 : fails_with e0 (@FATAL A e0).
Proof. intros s e s' H. injection H as <- _. reflexivity. Qed.

Lemma fails_with_when e0 b m : fails_with e0 m -> fails_with e0 (when b m).
Proof. intros H. destruct b; [exact H | apply fails_with_ret]. Qed.

#[local] Hint Resolve fails_with_ret fails_with_gets fails_with_undefined
  fails_with_on_stdout fails_with_FATAL fails_with_when : frame.

(** The only [FATAL] of [print_message] is the write error. *)
Lemma print_message_fails_with m :
  fails_with (Write_error (len m) (m_offset m)) (print_message m).
Proof.
  unfold print_message.
  apply fails_with_bind; [auto with frame|]. intros c.
  apply fails_with_bind.
  { apply fails_with_when, fails_with_bind; auto with frame. }
  intros _. apply fails_with_bind.
  { apply fails_with_when. destruct (format_key _ _ _); [|auto with frame].
    apply fails_with_bind; auto with frame. }
  intros _. apply fails_with_bind; [auto with frame|]. intros w1.
  destruct (negb (w1 =? 1)); [auto with frame|].
  apply fails_with_bind; [auto with frame|]. intros w2.
  destruct (negb (w2 =? 1)); auto with frame.
Qed.

Lemma consume_cb_running m s :
  truthy (run (conf s)) = true ->
  consume_cb m s =
  if truthy (m_err m) then
    if m_err m =? RD_KAFKA_RESP_ERR__PARTITION_EOF then
      if truthy (exit_eof (conf s)) then mark_eof (m_partition m) s
      else Done tt s
    else Fatal (Topic_partition_error (m_partition m) (m_err m)) s
  else (print_message m >> count_message) s.
Proof.
  intros Hrun. unfold consume_cb at 1. unfold bind at 1, gets at 1.
  rewrite Hrun. cbn [negb].
  destruct (truthy (m_err m)); [|reflexivity].
  destruct (_ =? _); [|reflexivity].
  destruct (truthy (exit_eof (conf s))); reflexivity.
Qed.

Lemma print_then_count m s :
  (print_message m >> count_message) s =
  match print_message m s with
  | Done _ s1 => Done tt (counted s1)
  | Fatal e s1 => Fatal e s1
  | Polling s1 => Polling s1
  | Undefined => Undefined
  end.
Proof.
  unfold bind. destruct (print_message m s); try reflexivity.
  apply count_message_eq.
Qed.

(** ** End-of-partition bookkeeping *)

Lemma count_eof_cons v a :
  count_eof (v :: a) = (if truthy v then 1 else 0) + count_eof a.
Proof.
  unfold count_eof. cbn [List.filter].
  destruct (truthy v); cbn [length]; lia.
Qed.

Lemma count_eof_insert a i v :
  a !! i = Some v -> truthy v = false ->
  count_eof (<[i := 1]> a) = count_eof a + 1.
Proof.
  revert i. induction a as [|x a IH]; intros i Hi Hv.
  - discriminate.
  - destruct i as [|i].
    + cbn in Hi. injection Hi as ->.
      cbn [list_insert]. change (<[0%nat := 1]> (v :: a)) with (1 :: a).
      rewrite !count_eof_cons, Hv. change (truthy 1) with true.
      cbv iota. lia.
    + cbn in Hi. change (<[S i := 1]> (x :: a)) with (x :: <[i := 1]> a).
      rewrite !count_eof_cons, (IH i Hi Hv). lia.
Qed.

Lemma count_eof_bounds a : 0 <= count_eof a <= Z.of_nat (length a).
Proof.
  induction a as [|x a IH].
  - unfold count_eof. cbn. lia.
  - rewrite count_eof_cons. cbn [length]. destruct (truthy x); lia.
Qed.

Lemma count_eof_replicate n : count_eof (replicate n 0) = 0.
Proof.
  induction n as [|n IH]; [reflexivity|].
  cbn [replicate]. rewrite count_eof_cons, IH. reflexivity.
Qed.

Lemma later_refl s : later s s.
Proof. split; auto. Qed.

Lemma set_run_0_idem c : set_run 0 (set_run 0 c) = set_run 0 c.
Proof. reflexivity. Qed.

Lemma later_run s s' :
  later s s' -> run (conf s) = 0 -> run (conf s') = 0.
Proof.
  intros [Hc _ _ _ _] H. destruct Hc as [-> | ->]; [exact H | reflexivity].
Qed.

Lemma later_static s s' :
  later s s' ->
  exit_eof (conf s') = exit_eof (conf s) /\
  partition (conf s') = partition (conf s) /\
  offset (conf s') = offset (conf s) /\
  msg_cnt (conf s') = msg_cnt (conf s) /\
  flags (conf s') = flags (conf s) /\
  exitcode (conf s') = exitcode (conf s).
Proof.
  intros [Hc _ _ _ _]. destruct Hc as [-> | ->]; repeat split; reflexivity.
Qed.

Lemma at_eof_marked p q s :
  in_bounds (part_eof s) p = true ->
  at_eof (marked p s) q = (if q =? p then true else at_eof s q).
Proof.
  intros Hb.
  assert (Ha : part_eof (marked p s) = <[Z.to_nat p := 1]> (part_eof s)).
  { unfold marked. cbn. destruct (_ <=? _); reflexivity. }
  unfold at_eof, in_bounds in *. rewrite Ha, length_insert.
  apply andb_true_iff in Hb as [Hb1 Hb2].
  apply Z.leb_le in Hb1. apply Z.ltb_lt in Hb2.
  destruct (Z.eqb_spec q p) as [->|Hne].
  - rewrite list_lookup_insert_eq by lia.
    apply andb_true_iff. split; [|reflexivity].
    apply andb_true_iff. split; [apply Z.leb_le | apply Z.ltb_lt]; lia.
  - destruct (Z.leb_spec 0 q); [|reflexivity].
    rewrite list_lookup_insert_ne by lia. reflexivity.
Qed.

Lemma marked_later p s :
  in_bounds (part_eof s) p = true -> later s (marked p s).
Proof.
  intros Hb. split.
  - unfold marked. cbn. destruct (_ <=? _); cbn; auto.
  - unfold marked. cbn. destruct (_ <=? _); reflexivity.
  - unfold marked. cbn. destruct (_ <=? _); cbn; apply length_insert.
  - unfold marked. cbn. destruct (_ <=? _); reflexivity.
  - intros q Hq. rewrite at_eof_marked by exact Hb.
    destruct (q =? p); [reflexivity | exact Hq].
Qed.

Lemma counted_later s : later s (counted s).
Proof.
  split; unfold counted; cbn; destruct (_ =? _); cbn; auto.
Qed.

Lemma with_stdout_later fp s : later s (with_stdout fp s).
Proof. split; cbn; auto. Qed.

Lemma later_trans s1 s2 s3 : later s1 s2 -> later s2 s3 -> later s1 s3.
Proof.
  intros [C1 T1 L1 K1 E1] [C2 T2 L2 K2 E2].
  split.
  - destruct C1 as [C1|C1], C2 as [C2|C2]; rewrite C2, C1; auto.
  - congruence.
  - congruence.
  - congruence.
  - auto.
Qed.

Lemma consume_cb_ends_later m s : ends_later (consume_cb m s) s.
Proof.
  destruct (truthy (run (conf s))) eqn:Hrun.
  - rewrite consume_cb_running by exact Hrun.
    destruct (truthy (m_err m)).
    + destruct (_ =? _); [|apply later_refl].
      destruct (truthy (exit_eof (conf s))); [|apply later_refl].
      destruct (in_bounds (part_eof s) (m_partition m)) eqn:Hb.
      * destruct (in_bounds_lookup _ _ Hb) as [v Hv].
        rewrite (mark_eof_eq _ v) by assumption.
        destruct (truthy v); [apply later_refl | apply marked_later, Hb].
      * rewrite mark_eof_out_of_bounds by exact Hb. exact I.
    + rewrite print_then_count.
      pose proof (print_message_stdout_only m s) as Hp.
      destruct (print_message m s) as [[] s1|e s1|s1|]; try exact Hp.
      * destruct Hp as [fp ->].
        eapply later_trans; [apply with_stdout_later | apply counted_later].
      * destruct Hp as [fp ->]. apply with_stdout_later.
  - rewrite consume_cb_stopped; [apply later_refl|].
    unfold truthy in Hrun. apply negb_false_iff, Z.eqb_eq in Hrun. exact Hrun.
Qed.

Lemma consume_cb_later m s s' : consume_cb m s = Done tt s' -> later s s'.
Proof. intros H. pose proof (consume_cb_ends_later m s) as E. rewrite H in E. exact E. Qed.

Lemma consume_callback_queue_ends_later batch s :
  ends_later (consume_callback_queue batch s) s.
Proof.
  revert s. induction batch as [|m rest IH]; intros s.
  - apply later_refl.
  - cbn [consume_callback_queue]. unfold bind.
    pose proof (consume_cb_ends_later m s) as E.
    destruct (consume_cb m s) as [[] s1|e s1|s1|]; try exact E.
    specialize (IH s1). cbn in E.
    destruct (consume_callback_queue rest s1) as [[] s2|e s2|s2|]; try exact IH;
      cbn in *; eapply later_trans; eassumption.
Qed.

Lemma consume_callback_queue_later batch s s' :
  consume_callback_queue batch s = Done tt s' -> later s s'.
Proof.
  intros H. pose proof (consume_callback_queue_ends_later batch s) as E.
  rewrite H in E. exact E.
Qed.

Lemma truthy_false z : truthy z = false <-> z = 0.
Proof. unfold truthy. rewrite negb_false_iff. apply Z.eqb_eq. Qed.

Lemma truthy_true z : truthy z = true <-> z <> 0.
Proof. unfold truthy. rewrite negb_true_iff. apply Z.eqb_neq. Qed.

Lemma eof_inv_frame s s' :
  eof_inv s ->
  part_eof s' = part_eof s ->
  part_eof_cnt s' = part_eof_cnt s ->
  part_eof_thres s' = part_eof_thres s ->
  exit_eof (conf s') = exit_eof (conf s) ->
  (run (conf s') = run (conf s) \/ run (conf s') = 0) ->
  eof_inv s'.
Proof.
  intros [I1 I2 I3 I4] Ha Hc Ht He Hr. split.
  - rewrite Hc, Ha. exact I1.
  - rewrite Hc, Ht. exact I2.
  - rewrite Ht. exact I3.
  - intros R E. rewrite Hc, Ht. apply I4.
    + destruct Hr as [Hr|Hr]; rewrite Hr in R; [exact R | discriminate].
    + rewrite <- He. exact E.
Qed.

Lemma eof_inv_marked p s :
  eof_inv s ->
  truthy (run (conf s)) = true ->
  truthy (exit_eof (conf s)) = true ->
  in_bounds (part_eof s) p = true ->
  part_eof s !! Z.to_nat p = Some 0 \/
    (exists v, part_eof s !! Z.to_nat p = Some v /\ truthy v = false) ->
  eof_inv (marked p s) /\
  part_eof_cnt (marked p s) = part_eof_cnt s + 1.
Proof.
  intros [I1 I2 I3 I4] Hrun Hexit Hb Hv.
  assert (Hv' : exists v, part_eof s !! Z.to_nat p = Some v /\ truthy v = false).
  { destruct Hv as [Hv|Hv]; [exists 0; split; [exact Hv | reflexivity] | exact Hv]. }
  destruct Hv' as (v & Hlk & Hz).
  specialize (I4 Hrun Hexit).
  pose proof (count_eof_bounds (part_eof s)) as Hcb.
  assert (Hw : Int.wrap32 (part_eof_cnt s + 1) = part_eof_cnt s + 1).
  { apply wrap32_id. unfold Int.in_int, Int.INT_MAX in *. lia. }
  assert (Hcnt : part_eof_cnt (marked p s) = part_eof_cnt s + 1).
  { unfold marked. cbn. rewrite Hw. destruct (_ <=? _); reflexivity. }
  split; [|exact Hcnt]. split.
  - rewrite Hcnt. unfold marked. cbn. rewrite Hw.
    destruct (_ <=? _); cbn; rewrite (count_eof_insert _ _ v Hlk Hz); lia.
  - rewrite Hcnt. unfold marked. cbn. destruct (_ <=? _); cbn; lia.
  - unfold marked. cbn. destruct (_ <=? _); cbn; exact I3.
  - unfold marked. cbn. rewrite Hw.
    destruct (Z.leb_spec (part_eof_thres s) (part_eof_cnt s + 1)); cbn.
    + intros R. discriminate.
    + intros _ _. lia.
Qed.

Lemma consume_cb_eof_inv m s s' :
  eof_inv s -> consume_cb m s = Done tt s' -> eof_inv s'.
Proof.
  intros Hinv.
  destruct (truthy (run (conf s))) eqn:Hrun.
  - rewrite consume_cb_running by exact Hrun.
    destruct (truthy (m_err m)).
    + destruct (_ =? _); [|discriminate].
      destruct (truthy (exit_eof (conf s))) eqn:Hexit;
        [|intros H; injection H as <-; exact Hinv].
      destruct (in_bounds (part_eof s) (m_partition m)) eqn:Hb.
      * destruct (in_bounds_lookup _ _ Hb) as [v Hv].
        rewrite (mark_eof_eq _ v) by assumption.
        destruct (truthy v) eqn:Hz; intros H; injection H as <-; [exact Hinv|].
        apply eof_inv_marked; try assumption.
        right. exists v. split; assumption.
      * rewrite mark_eof_out_of_bounds by exact Hb. discriminate.
    + rewrite print_then_count.
      pose proof (print_message_stdout_only m s) as Hp.
      destruct (print_message m s) as [[] s1|e s1|s1|]; try discriminate.
      destruct Hp as [fp ->]. intros H. injection H as <-.
      apply (eof_inv_frame s); try exact Hinv;
        unfold counted; cbn; destruct (_ =? _); cbn; auto.
  - apply truthy_false in Hrun. rewrite consume_cb_stopped by exact Hrun.
    intros H. injection H as <-. exact Hinv.
Qed.

Lemma consume_callback_queue_eof_inv batch s s' :
  eof_inv s -> consume_callback_queue batch s = Done tt s' -> eof_inv s'.
Proof.
  revert s. induction batch as [|m rest IH]; intros s Hinv.
  - intros H. injection H as <-. exact Hinv.
  - cbn [consume_callback_queue]. intros H.
    apply bind_Done_inv in H as ([] & s1 & H1 & H2).
    eapply IH; [|exact H2]. eapply consume_cb_eof_inv; eassumption.
Qed.

(** ** The start loop and the stop loop *)

Lemma log_calls_nil s : log_calls [] s = s.
Proof. destruct s. unfold log_calls. cbn. rewrite app_nil_r. reflexivity. Qed.

Lemma log_calls_cons c cs s : log_calls (c :: cs) s = log_calls cs (log_call c s).
Proof.
  unfold log_calls, log_call. cbn. rewrite <- app_assoc. reflexivity.
Qed.

Lemma log_calls_app cs1 cs2 s :
  log_calls (cs1 ++ cs2) s = log_calls cs2 (log_calls cs1 s).
Proof. unfold log_calls. cbn. rewrite app_assoc. reflexivity. Qed.

Lemma unwanted_all c p :
  partition c = RD_KAFKA_PARTITION_UA -> unwanted c p = false.
Proof. intros H. unfold unwanted. rewrite H, Z.eqb_refl. reflexivity. Qed.

Lemma unwanted_one c p :
  partition c <> RD_KAFKA_PARTITION_UA ->
  unwanted c p = negb (partition c =? p).
Proof.
  intros H. unfold unwanted. apply Z.eqb_neq in H. rewrite H. reflexivity.
Qed.

Lemma start_loop_all w ps i s :
  partition (conf s) = RD_KAFKA_PARTITION_UA ->
  start_loop w ps i s =
  match start_attempts w ps with
  | (pre, None) =>
      Done (i + Z.of_nat (length ps)) (log_calls (start_calls w (conf s) pre) s)
  | (pre, Some p) =>
      Fatal (Failed_to_start_consuming p) (log_calls (start_calls w (conf s) pre) s)
  end.
Proof.
  revert i s. induction ps as [|p rest IH]; intros i s Hua.
  - cbn. rewrite log_calls_nil. unfold ret. f_equal. lia.
  - cbn [start_loop start_attempts]. unfold bind at 1, gets at 1.
    rewrite (unwanted_all _ p Hua).
    unfold bind at 1, modify at 1.
    destruct (consume_start_ret w p =? -1) eqn:Hr.
    + unfold FATAL. cbn [start_calls map]. rewrite log_calls_cons, log_calls_nil.
      reflexivity.
    + cbv beta. rewrite Hua, Z.eqb_refl. cbn [negb].
      rewrite IH by exact Hua.
      destruct (start_attempts w rest) as [pre [q|]];
        cbn [start_calls map]; rewrite log_calls_cons; cbn [length];
        [reflexivity | f_equal; lia].
Qed.

Lemma start_loop_one w ps i s :
  partition (conf s) <> RD_KAFKA_PARTITION_UA ->
  start_loop w ps i s =
  match index_of (partition (conf s)) ps with
  | None => Done (i + Z.of_nat (length ps)) s
  | Some k =>
      let s' := log_calls (start_calls w (conf s) [partition (conf s)]) s in
      if consume_start_ret w (partition (conf s)) =? -1
      then Fatal (Failed_to_start_consuming (partition (conf s))) s'
      else Done (i + k) s'
  end.
Proof.
  revert i s. induction ps as [|p rest IH]; intros i s Hsel.
  - cbn. unfold ret. f_equal. lia.
  - cbn [start_loop index_of]. unfold bind at 1, gets at 1.
    rewrite (unwanted_one _ p Hsel).
    destruct (Z.eqb_spec (partition (conf s)) p) as [<-|Hne]; cbn [negb].
    + unfold bind, modify. cbn [start_calls map].
      rewrite log_calls_cons, log_calls_nil. cbv beta zeta.
      destruct (_ =? -1); [reflexivity|].
      apply Z.eqb_neq in Hsel. rewrite Hsel. cbn [negb].
      unfold ret. f_equal. lia.
    + rewrite IH by exact Hsel.
      destruct (index_of (partition (conf s)) rest) as [k|].
      * cbn zeta. destruct (_ =? -1); [reflexivity|]. f_equal. lia.
      * cbn [length]. f_equal. lia.
Qed.

Lemma index_of_None q ps : index_of q ps = None <-> ~ In q ps.
Proof.
  induction ps as [|p rest IH]; cbn.
  - tauto.
  - destruct (Z.eqb_spec q p) as [->|Hne].
    + split; [discriminate | intros H; exfalso; apply H; left; reflexivity].
    + destruct (index_of q rest) as [k|].
      * split; [discriminate|]. intros H. exfalso. apply H. right.
        destruct (in_dec Z.eq_dec q rest) as [Hin|Hin]; [exact Hin|].
        apply IH in Hin. discriminate.
      * split; [|reflexivity]. intros _ [Heq|Hin]; [congruence|].
        apply IH in Hin; [exact Hin | reflexivity].
Qed.

Lemma index_of_Some q ps k :
  index_of q ps = Some k -> 0 <= k < Z.of_nat (length ps) /\ In q ps.
Proof.
  revert k. induction ps as [|p rest IH]; intros k; cbn [index_of].
  - discriminate.
  - destruct (Z.eqb_spec q p) as [->|Hne].
    + intros H. injection H as <-. cbn [length]. split; [lia | left; reflexivity].
    + destruct (index_of q rest) as [k'|]; [|discriminate].
      intros H. injection H as <-. destruct (IH k' eq_refl) as [Hk Hin].
      cbn [length]. split; [lia | right; exact Hin].
Qed.

Lemma start_attempts_ok w ps :
  Forall (fun p => consume_start_ret w p <> -1) ps ->
  start_attempts w ps = (ps, None).
Proof.
  induction 1 as [|p rest Hp _ IH]; [reflexivity|].
  cbn [start_attempts]. apply Z.eqb_neq in Hp. rewrite Hp, IH. reflexivity.
Qed.

Lemma start_attempts_None w ps pre :
  start_attempts w ps = (pre, None) ->
  pre = ps /\ Forall (fun p => consume_start_ret w p <> -1) ps.
Proof.
  revert pre. induction ps as [|p rest IH]; intros pre; cbn [start_attempts].
  - intros H. injection H as <-. split; [reflexivity | constructor].
  - destruct (Z.eqb_spec (consume_start_ret w p) (-1)) as [|Hne]; [discriminate|].
    destruct (start_attempts w rest) as [pre' f]. intros H. injection H as <- ->.
    destruct (IH pre' eq_refl) as [-> HF].
    split; [reflexivity | constructor; assumption].
Qed.

(** ** Everything before the consume loop, in closed form *)

Lemma setup_eof_eq t s : setup_eof t s = Done tt (after_setup t s).
Proof.
  unfold setup_eof, after_setup, bind, gets, when, modify, ret.
  destruct (truthy (exit_eof (conf s))); [|reflexivity].
  cbn. destruct (partition (conf s) =? RD_KAFKA_PARTITION_UA); reflexivity.
Qed.

Lemma conf_after_setup t s : conf (after_setup t s) = conf s.
Proof. unfold after_setup. destruct (truthy _); reflexivity. Qed.

Lemma calls_after_setup t s : calls (after_setup t s) = calls s.
Proof. unfold after_setup. destruct (truthy _); reflexivity. Qed.

Lemma consumer_begin_eq w s : consumer_begin w s = begin_outcome w s.
Proof.
  unfold consumer_begin, begin_outcome, query_metadata.
  unfold bind at 1.
  destruct (truthy (metadata_err w)); [reflexivity|].
  destruct (topics (metadata w)) as [|t rest]; [reflexivity|].
  destruct (truthy (t_err t)); [reflexivity|].
  destruct (Z.eqb_spec (partition_cnt t) 0) as [|Hcnt]; [reflexivity|].
  unfold ret at 1. unfold bind at 1. rewrite setup_eof_eq.
  unfold bind at 1, modify at 1. unfold bind at 1.
  set (s1 := log_call rd_kafka_queue_new (after_setup t s)).
  assert (Hc : conf s1 = conf s) by apply conf_after_setup.
  destruct (Z.eqb_spec (partition (conf s)) RD_KAFKA_PARTITION_UA) as [Hua|Hsel].
  - rewrite start_loop_all by (rewrite Hc; exact Hua). rewrite Hc.
    destruct (start_attempts w (partitions t)) as [pre [p|]]; [reflexivity|].
    unfold check_partition_found, bind, gets. cbn [conf log_calls].
    rewrite Hc, Hua, Z.eqb_refl. reflexivity.
  - rewrite start_loop_one by (rewrite Hc; exact Hsel). rewrite Hc.
    destruct (index_of (partition (conf s)) (partitions t)) as [k|] eqn:Hidx.
    + cbv zeta. destruct (_ =? -1); [reflexivity|].
      unfold check_partition_found, bind, gets. cbn [conf log_calls].
      rewrite Hc. apply index_of_Some in Hidx as [Hk _].
      destruct (Z.eqb_spec (0 + k) (partition_cnt t)) as [Heq|_].
      * unfold partition_cnt in Heq. lia.
      * rewrite andb_false_r. reflexivity.
    + unfold check_partition_found, bind, gets. rewrite Hc.
      apply Z.eqb_neq in Hsel. rewrite Hsel. cbn [negb andb].
      unfold partition_cnt at 1. rewrite Z.add_0_l, Z.eqb_refl. reflexivity.
Qed.

(** A run that gets to the consume loop: what the metadata was, which
    streams were opened, and the state the loop starts in. *)
Lemma consumer_begin_Done w s t s1 :
  consumer_begin w s = Done t s1 ->
  metadata_err w = 0 /\
  (exists rest, topics (metadata w) = t :: rest) /\
  t_err t = 0 /\
  partition_cnt t <> 0 /\
  exists sel,
    s1 = log_calls (start_calls w (conf s) sel)
           (log_call rd_kafka_queue_new (after_setup t s)) /\
    Forall (fun p => consume_start_ret w p <> -1) sel /\
    ((partition (conf s) = RD_KAFKA_PARTITION_UA /\ sel = partitions t) \/
     (partition (conf s) <> RD_KAFKA_PARTITION_UA /\
      sel = [partition (conf s)] /\ In (partition (conf s)) (partitions t))).
Proof.
  rewrite consumer_begin_eq. unfold begin_outcome.
  destruct (truthy (metadata_err w)) eqn:Hq; [discriminate|].
  apply truthy_false in Hq.
  destruct (topics (metadata w)) as [|t0 rest]; [discriminate|].
  destruct (truthy (t_err t0)) eqn:He; [discriminate|].
  apply truthy_false in He.
  destruct (Z.eqb_spec (partition_cnt t0) 0) as [|Hcnt]; [discriminate|].
  cbv zeta.
  destruct (Z.eqb_spec (partition (conf s)) RD_KAFKA_PARTITION_UA) as [Hua|Hsel].
  - destruct (start_attempts w (partitions t0)) as [pre [p|]] eqn:Hat; [discriminate|].
    intros H. injection H as <- <-.
    apply start_attempts_None in Hat as [-> HF].
    repeat split; try assumption; [eexists; reflexivity|].
    exists (partitions t0). repeat split; [exact HF | left; split; auto].
  - destruct (index_of (partition (conf s)) (partitions t0)) as [k|] eqn:Hidx;
      [|discriminate].
    destruct (Z.eqb_spec (consume_start_ret w (partition (conf s))) (-1)) as [|Hok];
      [discriminate|].
    intros H. injection H as <- <-.
    apply index_of_Some in Hidx as [_ Hin].
    repeat split; try assumption; [eexists; reflexivity|].
    exists [partition (conf s)]. repeat split.
    + constructor; [exact Hok | constructor].
    + right. repeat split; assumption.
Qed.

(** ** Runs of the callback *)

#[local] Arguments consume_cb : simpl never.

Lemma states_of_head msgs s : exists tl, states_of msgs s = s :: tl.
Proof. destruct msgs; eexists; reflexivity. Qed.

Lemma states_of_all msgs s :
  eof_inv s -> Forall (fun s' => eof_inv s' /\ later s s') (states_of msgs s).
Proof.
  revert s. induction msgs as [|m rest IH]; intros s Hinv.
  - constructor; [split; [exact Hinv | apply later_refl] | constructor].
  - cbn [states_of]. constructor; [split; [exact Hinv | apply later_refl]|].
    destruct (consume_cb m s) as [[] s1| | |] eqn:Hcb; try constructor.
    pose proof (consume_cb_later _ _ _ Hcb) as Hl.
    pose proof (consume_cb_eof_inv _ _ _ Hinv Hcb) as Hi.
    eapply Forall_impl; [apply IH, Hi|].
    intros s' [H1 H2]. split; [exact H1 | eapply later_trans; eassumption].
Qed.

Lemma states_of_later msgs s :
  Forall (fun s' => later s s') (states_of msgs s).
Proof.
  revert s. induction msgs as [|m rest IH]; intros s.
  - constructor; [apply later_refl | constructor].
  - cbn [states_of]. constructor; [apply later_refl|].
    destruct (consume_cb m s) as [[] s1| | |] eqn:Hcb; try constructor.
    pose proof (consume_cb_later _ _ _ Hcb) as Hl.
    eapply Forall_impl; [apply IH|].
    intros s' H. eapply later_trans; eassumption.
Qed.

Lemma states_of_ordered msgs s (i j : nat) si sj :
  (i <= j)%nat ->
  states_of msgs s !! i = Some si ->
  states_of msgs s !! j = Some sj ->
  later si sj.
Proof.
  revert s i j. induction msgs as [|m rest IH]; intros s i j Hij Hi Hj.
  - destruct i as [|i]; [|discriminate]. destruct j as [|j]; [|discriminate].
    cbn in Hi, Hj. injection Hi as <-. injection Hj as <-. apply later_refl.
  - destruct i as [|i].
    + cbn in Hi. injection Hi as <-.
      pose proof (states_of_later (m :: rest) s) as HF.
      rewrite Forall_lookup in HF. exact (HF j sj Hj).
    + destruct j as [|j]; [lia|].
      cbn [states_of] in Hi, Hj. cbn in Hi, Hj.
      destruct (consume_cb m s) as [[] s1| | |]; try discriminate.
      apply (IH s1 i j); [lia | assumption | assumption].
Qed.

Lemma rises_cons p a l :
  rises p (a :: l) =
  match l with
  | b :: _ => ((if negb (at_eof a p) && at_eof b p then 1 else 0) + rises p l)%nat
  | [] => 0%nat
  end.
Proof. destruct l; reflexivity. Qed.

Lemma rises_set p msgs s :
  at_eof s p = true -> rises p (states_of msgs s) = 0%nat.
Proof.
  revert s. induction msgs as [|m rest IH]; intros s Hs; [reflexivity|].
  cbn [states_of]. rewrite rises_cons.
  destruct (consume_cb m s) as [[] s1| | |] eqn:Hcb; try reflexivity.
  destruct (states_of_head rest s1) as [tl Htl]. rewrite Htl, <- Htl.
  rewrite Hs. cbn [negb andb]. apply IH.
  apply (later_at_eof _ _ (consume_cb_later _ _ _ Hcb)). exact Hs.
Qed.

Lemma rises_at_most_once p msgs s : (rises p (states_of msgs s) <= 1)%nat.
Proof.
  revert s. induction msgs as [|m rest IH]; intros s; [cbn; lia|].
  cbn [states_of]. rewrite rises_cons.
  destruct (consume_cb m s) as [[] s1| | |] eqn:Hcb; try lia.
  destruct (states_of_head rest s1) as [tl Htl]. rewrite Htl, <- Htl.
  destruct (at_eof s1 p) eqn:H1.
  - rewrite (rises_set p rest s1 H1). destruct (negb (at_eof s p)); cbn; lia.
  - rewrite andb_false_r. specialize (IH s1). lia.
Qed.

Lemma opened_streams_app cs1 cs2 :
  opened_streams (cs1 ++ cs2) = opened_streams cs1 ++ opened_streams cs2.
Proof.
  induction cs1 as [|c cs1 IH]; [reflexivity|].
  destruct c as [|p o r| |]; cbn; try exact IH.
  destruct (r =? -1); cbn; rewrite IH; reflexivity.
Qed.

Lemma opened_streams_start_calls w c sel :
  Forall (fun p => consume_start_ret w p <> -1) sel ->
  opened_streams (start_calls w c sel) = sel.
Proof.
  induction 1 as [|p rest Hp _ IH]; [reflexivity|].
  cbn. apply Z.eqb_neq in Hp. rewrite Hp. f_equal. exact IH.
Qed.

Lemma closed_streams_app cs1 cs2 :
  closed_streams (cs1 ++ cs2) = closed_streams cs1 ++ closed_streams cs2.
Proof.
  induction cs1 as [|c cs1 IH]; [reflexivity|].
  destruct c; cbn; rewrite ?IH; reflexivity.
Qed.

Lemma closed_streams_start_calls w c sel :
  closed_streams (start_calls w c sel) = [].
Proof. induction sel as [|p rest IH]; [reflexivity | exact IH]. Qed.

(** ** A run that has got to the consume loop *)

Section Begun.

Variables (w : world) (c : conf_t) (io : list io_result).
Variables (t : rd_kafka_metadata_topic) (s1 : state).

Hypothesis Hbegin : consumer_begin w (initial_state c io) = Done t s1.

(** The globals at the start of the consume loop. *)
Lemma consumer_begin_globals :
  conf s1 = c /\
  stats_rx s1 = 0 /\
  stdout s1 = mk_FILE [] io /\
  part_eof_cnt s1 = 0 /\
  (truthy (exit_eof c) = true ->
   part_eof s1 = replicate (Z.to_nat (partition_cnt t)) 0 /\
   part_eof_thres s1 =
     (if partition c =? RD_KAFKA_PARTITION_UA then partition_cnt t else 1)) /\
  (truthy (exit_eof c) = false -> part_eof s1 = [] /\ part_eof_thres s1 = 0).
Proof.
  destruct (consumer_begin_Done _ _ _ _ Hbegin)
    as (_ & _ & _ & _ & sel & -> & _ & _).
  cbn [initial_state conf log_calls log_call stats_rx stdout part_eof_cnt
       part_eof part_eof_thres].
  rewrite conf_after_setup. unfold after_setup. cbn [conf initial_state].
  destruct (truthy (exit_eof c)); cbn; repeat split; intros; try discriminate;
    reflexivity.
Qed.

(** The invariant holds when the consume loop starts. *)
Lemma consumer_begin_eof_inv :
  partition_cnt t <= Int.INT_MAX -> eof_inv s1.
Proof.
  intros Hmax.
  pose proof consumer_begin_globals as (Hc & _ & _ & Hcnt & Hon & Hoff).
  destruct (consumer_begin_Done _ _ _ _ Hbegin) as (_ & _ & _ & Hne & _).
  assert (Hpos : 0 < partition_cnt t) by (unfold partition_cnt in *; lia).
  destruct (truthy (exit_eof c)) eqn:He.
  - destruct (Hon eq_refl) as [Ha Ht]. split.
    + rewrite Hcnt, Ha, count_eof_replicate. reflexivity.
    + rewrite Hcnt, Ht. destruct (_ =? _); lia.
    + rewrite Ht. destruct (_ =? _); [exact Hmax | unfold Int.INT_MAX; lia].
    + intros _ _. rewrite Hcnt, Ht. destruct (_ =? _); lia.
  - destruct (Hoff eq_refl) as [Ha Ht]. split.
    + rewrite Hcnt, Ha. reflexivity.
    + rewrite Hcnt, Ht. lia.
    + rewrite Ht. unfold Int.INT_MAX. lia.
    + rewrite Hc, He. discriminate.
Qed.

(** The streams open when the consume loop starts. *)
Lemma consumer_begin_opened :
  opened_streams (calls s1) =
    (if partition c =? RD_KAFKA_PARTITION_UA then partitions t else [partition c])
  /\ closed_streams (calls s1) = [].
Proof.
  destruct (consumer_begin_Done _ _ _ _ Hbegin)
    as (_ & _ & _ & _ & sel & -> & HF & Hsel).
  cbn [calls log_calls log_call]. rewrite calls_after_setup.
  cbn [calls initial_state conf app opened_streams closed_streams].
  rewrite closed_streams_start_calls.
  rewrite opened_streams_start_calls by exact HF.
  split; [|reflexivity].
  cbn [conf initial_state] in Hsel.
  destruct Hsel as [[Hua ->] | (Hne & -> & _)].
  - rewrite Hua, Z.eqb_refl. reflexivity.
  - apply Z.eqb_neq in Hne. rewrite Hne. reflexivity.
Qed.

(** Every stream open at the start of the consume loop was started with
    the one offset [conf.offset]. *)
Lemma consumer_begin_start_offsets :
  calls s1 =
    rd_kafka_queue_new ::
    map (fun p => rd_kafka_consume_start_queue p (offset c) (consume_start_ret w p))
      (opened_streams (calls s1)).
Proof.
  destruct (consumer_begin_Done _ _ _ _ Hbegin)
    as (_ & _ & _ & _ & sel & -> & HF & _).
  cbn [calls log_calls log_call]. rewrite calls_after_setup.
  cbn [calls initial_state conf app opened_streams].
  rewrite opened_streams_start_calls by exact HF. reflexivity.
Qed.

(** The stop loop stops every stream that was opened. *)
Lemma wanted_partitions_incl :
  incl (opened_streams (calls s1)) (wanted_partitions c (partitions t)).
Proof.
  pose proof consumer_begin_opened as [Hop _].
  destruct (consumer_begin_Done _ _ _ _ Hbegin)
    as (_ & _ & _ & _ & sel & _ & _ & Hsel).
  cbn [conf initial_state] in Hsel. rewrite Hop.
  intros p Hp. apply List.filter_In.
  destruct Hsel as [[Hua _] | (Hne & _ & Hin)].
  - rewrite Hua, Z.eqb_refl in Hp. split; [exact Hp|].
    rewrite (unwanted_all _ _ Hua). reflexivity.
  - pose proof Hne as Hne'. apply Z.eqb_neq in Hne'. rewrite Hne' in Hp.
    destruct Hp as [<-|[]]. split; [exact Hin|].
    rewrite (unwanted_one _ _ Hne), Z.eqb_refl. reflexivity.
Qed.

End Begun.

Lemma marked_fields p s :
  part_eof_thres (marked p s) = part_eof_thres s /\
  part_eof_cnt (marked p s) = Int.wrap32 (part_eof_cnt s + 1) /\
  run (conf (marked p s)) =
    (if part_eof_thres s <=? Int.wrap32 (part_eof_cnt s + 1)
     then 0 else run (conf s)).
Proof.
  unfold marked. cbn. destruct (_ <=? _); cbn; auto.
Qed.

(** ** The offset argument *)

Lemma strtoll_no_numeric_prefix s :
  numeric_prefix s = false -> Libc.strtoll s = 0.
Proof.
  unfold numeric_prefix, Libc.strtoll.
  assert (Hd : forall ds,
    match ds with
    | String c _ => match Libc.digit c with Some _ => true | None => false end
    | EmptyString => false
    end = false -> Libc.digits_value 0 ds = 0).
  { intros [|c ds]; [reflexivity|]. cbn [Libc.digits_value].
    destruct (Libc.digit c); [discriminate | reflexivity]. }
  destruct (Libc.skip_spaces s) as [|c s'] eqn:Hs.
  - intros _. reflexivity.
  - destruct (Ascii.eqb_spec c "-") as [->|Hm];
      [intros H; rewrite (Hd _ H); reflexivity|].
    destruct (Ascii.eqb_spec c "+") as [->|Hp];
      [intros H; rewrite (Hd _ H); reflexivity|].
    assert (Hsame :
      match String c s' with
      | String "-"%char s'0 => (true, s'0)
      | String "+"%char s'0 => (false, s'0)
      | _ => (false, String c s')
      end = (false, String c s') /\
      match String c s' with
      | String "-"%char s'0 => s'0
      | String "+"%char s'0 => s'0
      | s'0 => s'0
      end = String c s').
    { destruct c as [[] [] [] [] [] [] [] []]; try (split; reflexivity);
        congruence. }
    destruct Hsame as [-> ->]. intros H. rewrite (Hd (String c s') H). reflexivity.
Qed.

Lemma offset_of_optarg_number s :
  s <> "end"%string -> s <> "beginning"%string -> s <> "stored"%string ->
  offset_of_optarg s =
    (if Libc.strtoll s <? 0
     then RD_KAFKA_OFFSET_TAIL (Int.wrap64 (- Libc.strtoll s))
     else Libc.strtoll s).
Proof.
  intros H1 H2 H3. unfold offset_of_optarg.
  apply String.eqb_neq in H1, H2, H3. rewrite H1, H2, H3. reflexivity.
Qed.

Lemma directive_of_absolute v :
  0 <= v -> directive_of_offset v = Some (Absolute v).
Proof.
  intros Hv. unfold directive_of_offset, RD_KAFKA_OFFSET_END,
    RD_KAFKA_OFFSET_BEGINNING, RD_KAFKA_OFFSET_STORED, RD_KAFKA_OFFSET_TAIL_BASE.
  destruct (Z.eqb_spec v (-1)); [lia|].
  destruct (Z.eqb_spec v (-2)); [lia|].
  destruct (Z.eqb_spec v (-1000)); [lia|].
  destruct (Z.leb_spec v (-2000)); [lia|].
  destruct (Z.leb_spec 0 v); [reflexivity | lia].
Qed.

Lemma directive_of_tail v :
  Int.LLONG_MIN + 2000 <= v < 0 ->
  directive_of_offset (RD_KAFKA_OFFSET_TAIL (Int.wrap64 (- v))) =
    Some (TailRelative (- v)).
Proof.
  unfold Int.LLONG_MIN. intros Hv.
  rewrite (wrap64_id (- v))
    by (unfold Int.in_int64, Int.LLONG_MIN, Int.LLONG_MAX; lia).
  unfold RD_KAFKA_OFFSET_TAIL, RD_KAFKA_OFFSET_TAIL_BASE.
  rewrite wrap64_id
    by (unfold Int.in_int64, Int.LLONG_MIN, Int.LLONG_MAX; lia).
  unfold directive_of_offset, RD_KAFKA_OFFSET_END,
    RD_KAFKA_OFFSET_BEGINNING, RD_KAFKA_OFFSET_STORED, RD_KAFKA_OFFSET_TAIL_BASE.
  destruct (Z.eqb_spec (-2000 - - v) (-1)); [lia|].
  destruct (Z.eqb_spec (-2000 - - v) (-2)); [lia|].
  destruct (Z.eqb_spec (-2000 - - v) (-1000)); [lia|].
  destruct (Z.leb_spec (-2000 - - v) (-2000)); [|lia].
  do 2 f_equal. lia.
Qed.

(** ** The consume loop and the stop loop *)

(** The consume loop hands the callback the messages of its batches in
    order: a loop that ends, normally or through [FATAL], ends as the
    callback does on the batches laid end to end. *)
Lemma consume_loop_flat batches s :
  match consume_loop batches s with
  | Done _ s' => consume_callback_queue (concat batches) s = Done tt s'
  | Fatal e s' => consume_callback_queue (concat batches) s = Fatal e s'
  | Polling s' =>
      consume_callback_queue (concat batches) s = Done tt s' /\
      truthy (run (conf s')) = true
  | Undefined => consume_callback_queue (concat batches) s = Undefined
  end.
Proof.
  revert s. induction batches as [|b rest IH]; intros s.
  - cbn [consume_loop concat consume_callback_queue].
    destruct (truthy (run (conf s))) eqn:Hr; cbn [negb];
      [split; [reflexivity | exact Hr] | reflexivity].
  - cbn [consume_loop concat]. rewrite consume_callback_queue_app.
    destruct (truthy (run (conf s))) eqn:Hr; cbn [negb].
    + unfold bind.
      pose proof (consume_callback_queue_ends_later b s) as E.
      destruct (consume_callback_queue b s) as [[] s1|e s1|s1|];
        [apply IH | reflexivity | contradiction | reflexivity].
    + apply truthy_false in Hr.
      rewrite <- consume_callback_queue_app.
      apply consume_callback_queue_stopped, Hr.
Qed.

Lemma consume_loop_ends_later batches s :
  loop_ends_later (consume_loop batches s) s.
Proof.
  revert s. induction batches as [|b rest IH]; intros s.
  - cbn. destruct (truthy (run (conf s))) eqn:Hr; cbn.
    + apply later_refl.
    + split; [apply later_refl | apply truthy_false, Hr].
  - cbn [consume_loop]. destruct (truthy (run (conf s))) eqn:Hr; cbn [negb].
    + unfold bind.
      pose proof (consume_callback_queue_ends_later b s) as Hb.
      destruct (consume_callback_queue b s) as [[] s1|e s1|s1|];
        [|exact Hb|contradiction|exact I].
      cbn in Hb. specialize (IH s1).
      destruct (consume_loop rest s1) as [[] s2|e s2|s2|]; cbn in *;
        try exact I.
      * destruct IH as [IH1 IH2]. split; [eapply later_trans; eassumption | exact IH2].
      * eapply later_trans; eassumption.
      * eapply later_trans; eassumption.
    + split; [apply later_refl | apply truthy_false, Hr].
Qed.

Lemma stop_loop_eq ps s :
  stop_loop ps s = Done tt (log_calls (stop_calls (wanted_partitions (conf s) ps)) s).
Proof.
  revert s. induction ps as [|p rest IH]; intros s.
  - cbn. rewrite log_calls_nil. reflexivity.
  - cbn [stop_loop wanted_partitions List.filter]. unfold bind at 1, gets at 1.
    destruct (unwanted (conf s) p); cbn [negb].
    + apply IH.
    + unfold bind, modify. rewrite IH. cbn [stop_calls map].
      rewrite log_calls_cons. reflexivity.
Qed.

Lemma opened_streams_stop_calls ps : opened_streams (stop_calls ps) = [].
Proof. induction ps as [|p rest IH]; [reflexivity | exact IH]. Qed.

Lemma closed_streams_stop_calls ps : closed_streams (stop_calls ps) = ps.
Proof. induction ps as [|p rest IH]; [reflexivity | cbn; f_equal; exact IH]. Qed.



(** ** Formatting a record *)

Lemma stream_put_ok bs fp :
  f_io fp = [] -> stream_put bs fp = (true, mk_FILE (f_data fp ++ bs) []).
Proof. intros H. unfold stream_put. rewrite H. reflexivity. Qed.

Lemma c_string_no_nul s : has_nul s = false -> c_string s = s.
Proof.
  induction s as [|b s IH]; [reflexivity|].
  cbn [has_nul existsb c_string]. intros H.
  apply orb_false_iff in H as [Hb Hs]. rewrite Hb. f_equal. apply IH, Hs.
Qed.

Lemma format_key_plain key c :
  has_nul key = false -> Z.of_nat (length key) <= Int.INT_MAX ->
  format_key (Int.wrap32 (Z.of_nat (length key))) key c = Some (key ++ [c]).
Proof.
  intros Hn Hl. unfold format_key.
  rewrite wrap32_id by (unfold Int.in_int, Int.INT_MAX in *; lia).
  destruct (Z.ltb_spec (Z.of_nat (length key)) 0); [lia|].
  rewrite Nat2Z.id, firstn_all, (c_string_no_nul _ Hn). reflexivity.
Qed.

(** With every write succeeding, a plain record comes out in the spec's
    format. *)
Lemma print_message_plain m s :
  f_io (stdout s) = [] -> plain_record m ->
  print_message m s =
    Done tt (with_stdout
               (mk_FILE (f_data (stdout s) ++ formatted_record (conf s) m) []) s).
Proof.
  intros Hio (_ & Hpay & Hnul & Hlen).
  unfold print_message, formatted_record, bind at 1, gets at 1.
  unfold bind at 1.
  assert (H1 : exists fp1,
    when (truthy (Z.land (flags (conf s)) CONF_F_OFFSET))
      (bind (on_stdout (fprintf (format_offset (m_offset m) (key_delim (conf s)))))
         (fun _ => ret tt)) s = Done tt (with_stdout fp1 s) /\
    f_io fp1 = [] /\
    f_data fp1 = f_data (stdout s) ++
      (if truthy (Z.land (flags (conf s)) CONF_F_OFFSET)
       then list_byte_of_string (NilZero.string_of_int (Z.to_int (m_offset m)))
            ++ [key_delim (conf s)]
       else [])).
  { destruct (truthy (Z.land (flags (conf s)) CONF_F_OFFSET)); cbn [when].
    - unfold bind, on_stdout, fprintf. rewrite (stream_put_ok _ _ Hio).
      eexists. split; [reflexivity|]. split; reflexivity.
    - exists (stdout s). rewrite with_stdout_same, app_nil_r. repeat split.
      exact Hio. }
  destruct H1 as (fp1 & -> & Hio1 & Hd1).
  unfold bind at 1.
  assert (H2 : exists fp2,
    when (truthy (Z.land (flags (conf s)) CONF_F_KEY_DELIM))
      (match format_key (Int.wrap32 (key_len m)) (m_key m) (key_delim (conf s)) with
       | Some bs => bind (on_stdout (fprintf bs)) (fun _ => ret tt)
       | None => undefined
       end) (with_stdout fp1 s) = Done tt (with_stdout fp2 s) /\
    f_io fp2 = [] /\
    f_data fp2 = f_data fp1 ++
      (if truthy (Z.land (flags (conf s)) CONF_F_KEY_DELIM)
       then m_key m ++ [key_delim (conf s)]
       else [])).
  { destruct (truthy (Z.land (flags (conf s)) CONF_F_KEY_DELIM)); cbn [when].
    - unfold key_len. rewrite (format_key_plain _ _ Hnul Hlen).
      unfold bind, on_stdout, fprintf. cbn [stdout with_stdout].
      rewrite (stream_put_ok _ _ Hio1).
      eexists. split; [reflexivity|]. split; reflexivity.
    - exists fp1. rewrite app_nil_r. repeat split. exact Hio1. }
  destruct H2 as (fp2 & -> & Hio2 & Hd2).
  unfold bind at 1. unfold on_stdout at 1, fwrite at 1. cbn [stdout with_stdout].
  destruct (m_payload m) as [|b pay] eqn:Hp; [contradiction|].
  cbn [length Nat.eqb]. rewrite (stream_put_ok _ _ Hio2).
  cbv beta iota zeta. rewrite Z.eqb_refl. cbn [negb].
  unfold bind, on_stdout, fwrite. cbn [stdout with_stdout length Nat.eqb].
  rewrite stream_put_ok by reflexivity.
  cbv beta iota zeta. rewrite Z.eqb_refl. cbn [negb f_data].
  unfold ret. f_equal. unfold with_stdout. cbn. f_equal. f_equal.
  rewrite Hd2, Hd1, <- !app_assoc. reflexivity.
Qed.

(** ** The message-count limit *)

Lemma consume_cb_plain m s :
  truthy (run (conf s)) = true -> f_io (stdout s) = [] -> plain_record m ->
  consume_cb m s =
    Done tt (counted (with_stdout
      (mk_FILE (f_data (stdout s) ++ formatted_record (conf s) m) []) s)).
Proof.
  intros Hrun Hio Hm. rewrite consume_cb_running by exact Hrun.
  destruct Hm as (He & Hrest). rewrite He. cbn [truthy Z.eqb negb].
  rewrite print_then_count, print_message_plain;
    [reflexivity | exact Hio | repeat split; tauto].
Qed.

(** A data record taken while the run is on is counted exactly once if
    the callback gets through its checked writes, and the run flag goes
    down exactly if the counter then equals the limit; if a checked
    write fails the process leaves with the write error, the record not
    counted. *)
Lemma consume_cb_data_counts m s :
  m_err m = 0 -> truthy (run (conf s)) = true ->
  match consume_cb m s with
  | Done _ s' =>
      stats_rx s' = Int.wrapu64 (stats_rx s + 1) /\
      (run (conf s') = 0 <-> stats_rx s' = Int.wrapu64 (msg_cnt (conf s)))
  | Fatal e s' =>
      e = Write_error (len m) (m_offset m) /\
      stats_rx s' = stats_rx s /\ conf s' = conf s
  | Polling _ => False
  | Undefined => True
  end.
Proof.
  intros He Hrun. rewrite consume_cb_running by exact Hrun.
  rewrite He. cbn [truthy Z.eqb negb]. rewrite print_then_count.
  pose proof (print_message_stdout_only m s) as Hp.
  pose proof (print_message_fails_with m s) as Hf.
  destruct (print_message m s) as [[] s1|e s1|s1|]; try exact Hp.
  - destruct Hp as [fp ->]. unfold counted.
    cbn [stats_rx with_stats_rx with_stdout conf].
    destruct (Z.eqb_spec (Int.wrapu64 (stats_rx s + 1))
                (Int.wrapu64 (msg_cnt (conf s)))) as [Heq|Hne];
      cbn [stats_rx with_conf with_stats_rx conf set_run run].
    + split; [reflexivity|]. split; [intros _; exact Heq | reflexivity].
    + split; [reflexivity|]. split; [|contradiction].
      intros H0. apply truthy_true in Hrun. contradiction.
  - destruct Hp as [fp ->]. split; [exact (Hf _ _ eq_refl)|].
    split; reflexivity.
Qed.

Lemma formatted_record_set_run v c m :
  formatted_record (set_run v c) m = formatted_record c m.
Proof. reflexivity. Qed.

(** While every write succeeds, plain records are emitted one by one in
    the spec's format, each counted once, until [stats.rx] gets to the
    limit; that record brings the run flag down and the rest is
    dropped. *)
Lemma consume_plain_records msgs :
  forall s,
    truthy (run (conf s)) = true ->
    f_io (stdout s) = [] ->
    Forall plain_record msgs ->
    0 <= stats_rx s < msg_cnt (conf s) ->
    msg_cnt (conf s) <= Int.LLONG_MAX ->
    exists s',
      consume_callback_queue msgs s = Done tt s' /\
      f_data (stdout s') =
        f_data (stdout s) ++
        concat (map (formatted_record (conf s))
                  (take (Z.to_nat (msg_cnt (conf s) - stats_rx s)) msgs)) /\
      stats_rx s' =
        Z.min (msg_cnt (conf s)) (stats_rx s + Z.of_nat (length msgs)) /\
      (run (conf s') = 0 <->
       msg_cnt (conf s) <= stats_rx s + Z.of_nat (length msgs)).
Proof.
  induction msgs as [|m rest IH]; intros s Hrun Hio Hall Hrx Hmax.
  - exists s. cbn [consume_callback_queue length]. unfold ret.
    rewrite firstn_nil. cbn [map concat]. rewrite app_nil_r.
    repeat split; try lia.
    intros H0. apply truthy_true in Hrun. contradiction.
  - apply Forall_cons in Hall as [Hm Hrest].
    cbn [consume_callback_queue]. unfold bind.
    rewrite (consume_cb_plain m s Hrun Hio Hm).
    set (s1 := with_stdout
                 (mk_FILE (f_data (stdout s) ++ formatted_record (conf s) m) []) s).
    assert (Hw : Int.wrapu64 (stats_rx s + 1) = stats_rx s + 1).
    { apply wrapu64_id. unfold Int.LLONG_MAX in Hmax. lia. }
    assert (Hwm : Int.wrapu64 (msg_cnt (conf s)) = msg_cnt (conf s)).
    { apply wrapu64_id. unfold Int.LLONG_MAX in Hmax. lia. }
    assert (Htake : take (Z.to_nat (msg_cnt (conf s) - stats_rx s)) (m :: rest) =
                    m :: take (Z.to_nat (msg_cnt (conf s) - (stats_rx s + 1))) rest).
    { replace (Z.to_nat (msg_cnt (conf s) - stats_rx s))
        with (S (Z.to_nat (msg_cnt (conf s) - (stats_rx s + 1)))) by lia.
      reflexivity. }
    rewrite Htake. cbn [map concat length].
    unfold counted. cbn [stats_rx with_stats_rx conf s1 with_stdout].
    rewrite Hw, Hwm.
    destruct (Z.eqb_spec (stats_rx s + 1) (msg_cnt (conf s))) as [Heq|Hne].
    + eexists. split.
      { apply consume_callback_queue_stopped. reflexivity. }
      cbn [stdout with_conf with_stats_rx stats_rx conf f_data].
      replace (msg_cnt (conf s) - (stats_rx s + 1)) with 0 by lia.
      cbn [Z.to_nat]. rewrite firstn_O. cbn [map concat]. rewrite app_nil_r.
      repeat split; try reflexivity; try lia.
    + destruct (IH (with_stats_rx (stats_rx s + 1) s1)) as (s' & Hq & Hout & Hcnt & Hstop).
      * exact Hrun.
      * reflexivity.
      * exact Hrest.
      * cbn [stats_rx with_stats_rx conf s1 with_stdout]. lia.
      * exact Hmax.
      * exists s'. split; [exact Hq|].
        cbn [stats_rx with_stats_rx conf s1 with_stdout stdout f_data] in Hout, Hcnt, Hstop.
        split; [rewrite Hout, <- app_assoc; reflexivity|].
        split; [rewrite Hcnt; f_equal; lia|].
        rewrite Hstop. lia.
Qed.

(** ** The scenarios of section 8 of the spec, run *)

(** Three partitions, no partition filter, exit-on-EOF: the run ends
    once all three partitions have reported their end, in whatever order
    and however often; with two of them it keeps polling. *)
Example scenario_all_partitions_eof :
  exit_status
    (consumer_main
       (world3 [[eof_message 2 9; eof_message 0 4]; [eof_message 2 9];
                [eof_message 1 7]])
       (initial_state (set_exit_eof 1 conf0) [])) = Some 0 /\
  exit_status
    (consumer_main (world3 [[eof_message 2 9; eof_message 0 4]; [eof_message 2 9]])
       (initial_state (set_exit_eof 1 conf0) [])) = None.
Proof. split; vm_compute; reflexivity. Qed.

(** Three partitions, [-p 1], exit-on-EOF: only partition 1 is opened,
    and its first end-of-partition ends the run. *)
Example scenario_one_partition_eof :
  match consumer_main (world3 [[data_message 1 3 "k" "v"; eof_message 1 4]])
          (initial_state (set_partition 1 (set_exit_eof 1 conf0)) []) with
  | Done code s' =>
      code = 0 /\ opened_streams (calls s') = [1] /\
      closed_streams (calls s') = [1] /\ part_eof_cnt s' = 1 /\
      part_eof_thres s' = 1
  | _ => False
  end.
Proof. vm_compute. repeat split. Qed.

(** A limit of five and seven data records in two batches: five records
    come out, the last two are dropped. *)
Example scenario_limit_five :
  let m := fun o => data_message 0 o "k" "v" in
  match consumer_main (world3 [[m 1; m 2; m 3]; [m 4; m 5; m 6; m 7]])
          (initial_state (set_msg_cnt 5 conf0) []) with
  | Done code s' =>
      stats_rx s' = 5 /\
      f_data (stdout s') = concat (map (formatted_record conf0) [m 1; m 2; m 3; m 4; m 5])
  | _ => False
  end.
Proof. vm_compute. repeat split. Qed.

(** The offset arguments of section 8. *)
Example offset_arguments :
  map (fun a => directive_of_offset (offset_of_optarg a))
    ["end"; "beginning"; "stored"; "100"; "-5"; "abc"]%string =
  [Some Latest; Some Earliest; Some Stored; Some (Absolute 100);
   Some (TailRelative 5); Some (Absolute 0)].
Proof. vm_compute. reflexivity. Qed.

(** * The claims *)

(** C1.  With exit-on-EOF enabled, in any state a run reaches while it
    is still running, an end-of-partition message brings the run flag
    down exactly when the count of partitions at EOF, which it has just
    brought up to date, is at or above the threshold; the threshold is 1
    when [-p] selected a partition and the topic's number of partitions
    otherwise. *)
Theorem eof_tracker_stops_at_threshold
    (w : world) (c : conf_t) (io : list io_result)
    (t : rd_kafka_metadata_topic) (s1 s2 : state)
    (msgs : list rd_kafka_message_t) (m : rd_kafka_message_t) :
  truthy (exit_eof c) = true ->
  partition_cnt t <= Int.INT_MAX ->
  consumer_begin w (initial_state c io) = Done t s1 ->
  consume_callback_queue msgs s1 = Done tt s2 ->
  truthy (run (conf s2)) = true ->
  m_err m = RD_KAFKA_RESP_ERR__PARTITION_EOF ->
  0 <= m_partition m < partition_cnt t ->
  exists s3,
    consume_cb m s2 = Done tt s3 /\
    part_eof_thres s3 =
      (if partition c =? RD_KAFKA_PARTITION_UA then partition_cnt t else 1) /\
    part_eof_cnt s3 = count_eof (part_eof s3) /\
    part_eof_cnt s3 =
      part_eof_cnt s2 + (if at_eof s2 (m_partition m) then 0 else 1) /\
    (run (conf s3) = 0 <-> part_eof_thres s3 <= part_eof_cnt s3).
Proof.
  intros Hexit Hmax Hbegin Hmsgs Hrun Herr Hp.
  pose proof (consumer_begin_globals _ _ _ _ _ Hbegin) as (Hc & _ & _ & _ & Hon & _).
  destruct (Hon Hexit) as [Ha Ht].
  pose proof (consumer_begin_eof_inv _ _ _ _ _ Hbegin Hmax) as Hinv1.
  pose proof (consume_callback_queue_eof_inv _ _ _ Hinv1 Hmsgs) as Hinv2.
  pose proof (consume_callback_queue_later _ _ _ Hmsgs) as Hl.
  pose proof (later_static _ _ Hl) as (He & _).
  assert (Hlen : Z.of_nat (length (part_eof s2)) = partition_cnt t).
  { rewrite (later_length _ _ Hl), Ha, length_replicate.
    unfold partition_cnt. lia. }
  assert (Hb : in_bounds (part_eof s2) (m_partition m) = true).
  { unfold in_bounds. rewrite Hlen. apply andb_true_iff.
    split; [apply Z.leb_le | apply Z.ltb_lt]; lia. }
  assert (Ht2 : part_eof_thres s2 =
                (if partition c =? RD_KAFKA_PARTITION_UA then partition_cnt t else 1)).
  { rewrite (later_thres _ _ Hl). exact Ht. }
  assert (He2 : truthy (exit_eof (conf s2)) = true).
  { rewrite He, Hc. exact Hexit. }
  rewrite consume_cb_running by exact Hrun.
  rewrite Herr. change (truthy RD_KAFKA_RESP_ERR__PARTITION_EOF) with true.
  rewrite Z.eqb_refl, He2. cbv iota.
  destruct (in_bounds_lookup _ _ Hb) as [v Hv].
  rewrite (mark_eof_eq _ v) by assumption.
  assert (Hat : at_eof s2 (m_partition m) = truthy v).
  { unfold at_eof. rewrite Hb, Hv. reflexivity. }
  rewrite Hat.
  destruct (truthy v) eqn:Hz.
  - exists s2. repeat split; try assumption.
    + apply (inv_count _ Hinv2).
    + lia.
    + intros H0. apply truthy_true in Hrun. contradiction.
    + intros Hle. pose proof (inv_running _ Hinv2 Hrun He2). lia.
  - exists (marked (m_partition m) s2).
    destruct (eof_inv_marked (m_partition m) s2 Hinv2 Hrun He2 Hb) as [Hinv3 Hcnt].
    { right. exists v. split; assumption. }
    destruct (marked_fields (m_partition m) s2) as (Hth & Hw & Hr).
    rewrite Hth, Hcnt. repeat split; try assumption.
    + rewrite <- Hcnt. apply (inv_count _ Hinv3).
    + rewrite Hr, <- Hw, Hcnt.
      destruct (Z.leb_spec (part_eof_thres s2) (part_eof_cnt s2 + 1)); [lia|].
      intros H0. apply truthy_true in Hrun. contradiction.
    + rewrite Hr, <- Hw, Hcnt.
      destruct (Z.leb_spec (part_eof_thres s2) (part_eof_cnt s2 + 1)); [reflexivity|].
      lia.
Qed.

Lemma eof_tracker_stops_at_threshold_witness :
  exists s3,
    consume_cb (eof_message 2 3)
      (state_after (world3 []) (set_exit_eof 1 conf0) []
         [eof_message 0 5; eof_message 1 9]) = Done tt s3 /\
    part_eof_thres s3 = 3 /\
    (run (conf s3) = 0 <-> part_eof_thres s3 <= part_eof_cnt s3).
Proof.
  destruct (eof_tracker_stops_at_threshold
              (world3 []) (set_exit_eof 1 conf0) [] topic3
              (state_after (world3 []) (set_exit_eof 1 conf0) [] [])
              (state_after (world3 []) (set_exit_eof 1 conf0) []
                 [eof_message 0 5; eof_message 1 9])
              [eof_message 0 5; eof_message 1 9] (eof_message 2 3))
    as (s3 & H1 & H2 & _ & _ & H5).
  - reflexivity.
  - vm_compute. discriminate.
  - vm_compute. reflexivity.
  - vm_compute. reflexivity.
  - reflexivity.
  - reflexivity.
  - vm_compute. split; [discriminate | reflexivity].
  - exists s3. split; [exact H1|]. split; [exact H2 | exact H5].
Defined.

(** C2.  Along every sequence of consumed records, the flag of a
    partition in [part_eof] goes from unset to set at most once and,
    once set, stays set in every later state; and the count of
    partitions at EOF never exceeds the number of partitions whose
    streams were opened (the selected partition set). *)
Theorem eof_flag_set_once_count_bounded
    (w : world) (c : conf_t) (io : list io_result)
    (t : rd_kafka_metadata_topic) (s1 : state)
    (msgs : list rd_kafka_message_t) (p : Z) :
  consumer_begin w (initial_state c io) = Done t s1 ->
  partition_cnt t <= Int.INT_MAX ->
  (rises p (states_of msgs s1) <= 1)%nat /\
  (forall (i j : nat) si sj,
      (i <= j)%nat ->
      states_of msgs s1 !! i = Some si ->
      states_of msgs s1 !! j = Some sj ->
      at_eof si p = true -> at_eof sj p = true) /\
  Forall (fun s => part_eof_cnt s <= Z.of_nat (length (opened_streams (calls s1))))
    (states_of msgs s1) /\
  opened_streams (calls s1) =
    (if partition c =? RD_KAFKA_PARTITION_UA then partitions t else [partition c]).
Proof.
  intros Hbegin Hmax.
  split; [|split; [|split; [|apply (consumer_begin_opened _ _ _ _ _ Hbegin)]]].
  - apply rises_at_most_once.
  - intros i j si sj Hij Hi Hj.
    apply (later_at_eof _ _ (states_of_ordered _ _ _ _ _ _ Hij Hi Hj)).
  - pose proof (consumer_begin_eof_inv _ _ _ _ _ Hbegin Hmax) as Hinv1.
    pose proof (consumer_begin_globals _ _ _ _ _ Hbegin)
      as (Hc & _ & _ & _ & Hon & Hoff).
    pose proof (consumer_begin_opened _ _ _ _ _ Hbegin) as [Hop _].
    pose proof (consumer_begin_Done _ _ _ _ Hbegin) as (_ & _ & _ & Hne & _).
    eapply Forall_impl; [apply (states_of_all msgs s1 Hinv1)|].
    intros s [Hinv Hl]. cbv beta.
    pose proof (inv_le _ Hinv) as Hle. rewrite (later_thres _ _ Hl) in Hle.
    rewrite Hop.
    destruct (truthy (exit_eof c)) eqn:He.
    + destruct (Hon eq_refl) as [_ Ht]. rewrite Ht in Hle.
      destruct (partition c =? RD_KAFKA_PARTITION_UA); [exact Hle | cbn; lia].
    + destruct (Hoff eq_refl) as [_ Ht]. rewrite Ht in Hle. lia.
Qed.

Lemma eof_flag_set_once_count_bounded_witness :
  (rises 1 (states_of [eof_message 1 4; eof_message 1 4; eof_message 0 2]
              (state_after (world3 []) (set_exit_eof 1 conf0) [] [])) <= 1)%nat.
Proof.
  refine (proj1 (eof_flag_set_once_count_bounded
                   (world3 []) (set_exit_eof 1 conf0) [] topic3
                   (state_after (world3 []) (set_exit_eof 1 conf0) [] [])
                   [eof_message 1 4; eof_message 1 4; eof_message 0 2] 1 _ _)).
  - vm_compute. reflexivity.
  - vm_compute. discriminate.
Defined.

(** C3.  With the limit at 2 and a stream of data records whose second
    record has an empty payload, the run does not emit two records: it
    leaves through [FATAL] at the second, one record emitted and
    counted. *)
Lemma limit_not_reached_on_empty_payload :
  let c := set_msg_cnt 2 conf0 in
  match consumer_main
          (world3 [[data_message 0 10 EmptyString "a"; data_message 0 11 EmptyString EmptyString;
                    data_message 0 12 EmptyString "c"]])
          (initial_state c []) with
  | Fatal e s' =>
      e = Write_error 0 11 /\
      stats_rx s' = 1 /\
      f_data (stdout s') = formatted_record c (data_message 0 10 EmptyString "a")
  | _ => False
  end.
Proof. vm_compute. repeat split. Qed.

(** C4.  The code does not produce the spec's format for every data
    record.  A record with an empty payload is taken for a write error
    ([fwrite] of zero bytes returns 0): the process leaves through
    [FATAL] after the offset and key fields, the record delimiter never
    written.  And a key is cut at its first NUL byte, being printed with
    [%s]. *)
Lemma empty_payload_breaks_record_format :
  let c := set_flags (Z.lor CONF_F_OFFSET CONF_F_KEY_DELIM) conf0 in
  match consume_cb (data_message 1 42 "key" EmptyString) (initial_state c []) with
  | Fatal e s' =>
      e = Write_error 0 42 /\
      formatted_record c (data_message 1 42 "key" EmptyString) =
        f_data (stdout s') ++ [Byte.x0a]
  | _ => False
  end /\
  match consume_cb (mk_message 0 1 42 [Byte.x61; Byte.x00; Byte.x62] [Byte.x76])
          (initial_state c []) with
  | Done _ s' =>
      f_data (stdout s') =
        [Byte.x34; Byte.x32; Byte.x09; Byte.x61; Byte.x09; Byte.x76; Byte.x0a] /\
      formatted_record c (mk_message 0 1 42 [Byte.x61; Byte.x00; Byte.x62] [Byte.x76]) =
        [Byte.x34; Byte.x32; Byte.x09; Byte.x61; Byte.x00; Byte.x62; Byte.x09;
         Byte.x76; Byte.x0a]
  | _ => False
  end.
Proof. vm_compute. repeat split. Qed.




(** C6.  A failed write of the offset field or of the key field is not
    fatal: the results of the two [fprintf] calls are not looked at, the
    callback writes the payload and the delimiter, counts the record and
    the run goes on.  Only a failed write of the payload or of the
    record delimiter leaves through [FATAL]. *)
Lemma field_write_failure_not_fatal :
  match consume_cb (data_message 1 42 "key" "v")
          (initial_state (set_flags CONF_F_OFFSET conf0) [IO_short 0]) with
  | Done _ s' =>
      f_data (stdout s') = [Byte.x76; Byte.x0a] /\
      stats_rx s' = 1 /\ run (conf s') = 1
  | _ => False
  end /\
  match consume_cb (data_message 1 42 "key" "v")
          (initial_state (set_flags CONF_F_KEY_DELIM conf0) [IO_short 1]) with
  | Done _ s' =>
      f_data (stdout s') = [Byte.x6b; Byte.x76; Byte.x0a] /\
      stats_rx s' = 1 /\ run (conf s') = 1
  | _ => False
  end /\
  consume_cb (data_message 1 42 "key" "v") (initial_state conf0 [IO_short 0]) =
    Fatal (Write_error 1 42)
      (with_stdout (mk_FILE [] []) (initial_state conf0 [IO_short 0])) /\
  consume_cb (data_message 1 42 "key" "v") (initial_state conf0 [IO_ok; IO_short 0]) =
    Fatal (Write_error 1 42)
      (with_stdout (mk_FILE [Byte.x76] []) (initial_state conf0 [IO_ok; IO_short 0])).
Proof. vm_compute. repeat split. Qed.



(** C8.  When the metadata query itself succeeds, the run fails with
    "No such topic in cluster" (TopicNotFound) if the reply lists no
    topic; else with "Topic ... error" (TopicError) if the topic carries
    an error code; else with "Topic ... has no partitions"
    (NoPartitions) if it lists no partition; else, if [-p] named a
    partition that is not among the listed ids, with "partition ... does
    not exist" (PartitionNotFound), reporting [partition_cnt - 1] as the
    upper end of the valid range and without having opened a stream;
    otherwise, the streams starting, it goes on with the topic's
    partition set. *)
Theorem metadata_resolution_outcomes (w : world) (s : state) :
  metadata_err w = 0 ->
  match topics (metadata w) with
  | [] => consumer_begin w s = Fatal No_such_topic_in_cluster s
  | t :: _ =>
      (t_err t <> 0 -> consumer_begin w s = Fatal (Topic_error (t_err t)) s) /\
      (t_err t = 0 -> partitions t = [] ->
       consumer_begin w s = Fatal Topic_has_no_partitions s) /\
      (t_err t = 0 -> partitions t <> [] ->
       partition (conf s) <> RD_KAFKA_PARTITION_UA ->
       ~ In (partition (conf s)) (partitions t) ->
       exists s',
         consumer_begin w s =
           Fatal (Partition_does_not_exist (partition_cnt t - 1)
                    (partition (conf s))) s' /\
         opened_streams (calls s') = opened_streams (calls s)) /\
      (t_err t = 0 -> partitions t <> [] ->
       partition (conf s) = RD_KAFKA_PARTITION_UA \/
         In (partition (conf s)) (partitions t) ->
       (forall p, In p (partitions t) -> consume_start_ret w p <> -1) ->
       exists s', consumer_begin w s = Done t s' /\
         opened_streams (calls s') =
           opened_streams (calls s) ++
           (if partition (conf s) =? RD_KAFKA_PARTITION_UA
            then partitions t else [partition (conf s)]))
  end.
Proof.
  intros Hq. rewrite consumer_begin_eq. unfold begin_outcome.
  apply truthy_false in Hq. rewrite Hq.
  destruct (topics (metadata w)) as [|t rest]; [reflexivity|].
  assert (Hcnt : forall l : list Z, l <> [] -> (Z.of_nat (length l) =? 0) = false).
  { intros [|x l] Hl; [contradiction | reflexivity]. }
  split; [|split; [|split]].
  - intros He. apply truthy_true in He. rewrite He. reflexivity.
  - intros He Hps. apply truthy_false in He. rewrite He.
    unfold partition_cnt. rewrite Hps. reflexivity.
  - intros He Hps Hsel Hnin. apply truthy_false in He. rewrite He.
    unfold partition_cnt at 1. rewrite (Hcnt _ Hps). cbv zeta.
    apply Z.eqb_neq in Hsel. rewrite Hsel.
    apply index_of_None in Hnin. rewrite Hnin.
    eexists. split; [reflexivity|].
    cbn [calls log_call]. rewrite calls_after_setup, opened_streams_app.
    cbn. apply app_nil_r.
  - intros He Hps Hsel Hok. apply truthy_false in He. rewrite He.
    unfold partition_cnt at 1. rewrite (Hcnt _ Hps). cbv zeta.
    destruct (Z.eqb_spec (partition (conf s)) RD_KAFKA_PARTITION_UA) as [Hua|Hne].
    + rewrite start_attempts_ok by (apply List.Forall_forall; exact Hok).
      eexists. split; [reflexivity|].
      cbn [calls log_calls log_call].
      rewrite calls_after_setup, !opened_streams_app. cbn [opened_streams].
      rewrite app_nil_r, opened_streams_start_calls
        by (apply List.Forall_forall; exact Hok).
      reflexivity.
    + destruct Hsel as [Hua|Hin]; [contradiction|].
      destruct (index_of (partition (conf s)) (partitions t)) as [k|] eqn:Hidx.
      * pose proof (Hok _ Hin) as Hr. apply Z.eqb_neq in Hr. rewrite Hr.
        eexists. split; [reflexivity|].
        cbn [calls log_calls log_call].
        rewrite calls_after_setup, !opened_streams_app. cbn [opened_streams].
        rewrite app_nil_r. cbn [start_calls map opened_streams].
        rewrite Hr. reflexivity.
      * apply index_of_None in Hidx. contradiction.
Qed.

Lemma metadata_resolution_outcomes_witness :
  exists s',
    consumer_begin (mk_world 0 (mk_metadata [topic3]) (fun _ => 0) [])
      (initial_state (set_partition 7 conf0) []) =
      Fatal (Partition_does_not_exist 2 7) s' /\
    opened_streams (calls s') = [].
Proof.
  refine (proj1 (proj2 (proj2
    (metadata_resolution_outcomes
       (mk_world 0 (mk_metadata [topic3]) (fun _ => 0) [])
       (initial_state (set_partition 7 conf0) []) eq_refl))) _ _ _ _).
  - reflexivity.
  - discriminate.
  - vm_compute. discriminate.
  - vm_compute. intuition discriminate.
Defined.

(** C9, as the spec states it, fails: ["-9223372036854775807"] parses to
    a negative 64-bit integer, and the offset made from it is not the
    tail offset of its negation but a positive, absolute one, the tail
    encoding having wrapped around. *)
Lemma tail_offset_wraps_around :
  Libc.strtoll "-9223372036854775807" = -9223372036854775807 /\
  directive_of_offset (offset_of_optarg "-9223372036854775807") =
    Some (Absolute 9223372036854773809) /\
  directive_of_offset (offset_of_optarg "-9223372036854775807") <>
    Some (TailRelative 9223372036854775807).
Proof.
  split; [vm_compute; reflexivity|].
  split; [vm_compute; reflexivity|].
  vm_compute. discriminate.
Qed.

(** C9, amended.  The [-o] case maps "end" to the latest offset,
    "beginning" to the earliest and "stored" to the stored one; any
    other argument goes through [strtoll], a value [v >= 0] giving the
    absolute offset [v] and a value [v < 0] giving the tail offset
    [- v] as long as [v >= LLONG_MIN + 2000], that is, as long as the
    tail encoding [-2000 + v] fits 64 bits; and every stream opened is
    started with that one offset. *)
Theorem offset_resolution_in_range
    (optarg : string) (w : world) (c : conf_t) (io : list io_result)
    (t : rd_kafka_metadata_topic) (s1 : state) :
  optarg <> "end"%string -> optarg <> "beginning"%string ->
  optarg <> "stored"%string ->
  consumer_begin w (initial_state (set_offset (offset_of_optarg optarg) c) io)
    = Done t s1 ->
  directive_of_offset (offset_of_optarg "end") = Some Latest /\
  directive_of_offset (offset_of_optarg "beginning") = Some Earliest /\
  directive_of_offset (offset_of_optarg "stored") = Some Stored /\
  (0 <= Libc.strtoll optarg ->
   directive_of_offset (offset_of_optarg optarg) =
     Some (Absolute (Libc.strtoll optarg))) /\
  (Int.LLONG_MIN + 2000 <= Libc.strtoll optarg < 0 ->
   directive_of_offset (offset_of_optarg optarg) =
     Some (TailRelative (- Libc.strtoll optarg))) /\
  calls s1 =
    rd_kafka_queue_new ::
    map (fun p => rd_kafka_consume_start_queue p (offset_of_optarg optarg)
                    (consume_start_ret w p))
      (opened_streams (calls s1)).
Proof.
  intros H1 H2 H3 Hbegin.
  split; [reflexivity|]. split; [reflexivity|]. split; [reflexivity|].
  rewrite (offset_of_optarg_number _ H1 H2 H3).
  split; [|split].
  - intros Hv. destruct (Z.ltb_spec (Libc.strtoll optarg) 0); [lia|].
    apply directive_of_absolute, Hv.
  - intros Hv. destruct (Z.ltb_spec (Libc.strtoll optarg) 0); [|lia].
    apply directive_of_tail, Hv.
  - rewrite <- (offset_of_optarg_number _ H1 H2 H3).
    apply (consumer_begin_start_offsets _ _ _ _ _ Hbegin).
Qed.

Lemma offset_resolution_in_range_witness :
  directive_of_offset (offset_of_optarg "-5") = Some (TailRelative 5) /\
  calls (state_after (world3 []) (set_offset (offset_of_optarg "-5") conf0) [] [])
  = [rd_kafka_queue_new;
     rd_kafka_consume_start_queue 0 (-2005) 0;
     rd_kafka_consume_start_queue 1 (-2005) 0;
     rd_kafka_consume_start_queue 2 (-2005) 0].
Proof.
  destruct (offset_resolution_in_range "-5" (world3 []) conf0 [] topic3
              (state_after (world3 [])
                 (set_offset (offset_of_optarg "-5") conf0) [] []))
    as (_ & _ & _ & _ & Htail & Hcalls).
  - discriminate.
  - discriminate.
  - discriminate.
  - vm_compute. reflexivity.
  - split.
    + apply Htail. vm_compute. split; [discriminate | reflexivity].
    + rewrite Hcalls. vm_compute. reflexivity.
Defined.

(** C10.  Once the run flag is down, the callback returns at once: a
    record delivered then, whatever its kind, leaves the output, the
    counter [stats.rx] and the end-of-partition state as they were, and
    so does every remaining record of the batch in which the flag went
    down. *)
Theorem stopped_run_drops_records
    (s : state) (m : rd_kafka_message_t) (batch : list rd_kafka_message_t) :
  run (conf s) = 0 ->
  consume_cb m s = Done tt s /\
  consume_callback_queue batch s = Done tt s /\
  forall pre s0,
    consume_callback_queue pre s0 = Done tt s ->
    consume_callback_queue (pre ++ batch) s0 = Done tt s.
Proof.
  intros Hrun. split; [|split].
  - apply consume_cb_stopped, Hrun.
  - apply consume_callback_queue_stopped, Hrun.
  - intros pre s0 Hpre. rewrite consume_callback_queue_app.
    rewrite (bind_Done _ _ _ _ _ Hpre).
    apply consume_callback_queue_stopped, Hrun.
Qed.

Lemma stopped_run_drops_records_witness :
  let s := with_conf (set_run 0) (initial_state conf0 []) in
  consume_cb (data_message 0 7 "k" "v") s = Done tt s.
Proof.
  intros s.
  exact (proj1 (stopped_run_drops_records s (data_message 0 7 "k" "v") []
                  eq_refl)).
Defined.

(** * Further properties of the code *)

(** ** Offsets printed and parsed *)

(** One decimal digit taken by [digits_value]. *)
Ltac take_digit :=
  cbn [Libc.digits_value];
  match goal with
  | |- context [Libc.digit ?c] =>
      let v := eval vm_compute in (Libc.digit c) in
      change (Libc.digit c) with v
  end;
  cbv iota.

Lemma digits_value_uint_acc d acc tail :
  no_digit_ahead tail ->
  Libc.digits_value (Zpos acc) (NilEmpty.string_of_uint d ++ tail) =
    Zpos (Pos.of_uint_acc d acc).
Proof.
  intros Htail. revert acc.
  induction d as [|d IH|d IH|d IH|d IH|d IH|d IH|d IH|d IH|d IH|d IH];
    intros acc; cbn [NilEmpty.string_of_uint String.append Pos.of_uint_acc];
    try (take_digit; rewrite <- IH; f_equal; lia).
  destruct tail as [|c tail']; [reflexivity|].
  cbn [Libc.digits_value]. cbn in Htail. rewrite Htail. reflexivity.
Qed.

Lemma digits_value_uint d tail :
  no_digit_ahead tail ->
  Libc.digits_value 0 (NilEmpty.string_of_uint d ++ tail) = Z.of_N (Pos.of_uint d).
Proof.
  intros Htail.
  induction d as [|d IH|d IH|d IH|d IH|d IH|d IH|d IH|d IH|d IH|d IH];
    cbn [NilEmpty.string_of_uint String.append Pos.of_uint];
    try (take_digit; cbn [Z.mul Z.add Z.of_N];
         apply (digits_value_uint_acc d _ tail Htail)).
  - destruct tail as [|c tail']; [reflexivity|].
    cbn [Libc.digits_value]. cbn in Htail. rewrite Htail. reflexivity.
  - take_digit. exact IH.
Qed.

Lemma strtoll_digit_first c s k :
  Libc.digit c = Some k ->
  Libc.strtoll (String c s) =
    Libc.clamp Int.LLONG_MIN Int.LLONG_MAX (Libc.digits_value 0 (String c s)).
Proof.
  intros Hd. unfold Libc.strtoll.
  assert (Hsp : Libc.skip_spaces (String c s) = String c s).
  { cbn [Libc.skip_spaces].
    destruct c as [[] [] [] [] [] [] [] []]; try reflexivity;
      vm_compute in Hd; discriminate. }
  rewrite Hsp.
  destruct c as [[] [] [] [] [] [] [] []]; try reflexivity;
    vm_compute in Hd; discriminate.
Qed.

Lemma strtoll_minus s :
  Libc.strtoll (String "-" s) =
    Libc.clamp Int.LLONG_MIN Int.LLONG_MAX (- Libc.digits_value 0 s).
Proof. reflexivity. Qed.

Lemma clamp_id z :
  Int.in_int64 z -> Libc.clamp Int.LLONG_MIN Int.LLONG_MAX z = z.
Proof.
  unfold Int.in_int64, Libc.clamp. intros H.
  destruct (Z.ltb_spec z Int.LLONG_MIN); [lia|].
  destruct (Z.ltb_spec Int.LLONG_MAX z); [lia | reflexivity].
Qed.

Lemma to_uint_digits p :
  exists c s k,
    NilZero.string_of_uint (Pos.to_uint p) = String c s /\
    NilEmpty.string_of_uint (Pos.to_uint p) = String c s /\
    Libc.digit c = Some k.
Proof.
  pose proof (DecimalPos.Unsigned.of_to p) as Hp.
  destruct (Pos.to_uint p) as [|d|d|d|d|d|d|d|d|d|d];
    [discriminate Hp| | | | | | | | | |];
    cbn [NilZero.string_of_uint NilEmpty.string_of_uint];
    do 3 eexists; (split; [reflexivity|]); (split; [reflexivity|]);
    vm_compute; reflexivity.
Qed.

Lemma strtoll_decimal o tail :
  Int.in_int64 o -> no_digit_ahead tail ->
  Libc.strtoll (decimal o ++ tail) = o.
Proof.
  intros Ho Htail. unfold decimal.
  destruct o as [|p|p]; cbn [Z.to_int NilZero.string_of_int].
  - change (NilZero.string_of_uint Decimal.zero ++ tail)%string
      with (String "0" tail).
    rewrite (strtoll_digit_first _ _ 0) by reflexivity.
    take_digit. cbn [Z.mul Z.add].
    change tail with (NilEmpty.string_of_uint Decimal.Nil ++ tail)%string.
    rewrite (digits_value_uint _ _ Htail). reflexivity.
  - destruct (to_uint_digits p) as (c & s & k & H0 & H1 & Hk).
    rewrite H0. cbn [String.append].
    rewrite (strtoll_digit_first _ _ k Hk).
    change (String c (s ++ tail)) with (String c s ++ tail)%string.
    rewrite <- H1, (digits_value_uint _ _ Htail), DecimalPos.Unsigned.of_to.
    apply clamp_id, Ho.
  - destruct (to_uint_digits p) as (c & s & k & H0 & H1 & Hk).
    cbn [String.append]. rewrite strtoll_minus.
    rewrite H0, <- H1, (digits_value_uint _ _ Htail), DecimalPos.Unsigned.of_to.
    apply clamp_id, Ho.
Qed.

Lemma append_empty (s : string) : (s ++ EmptyString)%string = s.
Proof. induction s as [|c s IH]; [reflexivity | cbn; f_equal; exact IH]. Qed.

Lemma decimal_starts_with_digit o :
  0 <= o -> exists c s k, decimal o = String c s /\ Libc.digit c = Some k.
Proof.
  intros Ho. unfold decimal. destruct o as [|p|p]; [| |lia].
  - exists "0"%char, EmptyString, 0. split; reflexivity.
  - destruct (to_uint_digits p) as (c & s & k & H0 & _ & Hk).
    exists c, s, k. split; [exact H0 | exact Hk].
Qed.

(** X1.  What offset printing writes for an offset is what [-o] and
    [strtoll] read back: the decimal rendering of a 64-bit offset,
    followed by the end of the text or by anything but a digit (such as
    the key delimiter), parses to that offset; a non-negative offset
    passed to [-o] in that form is taken as the same absolute offset,
    and a partition id passed to [-p] in that form is taken as that
    partition. *)
Theorem printed_offset_parses_back (o : Z) (tail : string) :
  Int.in_int64 o -> no_digit_ahead tail ->
  Libc.strtoll (decimal o ++ tail) = o /\
  (0 <= o ->
   offset_of_optarg (decimal o) = o /\
   directive_of_offset (offset_of_optarg (decimal o)) = Some (Absolute o)) /\
  (Int.in_int o -> Libc.atoi (decimal o) = o) /\
  (forall c, format_offset o c = list_byte_of_string (decimal o) ++ [c]).
Proof.
  intros Ho Htail.
  pose proof (strtoll_decimal o EmptyString Ho I) as Hs.
  rewrite append_empty in Hs.
  split; [apply strtoll_decimal; assumption|].
  split; [|split; [|reflexivity]].
  - intros Hpos.
    destruct (decimal_starts_with_digit o Hpos) as (c & s & k & Hd & Hk).
    assert (Hkw : forall kw : string,
              (kw = "end" \/ kw = "beginning" \/ kw = "stored")%string ->
              decimal o <> kw).
    { intros kw Hkw Heq. rewrite Hd in Heq.
      destruct Hkw as [-> | [-> | ->]]; injection Heq as -> _;
        vm_compute in Hk; discriminate. }
    rewrite offset_of_optarg_number by (apply Hkw; auto).
    rewrite Hs. destruct (Z.ltb_spec o 0); [lia|].
    split; [reflexivity | apply directive_of_absolute, Hpos].
  - intros Hint. unfold Libc.atoi. rewrite Hs. apply wrap32_id, Hint.
Qed.

Lemma printed_offset_parses_back_witness :
  Libc.strtoll (decimal 42 ++ String "009" "key") = 42.
Proof.
  refine (proj1 (printed_offset_parses_back 42 (String "009" "key") _ _)).
  - vm_compute. split; discriminate.
  - reflexivity.
Defined.

(** ** Numeric offsets *)

Lemma wrap64_below z :
  Int.LLONG_MIN - 2 ^ 64 <= z < Int.LLONG_MIN -> Int.wrap64 z = z + 2 ^ 64.
Proof.
  unfold Int.LLONG_MIN, Int.wrap64. intros H.
  replace (z + 2 ^ 63) with ((z + 2 ^ 64 + 2 ^ 63) + (-1) * 2 ^ 64) by lia.
  rewrite Z_mod_plus_full, Z.mod_small; lia.
Qed.

Lemma wrap64_above z :
  Int.LLONG_MAX < z <= Int.LLONG_MAX + 2 ^ 64 -> Int.wrap64 z = z - 2 ^ 64.
Proof.
  unfold Int.LLONG_MAX, Int.wrap64. intros H.
  replace (z + 2 ^ 63) with ((z - 2 ^ 64 + 2 ^ 63) + 1 * 2 ^ 64) by lia.
  rewrite Z_mod_plus_full, Z.mod_small; lia.
Qed.

Lemma tail_of_negative v :
  Int.LLONG_MIN <= v < 0 ->
  let o := RD_KAFKA_OFFSET_TAIL (Int.wrap64 (- v)) in
  (Int.LLONG_MIN + 2000 <= v /\ o = v - 2000) \/
  (v < Int.LLONG_MIN + 2000 /\ o = v - 2000 + 2 ^ 64 /\ 0 <= o).
Proof.
  unfold Int.LLONG_MIN. intros Hv. cbv zeta.
  unfold RD_KAFKA_OFFSET_TAIL, RD_KAFKA_OFFSET_TAIL_BASE.
  destruct (Z.eq_dec v (- 2 ^ 63)) as [->|Hne].
  - right. vm_compute. repeat split; discriminate.
  - rewrite (wrap64_id (- v))
      by (unfold Int.in_int64, Int.LLONG_MIN, Int.LLONG_MAX; lia).
    destruct (Z_le_gt_dec (- 2 ^ 63 + 2000) v) as [Hge|Hlt].
    + left. split; [exact Hge|].
      rewrite wrap64_id
        by (unfold Int.in_int64, Int.LLONG_MIN, Int.LLONG_MAX; lia).
      lia.
    + right. split; [lia|].
      rewrite wrap64_below by (unfold Int.LLONG_MIN; lia). lia.
Qed.

(** X2.  Whatever number a non-keyword [-o] argument holds, the offset
    made from it is never one of the logical offsets (end, beginning,
    stored) and never an invalid one: it is an absolute offset, or a
    tail offset counting at least one message back.  So ["-o -1"] is
    one message before the end, not "end", and ["-o -2"] is not
    "beginning". *)
Theorem numeric_offset_is_absolute_or_tail (optarg : string) :
  optarg <> "end"%string -> optarg <> "beginning"%string ->
  optarg <> "stored"%string ->
  let o := offset_of_optarg optarg in
  (0 <= o <= Int.LLONG_MAX /\ directive_of_offset o = Some (Absolute o)) \/
  (Int.LLONG_MIN <= o <= -2001 /\ Libc.strtoll optarg = o + 2000 /\
   directive_of_offset o = Some (TailRelative (- Libc.strtoll optarg))).
Proof.
  intros H1 H2 H3. cbv zeta.
  rewrite (offset_of_optarg_number _ H1 H2 H3).
  pose proof (strtoll_range optarg) as Hr. unfold Int.in_int64 in Hr.
  destruct (Z.ltb_spec (Libc.strtoll optarg) 0) as [Hneg|Hpos].
  - destruct (tail_of_negative (Libc.strtoll optarg)) as [[Hge Ho] | (Hlt & Ho & Hnn)];
      [lia| |].
    + right. cbv zeta in Ho.
      split; [rewrite Ho; unfold Int.LLONG_MIN in *; lia|].
      split; [rewrite Ho; lia|].
      apply directive_of_tail. lia.
    + left. split; [|apply directive_of_absolute, Hnn].
      split; [exact Hnn|].
      cbv zeta in Ho. rewrite Ho. unfold Int.LLONG_MIN, Int.LLONG_MAX in *. lia.
  - left. split; [lia | apply directive_of_absolute, Hpos].
Qed.

Lemma numeric_offset_is_absolute_or_tail_witness :
  directive_of_offset (offset_of_optarg "-1") = Some (TailRelative 1).
Proof.
  destruct (numeric_offset_is_absolute_or_tail "-1") as [[H _] | (_ & _ & H)];
    try discriminate.
  - vm_compute in H. destruct H as [H _]. exfalso. apply H. reflexivity.
  - exact H.
Defined.

(** ** The option loop *)

Section Options.

Variable parse_delim : string -> Byte.byte.
Variables topic_conf_set conf_set : string -> string -> rd_kafka_conf_res_t.

Lemma argparse_X_conf optarg c c1 :
  argparse_X topic_conf_set conf_set optarg c = ArgNext c1 ->
  c1 = c \/ c1 = set_conf_dump 1 c.
Proof.
  unfold argparse_X.
  destruct (_ || _); [discriminate|].
  destruct (String.eqb optarg "dump"); [intros H; injection H as <-; auto|].
  destruct (split_eq optarg) as [[name val]|]; [|discriminate].
  destruct (conf_res_eqb _ RD_KAFKA_CONF_OK); [|discriminate].
  intros H. injection H as <-. auto.
Qed.

(** What one option does to the fields of [conf] that the consumer
    reads. *)
Lemma argparse_opt_fields opt optarg c c1 :
  argparse_opt parse_delim topic_conf_set conf_set opt optarg c = ArgNext c1 ->
  partition c1 = (if Ascii.eqb opt "p" then Libc.atoi optarg else partition c) /\
  brokers c1 = (if Ascii.eqb opt "b" then optarg else brokers c) /\
  delim c1 = (if Ascii.eqb opt "d" then parse_delim optarg else delim c) /\
  key_delim c1 = (if Ascii.eqb opt "k" then parse_delim optarg else key_delim c) /\
  msg_cnt c1 = (if Ascii.eqb opt "c" then Libc.strtoll optarg else msg_cnt c) /\
  offset c1 = (if Ascii.eqb opt "o" then offset_of_optarg optarg else offset c) /\
  flags c1 =
    (if Ascii.eqb opt "k" then Z.lor (flags c) CONF_F_KEY_DELIM
     else if Ascii.eqb opt "O" then Z.lor (flags c) CONF_F_OFFSET
     else flags c) /\
  exit_eof c1 = (if Ascii.eqb opt "e" then 1 else exit_eof c) /\
  run c1 = run c /\ exitcode c1 = exitcode c /\ topic c1 = topic c.
Proof.
  unfold argparse_opt.
  destruct (Ascii.eqb_spec opt "p") as [->|Hp];
    [intros H; injection H as <-; repeat split|].
  destruct (Ascii.eqb_spec opt "b") as [->|Hb];
    [intros H; injection H as <-; repeat split|].
  destruct (Ascii.eqb_spec opt "d") as [->|Hd];
    [intros H; injection H as <-; repeat split|].
  destruct (Ascii.eqb_spec opt "k") as [->|Hk];
    [intros H; injection H as <-; repeat split|].
  destruct (Ascii.eqb_spec opt "c") as [->|Hc];
    [intros H; injection H as <-; repeat split|].
  destruct (Ascii.eqb_spec opt "o") as [->|Ho];
    [intros H; injection H as <-; repeat split|].
  destruct (Ascii.eqb_spec opt "O") as [->|HO];
    [intros H; injection H as <-; repeat split|].
  destruct (Ascii.eqb_spec opt "e") as [->|He];
    [intros H; injection H as <-; repeat split|].
  destruct (Ascii.eqb_spec opt "q") as [->|Hq];
    [intros H; injection H as <-; repeat split|].
  destruct (Ascii.eqb_spec opt "v") as [->|Hv];
    [intros H; injection H as <-; repeat split|].
  destruct (Ascii.eqb_spec opt "u") as [->|Hu];
    [intros H; injection H as <-; repeat split|].
  destruct (Ascii.eqb_spec opt "X") as [->|HX]; [|discriminate].
  intros H. apply argparse_X_conf in H as [-> | ->]; repeat split.
Qed.

Lemma last_arg_cons opt o a rest :
  last_arg opt ((o, a) :: rest) =
  match last_arg opt rest with
  | Some a' => Some a'
  | None => if Ascii.eqb o opt then Some a else None
  end.
Proof. reflexivity. Qed.

(** A field set by one option holds, after the loop, what the last
    occurrence of that option made of its argument. *)
Lemma field_after_loop {A} (field : conf_t -> A) (opt : ascii)
    (of_arg : string -> A) :
  (forall o a c c1,
      argparse_opt parse_delim topic_conf_set conf_set o a c = ArgNext c1 ->
      field c1 = if Ascii.eqb o opt then of_arg a else field c) ->
  forall opts c c',
    argparse_opts parse_delim topic_conf_set conf_set opts c = ArgNext c' ->
    field c' = field_after opt opts of_arg (field c).
Proof.
  intros Hstep. induction opts as [|[o a] rest IH]; intros c c' H.
  - cbn in H. injection H as <-. reflexivity.
  - cbn [argparse_opts] in H.
    destruct (argparse_opt parse_delim topic_conf_set conf_set o a c)
      as [c1|] eqn:H1; [|discriminate].
    rewrite (IH _ _ H). unfold field_after. rewrite last_arg_cons.
    destruct (last_arg opt rest); [reflexivity|].
    rewrite (Hstep _ _ _ _ H1). destruct (Ascii.eqb o opt); reflexivity.
Qed.

End Options.

Lemma flag_bits f :
  truthy (Z.land (Z.lor f CONF_F_OFFSET) CONF_F_OFFSET) = true /\
  truthy (Z.land (Z.lor f CONF_F_KEY_DELIM) CONF_F_KEY_DELIM) = true /\
  Z.land (Z.lor f CONF_F_OFFSET) CONF_F_KEY_DELIM = Z.land f CONF_F_KEY_DELIM /\
  Z.land (Z.lor f CONF_F_KEY_DELIM) CONF_F_OFFSET = Z.land f CONF_F_OFFSET.
Proof.
  rewrite !Z.land_lor_distr_l.
  change (Z.land CONF_F_OFFSET CONF_F_OFFSET) with 4.
  change (Z.land CONF_F_KEY_DELIM CONF_F_KEY_DELIM) with 2.
  change (Z.land CONF_F_OFFSET CONF_F_KEY_DELIM) with 0.
  change (Z.land CONF_F_KEY_DELIM CONF_F_OFFSET) with 0.
  rewrite !Z.lor_0_r. repeat split.
  - apply truthy_true. intros H. apply Z.lor_eq_0_iff in H as [_ H]. discriminate.
  - apply truthy_true. intros H. apply Z.lor_eq_0_iff in H as [_ H]. discriminate.
Qed.

Lemma argparse_opts_keeps parse_delim topic_conf_set conf_set opts c c' :
  argparse_opts parse_delim topic_conf_set conf_set opts c = ArgNext c' ->
  run c' = run c /\ exitcode c' = exitcode c /\ topic c' = topic c.
Proof.
  revert c. induction opts as [|[o a] rest IH]; intros c H.
  - cbn in H. injection H as <-. repeat split.
  - cbn [argparse_opts] in H.
    destruct (argparse_opt parse_delim topic_conf_set conf_set o a c)
      as [c1|] eqn:H1; [|discriminate].
    apply argparse_opt_fields in H1
      as (_ & _ & _ & _ & _ & _ & _ & _ & Hr & He & Ht).
    destruct (IH _ H) as (Hr' & He' & Ht'). repeat split; congruence.
Qed.

(** X3.  After a command line that [consumer_argparse] accepts, each of
    partition, offset, message count, broker list and the two
    delimiters holds what the last occurrence of its option made of its
    argument, or its earlier value if the option does not occur; the
    topic is the first operand, which must be there; the library has
    accepted the broker list; the run flag and the exit code are
    untouched. *)
Theorem command_line_last_option_wins
    (parse_delim : string -> Byte.byte)
    (topic_conf_set conf_set : string -> string -> rd_kafka_conf_res_t)
    (opts : list (ascii * string)) (operands : list string) (c c' : conf_t) :
  consumer_argparse parse_delim topic_conf_set conf_set opts operands c = ArgNext c' ->
  partition c' = field_after "p" opts Libc.atoi (partition c) /\
  offset c' = field_after "o" opts offset_of_optarg (offset c) /\
  msg_cnt c' = field_after "c" opts Libc.strtoll (msg_cnt c) /\
  brokers c' = field_after "b" opts (fun a => a) (brokers c) /\
  delim c' = field_after "d" opts parse_delim (delim c) /\
  key_delim c' = field_after "k" opts parse_delim (key_delim c) /\
  (exists t rest, operands = t :: rest /\ topic c' = t) /\
  conf_set "metadata.broker.list"%string (brokers c') = RD_KAFKA_CONF_OK /\
  run c' = run c /\ exitcode c' = exitcode c.
Proof.
  unfold consumer_argparse.
  destruct (argparse_opts parse_delim topic_conf_set conf_set opts c)
    as [c1|] eqn:Hopts; [|discriminate].
  destruct operands as [|t rest]; [discriminate|].
  destruct (conf_set "metadata.broker.list"%string (brokers (set_topic t c1)))
    eqn:Hb; try discriminate.
  intros H. injection H as <-.
  pose proof (fun A (field : conf_t -> A) opt of_arg Hstep =>
                field_after_loop parse_delim topic_conf_set conf_set
                  field opt of_arg Hstep opts c c1 Hopts) as Hf.
  cbn [partition offset msg_cnt brokers delim key_delim topic run exitcode set_topic].
  repeat split.
  - apply Hf. intros o a c0 c2 H. apply argparse_opt_fields in H. tauto.
  - apply Hf. intros o a c0 c2 H. apply argparse_opt_fields in H. tauto.
  - apply Hf. intros o a c0 c2 H. apply argparse_opt_fields in H. tauto.
  - apply Hf. intros o a c0 c2 H. apply argparse_opt_fields in H. tauto.
  - apply Hf. intros o a c0 c2 H. apply argparse_opt_fields in H. tauto.
  - apply Hf. intros o a c0 c2 H. apply argparse_opt_fields in H. tauto.
  - exists t, rest. split; reflexivity.
  - exact Hb.
  - apply (argparse_opts_keeps _ _ _ _ _ _ Hopts).
  - apply (argparse_opts_keeps _ _ _ _ _ _ Hopts).
Qed.

Lemma command_line_last_option_wins_witness :
  exists c',
    consumer_argparse parse_delim0 conf_set0 conf_set0
      [("p"%char, "2"%string); ("o"%char, "beginning"%string);
       ("p"%char, "1"%string)] ["events"%string] conf0 = ArgNext c' /\
    partition c' = 1 /\ offset c' = RD_KAFKA_OFFSET_BEGINNING.
Proof.
  eexists. split; [vm_compute; reflexivity|].
  destruct (command_line_last_option_wins parse_delim0 conf_set0 conf_set0
              [("p"%char, "2"%string); ("o"%char, "beginning"%string);
               ("p"%char, "1"%string)] ["events"%string] conf0 _ eq_refl)
    as (Hp & Ho & _).
  split; [exact Hp | exact Ho].
Defined.

(** The two flag bits and [exit_eof] after the option loop, by the codes
    [getopt_long] has returned: each is on exactly if it was on before
    or its code (['O'], ['k'], ['e']) was among them. *)
Lemma argparse_opts_switches
    (parse_delim : string -> Byte.byte)
    (topic_conf_set conf_set : string -> string -> rd_kafka_conf_res_t)
    (opts : list (ascii * string)) (c c' : conf_t) :
  argparse_opts parse_delim topic_conf_set conf_set opts c = ArgNext c' ->
  (truthy (Z.land (flags c') CONF_F_OFFSET) = true <->
   truthy (Z.land (flags c) CONF_F_OFFSET) = true \/ given "O" opts) /\
  (truthy (Z.land (flags c') CONF_F_KEY_DELIM) = true <->
   truthy (Z.land (flags c) CONF_F_KEY_DELIM) = true \/ given "k" opts) /\
  (truthy (exit_eof c') = true <->
   truthy (exit_eof c) = true \/ given "e" opts).
Proof.
  unfold given. revert c.
  induction opts as [|[o a] rest IH]; intros c H.
  - cbn in H. injection H as <-. cbn [map In]. tauto.
  - cbn [argparse_opts] in H.
    destruct (argparse_opt parse_delim topic_conf_set conf_set o a c)
      as [c1|] eqn:H1; [|discriminate].
    apply argparse_opt_fields in H1
      as (_ & _ & _ & _ & _ & _ & Hf & He & _).
    destruct (IH _ H) as (IO & IK & IE). rewrite IO, IK, IE, Hf, He.
    cbn [map fst In]. destruct (flag_bits (flags c)) as (B1 & B2 & B3 & B4).
    destruct (Ascii.eqb_spec o "k") as [->|Hk].
    + rewrite B4, B2. cbn [truthy Z.eqb negb].
      repeat split; intros; intuition (try discriminate; auto).
    + destruct (Ascii.eqb_spec o "O") as [->|HO].
      * rewrite B1, B3. cbn [truthy Z.eqb negb].
        repeat split; intros; intuition (try discriminate; auto).
      * destruct (Ascii.eqb_spec o "e") as [->|He'].
        -- change (truthy 1) with true.
           repeat split; intros; intuition (try discriminate; auto).
        -- repeat split; intros; intuition (try congruence; auto).
Qed.

(** The option loop does not get past a code ['?']. *)
Lemma argparse_opts_no_unknown
    (parse_delim : string -> Byte.byte)
    (topic_conf_set conf_set : string -> string -> rd_kafka_conf_res_t)
    (opts : list (ascii * string)) (c c' : conf_t) :
  argparse_opts parse_delim topic_conf_set conf_set opts c = ArgNext c' ->
  ~ given "?" opts.
Proof.
  unfold given. revert c.
  induction opts as [|[o a] rest IH]; intros c H; [intros []|].
  cbn [argparse_opts] in H.
  destruct (argparse_opt parse_delim topic_conf_set conf_set o a c)
    as [c1|] eqn:H1; [|discriminate].
  cbn [map fst In]. intros [Ho | Hin].
  - subst o. discriminate H1.
  - exact (IH _ H Hin).
Qed.

Lemma given_getopt_codes code words :
  given code (getopt_codes words) <->
  exists o, In o (map fst words) /\ getopt_code o = code.
Proof.
  unfold given, getopt_codes. rewrite map_map. cbn [fst].
  rewrite in_map_iff. split.
  - intros (w & Hc & Hin). exists (fst w). split; [|exact Hc].
    apply in_map_iff. exists w. split; [reflexivity | exact Hin].
  - intros (o & Hin & Hc). apply in_map_iff in Hin as (w & <- & Hin).
    exists w. split; [exact Hc | exact Hin].
Qed.

(** No short option gives the code ['O']: the option string has no
    ['O']. *)
Lemma getopt_code_short_O ch : getopt_code (Short ch) <> "O"%char.
Proof.
  unfold getopt_code. destruct (Ascii.eqb ch ":"); [discriminate|].
  destruct (existsb (Ascii.eqb ch) (list_ascii_of_string short_options)) eqn:Hex;
    [|discriminate].
  intros ->. vm_compute in Hex. discriminate.
Qed.

(** The long options that give the code ['O'] are [--print-offset] and
    its abbreviations. *)
Lemma getopt_code_long_O name :
  getopt_code (Long name) = "O"%char ->
  String.prefix name "print-offset" = true.
Proof.
  unfold getopt_code.
  destruct (List.filter (fun e => String.eqb (fst (fst e)) name)
              consumer_long_options) as [|e l] eqn:Hf.
  - destruct (List.filter (fun e => String.prefix name (fst (fst e)))
                consumer_long_options) as [|e [|e2 l]] eqn:Hp;
      try discriminate.
    intros Hv.
    assert (Hin : In e (List.filter (fun e => String.prefix name (fst (fst e)))
                          consumer_long_options)) by (rewrite Hp; left; reflexivity).
    apply List.filter_In in Hin as [Hin Hpre].
    cbn in Hin.
    repeat (destruct Hin as [<- | Hin]; [cbn in Hv; try discriminate Hv|]);
      [exact Hpre | contradiction].
  - intros Hv.
    assert (Hin : In e (List.filter (fun e => String.eqb (fst (fst e)) name)
                          consumer_long_options)) by (rewrite Hf; left; reflexivity).
    apply List.filter_In in Hin as [Hin Heq].
    apply String.eqb_eq in Heq. subst name.
    cbn in Hin.
    repeat (destruct Hin as [<- | Hin]; [cbn in Hv; try discriminate Hv|]);
      [reflexivity | contradiction].
Qed.

(** X4.  Offset printing, key printing and exit-on-EOF are on after an
    option loop that accepts the command line exactly if they were on
    before it or an option occurs for which [getopt_long] returns their
    code (['O'], ['k'], ['e']): no option switches one of them off, and
    no other option switches one on.  The option string of line 62 has
    no ['O']: a command line with [-O] is not accepted, and the options
    that switch offset printing on are the long option [--print-offset]
    and its abbreviations. *)
Theorem switches_follow_their_options
    (parse_delim : string -> Byte.byte)
    (topic_conf_set conf_set : string -> string -> rd_kafka_conf_res_t)
    (words : list (option_word * string)) (c c' : conf_t) :
  argparse_opts parse_delim topic_conf_set conf_set (getopt_codes words) c
    = ArgNext c' ->
  (truthy (Z.land (flags c') CONF_F_OFFSET) = true <->
   truthy (Z.land (flags c) CONF_F_OFFSET) = true \/
   exists name, In (Long name) (map fst words) /\
                getopt_code (Long name) = "O"%char /\
                String.prefix name "print-offset" = true) /\
  (truthy (Z.land (flags c') CONF_F_KEY_DELIM) = true <->
   truthy (Z.land (flags c) CONF_F_KEY_DELIM) = true \/
   exists o, In o (map fst words) /\ getopt_code o = "k"%char) /\
  (truthy (exit_eof c') = true <->
   truthy (exit_eof c) = true \/
   exists o, In o (map fst words) /\ getopt_code o = "e"%char) /\
  ~ In (Short "O") (map fst words).
Proof.
  intros H.
  destruct (argparse_opts_switches _ _ _ _ _ _ H) as (HO & HK & HE).
  rewrite !given_getopt_codes in HO, HK, HE.
  split; [|split; [exact HK | split; [exact HE|]]].
  - rewrite HO. split.
    + intros [Hb | (o & Hin & Hc)]; [left; exact Hb | right].
      destruct o as [ch | name]; [exfalso; exact (getopt_code_short_O _ Hc)|].
      exists name. split; [exact Hin|]. split; [exact Hc|].
      exact (getopt_code_long_O _ Hc).
    + intros [Hb | (name & Hin & Hc & _)]; [left; exact Hb | right].
      exists (Long name). split; assumption.
  - intros Hin.
    apply (argparse_opts_no_unknown _ _ _ _ _ _ H).
    apply given_getopt_codes. exists (Short "O"). split; [exact Hin | reflexivity].
Qed.

Lemma switches_follow_their_options_witness :
  exists c',
    argparse_opts parse_delim0 conf_set0 conf_set0
      (getopt_codes [(Long "print-offset", EmptyString); (Short "e", EmptyString)])
      conf0 = ArgNext c' /\
    truthy (Z.land (flags c') CONF_F_OFFSET) = true /\
    ~ truthy (Z.land (flags c') CONF_F_KEY_DELIM) = true.
Proof.
  eexists. split; [vm_compute; reflexivity|].
  destruct (switches_follow_their_options parse_delim0 conf_set0 conf_set0
              [(Long "print-offset", EmptyString); (Short "e", EmptyString)]
              conf0 _ eq_refl)
    as (HO & HK & _).
  split.
  - apply HO. right. exists "print-offset"%string.
    split; [left; reflexivity | split; reflexivity].
  - intros H. apply HK in H as [H | (o & [<- | [<- | []]] & Hc)]; discriminate.
Defined.

(** [-O] ends in [usage]; [--print-offset], also abbreviated, is taken. *)
Example print_offset_option :
  forall c,
    argparse_opts parse_delim0 conf_set0 conf_set0
      (getopt_codes [(Short "O", EmptyString)]) c = ArgExit 1 /\
    argparse_opts parse_delim0 conf_set0 conf_set0
      (getopt_codes [(Long "pr", EmptyString)]) c =
      ArgNext (set_flags (Z.lor (flags c) CONF_F_OFFSET) c) /\
    getopt_code (Long "p") = "?"%char.
Proof. intros c. repeat split. Qed.

(** ** The [-X] option *)

Lemma split_eq_app name val :
  no_equals_sign name ->
  split_eq (name ++ String "=" val) = Some (name, val).
Proof.
  unfold no_equals_sign. induction name as [|ch name IH]; intros Hn.
  - reflexivity.
  - cbn [String.append split_eq]. cbn [list_ascii_of_string In] in Hn.
    destruct (Ascii.eqb_spec ch "=") as [->|Hne]; [tauto|].
    rewrite IH by tauto. reflexivity.
Qed.

Lemma split_eq_None s : split_eq s = None <-> no_equals_sign s.
Proof.
  unfold no_equals_sign. induction s as [|ch s IH]; cbn [split_eq list_ascii_of_string In].
  - tauto.
  - destruct (Ascii.eqb_spec ch "=") as [->|Hne].
    + split; [discriminate | tauto].
    + destruct (split_eq s) as [[n v]|].
      * split; [discriminate|]. intros H. exfalso.
        assert (Hs : ~ In "="%char (list_ascii_of_string s)) by tauto.
        apply IH in Hs. discriminate.
      * split; [|reflexivity]. intros _ [H|H]; [congruence|].
        apply (proj1 IH); [reflexivity | exact H].
Qed.

Lemma split_eq_Some s name val :
  split_eq s = Some (name, val) ->
  s = (name ++ String "=" val)%string /\ no_equals_sign name.
Proof.
  unfold no_equals_sign. revert name.
  induction s as [|ch s IH]; intros name; cbn [split_eq].
  - discriminate.
  - destruct (Ascii.eqb_spec ch "=") as [->|Hne].
    + intros H. injection H as <- <-. split; [reflexivity | cbn; tauto].
    + destruct (split_eq s) as [[n v]|]; [|discriminate].
      intros H. injection H as <- <-.
      destruct (IH n eq_refl) as [-> Hn].
      split; [reflexivity|]. cbn [list_ascii_of_string In].
      intros [H|H]; [congruence | exact (Hn H)].
Qed.

Lemma substring_all (s : string) : String.substring 0 (String.length s) s = s.
Proof. induction s as [|ch s IH]; [reflexivity | cbn; f_equal; exact IH]. Qed.

(** X5.  [-X name=value]: the property name is what stands before the
    first '=', so that the value may hold further '=' signs.  A name
    ["topic." n] is offered to the topic configuration as [n]; if that
    does not know it, the whole name goes to the global configuration;
    if the topic configuration rejects the value, the global one is not
    asked.  Any other name goes to the global configuration.  The option
    is accepted exactly if the configuration finally asked says OK, and
    then [conf] is as before; otherwise the process exits with status 1,
    as it does for an argument without '=' other than list, help and
    dump. *)
Theorem property_option_routing
    (topic_conf_set conf_set : string -> string -> rd_kafka_conf_res_t)
    (name val : string) (c : conf_t) :
  no_equals_sign name ->
  (forall n,
      name = ("topic." ++ n)%string ->
      argparse_X topic_conf_set conf_set (name ++ String "=" val) c =
        match topic_conf_set n val with
        | RD_KAFKA_CONF_OK => ArgNext c
        | RD_KAFKA_CONF_INVALID => ArgExit 1
        | RD_KAFKA_CONF_UNKNOWN =>
            match conf_set name val with
            | RD_KAFKA_CONF_OK => ArgNext c
            | _ => ArgExit 1
            end
        end) /\
  (String.prefix "topic." name = false ->
   argparse_X topic_conf_set conf_set (name ++ String "=" val) c =
     match conf_set name val with
     | RD_KAFKA_CONF_OK => ArgNext c
     | _ => ArgExit 1
     end) /\
  (name <> "list"%string -> name <> "help"%string -> name <> "dump"%string ->
   argparse_X topic_conf_set conf_set name c = ArgExit 1).
Proof.
  intros Hname.
  assert (Hsplit := split_eq_app name val Hname).
  assert (Hkw : forall kw : string,
            split_eq kw = None ->
            String.eqb (name ++ String "=" val) kw = false).
  { intros kw Hkw. apply String.eqb_neq. intros Heq.
    rewrite Heq in Hsplit. congruence. }
  split; [|split].
  - intros n ->. unfold argparse_X.
    rewrite !Hkw by reflexivity. cbn [orb]. rewrite Hsplit.
    change (String.prefix "topic." ("topic." ++ n)) with (String.prefix "" n).
    replace (String.prefix "" n) with true by (destruct n; reflexivity).
    change (String.substring 6 (String.length ("topic." ++ n) - 6) ("topic." ++ n))
      with (String.substring 0 (String.length n - 0) n).
    rewrite Nat.sub_0_r, substring_all.
    destruct (topic_conf_set n val); cbn [conf_res_eqb]; try reflexivity.
    destruct (conf_set ("topic." ++ n)%string val); reflexivity.
  - intros Hpre. unfold argparse_X.
    rewrite !Hkw by reflexivity. cbn [orb]. rewrite Hsplit, Hpre.
    cbn [conf_res_eqb]. destruct (conf_set name val); reflexivity.
  - intros H1 H2 H3. unfold argparse_X.
    apply String.eqb_neq in H1, H2, H3. rewrite H1, H2, H3. cbn [orb].
    apply split_eq_None in Hname. rewrite Hname. reflexivity.
Qed.

Lemma property_option_routing_witness :
  argparse_X (fun _ _ => RD_KAFKA_CONF_UNKNOWN) conf_set0
    "topic.auto.offset.reset=smallest" conf0 = ArgNext conf0.
Proof.
  refine (proj1 (property_option_routing (fun _ _ => RD_KAFKA_CONF_UNKNOWN)
                   conf_set0 "topic.auto.offset.reset" "smallest" conf0 _)
            "auto.offset.reset"%string eq_refl).
  vm_compute. intuition discriminate.
Defined.

(** ** Arguments that are not numbers *)

(** X6.  [-p] and [-c] never reject their argument: one that [atoi] or
    [strtoll] finds no number in (no digit after optional white space
    and sign) selects partition 0, or sets the message count to 0, and
    the option loop goes on. *)
Theorem non_numeric_arguments_read_as_zero
    (parse_delim : string -> Byte.byte)
    (topic_conf_set conf_set : string -> string -> rd_kafka_conf_res_t)
    (optarg : string) (c : conf_t) :
  numeric_prefix optarg = false ->
  argparse_opt parse_delim topic_conf_set conf_set "p" optarg c =
    ArgNext (set_partition 0 c) /\
  argparse_opt parse_delim topic_conf_set conf_set "c" optarg c =
    ArgNext (set_msg_cnt 0 c).
Proof.
  intros Hn.
  assert (Hp : argparse_opt parse_delim topic_conf_set conf_set "p" optarg c =
               ArgNext (set_partition (Libc.atoi optarg) c)) by reflexivity.
  assert (Hc : argparse_opt parse_delim topic_conf_set conf_set "c" optarg c =
               ArgNext (set_msg_cnt (Libc.strtoll optarg) c)) by reflexivity.
  rewrite Hp, Hc. unfold Libc.atoi.
  rewrite (strtoll_no_numeric_prefix _ Hn). split; reflexivity.
Qed.

Lemma non_numeric_arguments_read_as_zero_witness :
  argparse_opt parse_delim0 conf_set0 conf_set0 "p" "all" conf0 =
    ArgNext (set_partition 0 conf0).
Proof.
  exact (proj1 (non_numeric_arguments_read_as_zero parse_delim0 conf_set0
                  conf_set0 "all" conf0 eq_refl)).
Defined.

(** ** End-of-partition messages and stream errors *)

Lemma consume_cb_eof_ignored m s :
  exit_eof (conf s) = 0 -> m_err m = RD_KAFKA_RESP_ERR__PARTITION_EOF ->
  consume_cb m s = Done tt s.
Proof.
  intros He Hm. destruct (truthy (run (conf s))) eqn:Hrun.
  - rewrite consume_cb_running by exact Hrun.
    rewrite Hm, He. reflexivity.
  - apply consume_cb_stopped, truthy_false, Hrun.
Qed.

Lemma consume_callback_queue_eof_ignored batch s :
  exit_eof (conf s) = 0 ->
  Forall (fun m => m_err m = RD_KAFKA_RESP_ERR__PARTITION_EOF) batch ->
  consume_callback_queue batch s = Done tt s.
Proof.
  intros He. induction 1 as [|m rest Hm _ IH]; [reflexivity|].
  cbn [consume_callback_queue].
  rewrite (bind_Done _ _ _ _ _ (consume_cb_eof_ignored m s He Hm)). exact IH.
Qed.

(** X7.  Without [-e], end-of-partition messages change nothing,
    whatever partition they name: [part_eof] is not looked at (it is a
    NULL pointer then), nothing is counted or written, the run flag
    stays as it is, and a consume loop that is served nothing else keeps
    polling. *)
Theorem eof_ignored_without_exit_option
    (s : state) (batches : list (list rd_kafka_message_t)) :
  exit_eof (conf s) = 0 ->
  Forall (Forall (fun m => m_err m = RD_KAFKA_RESP_ERR__PARTITION_EOF)) batches ->
  consume_callback_queue (concat batches) s = Done tt s /\
  (truthy (run (conf s)) = true -> consume_loop batches s = Polling s).
Proof.
  intros He Hall. split.
  - apply consume_callback_queue_eof_ignored; [exact He|].
    induction Hall as [|b rest Hb _ IH]; [constructor|].
    cbn [concat]. apply Forall_app. split; assumption.
  - intros Hrun. induction Hall as [|b rest Hb _ IH].
    + cbn. rewrite Hrun. reflexivity.
    + cbn [consume_loop]. rewrite Hrun. cbn [negb].
      rewrite (bind_Done _ _ _ _ _ (consume_callback_queue_eof_ignored b s He Hb)).
      exact IH.
Qed.

Lemma eof_ignored_without_exit_option_witness :
  consume_loop [[eof_message 7 1; eof_message 0 3]; [eof_message 7 1]]
    (initial_state conf0 []) = Polling (initial_state conf0 []).
Proof.
  refine (proj2 (eof_ignored_without_exit_option (initial_state conf0 [])
                   [[eof_message 7 1; eof_message 0 3]; [eof_message 7 1]] _ _) _).
  - reflexivity.
  - repeat constructor.
  - reflexivity.
Defined.

(** X8.  A message with an error other than end-of-partition, taken
    while the run is on, ends the process through [FATAL] with the
    partition and the error code: the state is the one the messages
    before it left, and nothing that follows in the batch is looked
    at. *)
Theorem stream_error_ends_the_batch
    (pre post : list rd_kafka_message_t) (m : rd_kafka_message_t)
    (s s1 : state) :
  consume_callback_queue pre s = Done tt s1 ->
  truthy (run (conf s1)) = true ->
  m_err m <> 0 -> m_err m <> RD_KAFKA_RESP_ERR__PARTITION_EOF ->
  consume_callback_queue (pre ++ m :: post) s =
    Fatal (Topic_partition_error (m_partition m) (m_err m)) s1.
Proof.
  intros Hpre Hrun H0 He.
  rewrite consume_callback_queue_app, (bind_Done _ _ _ _ _ Hpre).
  cbn [consume_callback_queue]. unfold bind.
  rewrite consume_cb_running by exact Hrun.
  apply truthy_true in H0. rewrite H0.
  apply Z.eqb_neq in He. rewrite He. reflexivity.
Qed.

Lemma stream_error_ends_the_batch_witness :
  consume_callback_queue
    ([eof_message 0 1] ++ mk_message 3 2 0 [] [] :: [data_message 0 1 "k" "v"])
    (initial_state conf0 []) =
  Fatal (Topic_partition_error 2 3) (initial_state conf0 []).
Proof.
  apply (stream_error_ends_the_batch [eof_message 0 1] [data_message 0 1 "k" "v"]
           (mk_message 3 2 0 [] []) (initial_state conf0 []) (initial_state conf0 [])).
  - reflexivity.
  - reflexivity.
  - discriminate.
  - discriminate.
Defined.

(** ** Failures before the consume loop *)

Lemma start_attempts_failed w ps pre' p :
  start_attempts w ps = (pre', Some p) ->
  consume_start_ret w p = -1 /\
  exists pre post,
    ps = pre ++ p :: post /\ pre' = pre ++ [p] /\
    Forall (fun q => consume_start_ret w q <> -1) pre.
Proof.
  revert pre'. induction ps as [|q rest IH]; intros pre'; cbn [start_attempts].
  - discriminate.
  - destruct (Z.eqb_spec (consume_start_ret w q) (-1)) as [Hq|Hq].
    + intros H. injection H as <- <-. split; [exact Hq|].
      exists [], rest. repeat split. constructor.
    + destruct (start_attempts w rest) as [pre1 f]. intros H. injection H as <- ->.
      destruct (IH pre1 eq_refl) as (Hp & pre & post & -> & -> & HF).
      split; [exact Hp|]. exists (q :: pre), post. repeat split.
      constructor; assumption.
Qed.

Lemma opened_streams_failed_start w c pre p :
  Forall (fun q => consume_start_ret w q <> -1) pre ->
  consume_start_ret w p = -1 ->
  opened_streams (start_calls w c (pre ++ [p])) = pre.
Proof.
  intros HF Hp. unfold start_calls. rewrite map_app, opened_streams_app.
  fold (start_calls w c pre). rewrite (opened_streams_start_calls _ _ _ HF).
  cbn. rewrite Hp. cbn. apply app_nil_r.
Qed.

(** X9.  A run that fails before the consume loop: when [FATAL] is
    called nothing has been written or counted, [conf] is as it was,
    and the message tells what went wrong: the metadata query failed;
    or the reply lists no topic; or the topic carries an error; or it
    has no partition; or the partition asked for with [-p] is not
    listed, the queue made and no stream started; or a stream failed to
    start.  In that last case, all partitions being wanted, a start was
    tried for the partitions listed up to the failing one, in their
    order, and for none after it, so that exactly the streams of the
    partitions listed before it are open; with [-p], the one start that
    was tried failed and no stream is open. *)
Theorem failure_before_the_loop
    (w : world) (c : conf_t) (io : list io_result)
    (e : fatal_msg) (s' : state) :
  consumer_begin w (initial_state c io) = Fatal e s' ->
  stdout s' = mk_FILE [] io /\ stats_rx s' = 0 /\ conf s' = c /\
  match e with
  | Failed_to_query_metadata err =>
      err = metadata_err w /\ err <> 0 /\ calls s' = []
  | No_such_topic_in_cluster =>
      metadata_err w = 0 /\ topics (metadata w) = [] /\ calls s' = []
  | Topic_error err =>
      err <> 0 /\ calls s' = [] /\
      exists t rest, topics (metadata w) = t :: rest /\ t_err t = err
  | Topic_has_no_partitions =>
      calls s' = [] /\
      exists t rest, topics (metadata w) = t :: rest /\ t_err t = 0 /\
                     partitions t = []
  | Partition_does_not_exist last p =>
      p = partition c /\ p <> RD_KAFKA_PARTITION_UA /\
      calls s' = [rd_kafka_queue_new] /\
      exists t rest, topics (metadata w) = t :: rest /\
                     last = partition_cnt t - 1 /\ ~ In p (partitions t)
  | Failed_to_start_consuming p =>
      consume_start_ret w p = -1 /\
      exists t rest pre post,
        topics (metadata w) = t :: rest /\ partitions t = pre ++ p :: post /\
        if partition c =? RD_KAFKA_PARTITION_UA
        then Forall (fun q => consume_start_ret w q <> -1) pre /\
             calls s' = rd_kafka_queue_new :: start_calls w c (pre ++ [p]) /\
             opened_streams (calls s') = pre
        else p = partition c /\
             calls s' = rd_kafka_queue_new :: start_calls w c [p] /\
             opened_streams (calls s') = []
  | Topic_partition_error _ _ => False
  | Write_error _ _ => False
  end.
Proof.
  rewrite consumer_begin_eq. unfold begin_outcome.
  destruct (truthy (metadata_err w)) eqn:Hq.
  { intros H. injection H as <- <-. apply truthy_true in Hq.
    repeat split; auto. }
  apply truthy_false in Hq.
  destruct (topics (metadata w)) as [|t rest] eqn:Htop.
  { intros H. injection H as <- <-. repeat split; auto. }
  destruct (truthy (t_err t)) eqn:He.
  { intros H. injection H as <- <-. apply truthy_true in He.
    repeat split; auto. exists t, rest. split; reflexivity. }
  apply truthy_false in He.
  destruct (Z.eqb_spec (partition_cnt t) 0) as [Hcnt|Hcnt].
  { intros H. injection H as <- <-. repeat split; auto.
    exists t, rest. repeat split; auto.
    unfold partition_cnt in Hcnt. destruct (partitions t); [reflexivity|].
    cbn [length] in Hcnt. lia. }
  cbv zeta. cbn [conf initial_state].
  assert (Hfr : forall cs,
    let s2 := log_calls cs (log_call rd_kafka_queue_new
                              (after_setup t (initial_state c io))) in
    stdout s2 = mk_FILE [] io /\ stats_rx s2 = 0 /\ conf s2 = c /\
    calls s2 = rd_kafka_queue_new :: cs).
  { intros cs. cbn [stdout stats_rx conf calls log_calls log_call].
    rewrite conf_after_setup, calls_after_setup. unfold after_setup.
    destruct (truthy _); cbn; repeat split. }
  destruct (Z.eqb_spec (partition c) RD_KAFKA_PARTITION_UA) as [Hua|Hsel].
  - destruct (start_attempts w (partitions t)) as [pre' [p|]] eqn:Hat; [|discriminate].
    intros H. injection H as <- <-.
    destruct (Hfr (start_calls w c pre')) as (F1 & F2 & F3 & F4).
    apply start_attempts_failed in Hat as (Hp & pre & post & Hps & -> & HF).
    split; [exact F1|]. split; [exact F2|]. split; [exact F3|].
    split; [exact Hp|]. exists t, rest, pre, post.
    split; [reflexivity|]. split; [exact Hps|].
    split; [exact HF|]. split; [exact F4|].
    rewrite F4. cbn [opened_streams].
    apply opened_streams_failed_start; assumption.
  - destruct (index_of (partition c) (partitions t)) as [k|] eqn:Hidx.
    + destruct (Z.eqb_spec (consume_start_ret w (partition c)) (-1)) as [Hr|Hr];
        [|discriminate].
      intros H. injection H as <- <-.
      destruct (Hfr (start_calls w c [partition c])) as (F1 & F2 & F3 & F4).
      split; [exact F1|]. split; [exact F2|]. split; [exact F3|].
      split; [exact Hr|].
      apply index_of_Some in Hidx as [_ Hin].
      apply in_split in Hin as (pre & post & Hps).
      exists t, rest, pre, post.
      split; [reflexivity|]. split; [exact Hps|].
      split; [reflexivity|]. split; [exact F4|].
      cbn [start_calls map] in F4. rewrite F4. cbn [opened_streams].
      rewrite Hr. reflexivity.
    + intros H. injection H as <- <-.
      destruct (Hfr []) as (F1 & F2 & F3 & F4).
      cbn zeta in F1, F2, F3, F4. rewrite log_calls_nil in F1, F2, F3, F4.
      split; [exact F1|]. split; [exact F2|]. split; [exact F3|].
      repeat split; auto. exists t, rest. repeat split.
      apply index_of_None, Hidx.
Qed.

Lemma failure_before_the_loop_witness :
  exists s',
    consumer_begin
      (mk_world 0 (mk_metadata [topic3])
         (fun p => if p =? 1 then -1 else 0) [])
      (initial_state conf0 []) = Fatal (Failed_to_start_consuming 1) s' /\
    stdout s' = mk_FILE [] [] /\ stats_rx s' = 0.
Proof.
  eexists. split; [vm_compute; reflexivity|].
  destruct (failure_before_the_loop
              (mk_world 0 (mk_metadata [topic3])
                 (fun p => if p =? 1 then -1 else 0) [])
              conf0 [] _ _ eq_refl) as (H1 & H2 & _).
  split; [exact H1 | exact H2].
Defined.

(** ** What a whole run does to the configuration and to the library *)

Lemma consume_cb_Fatal_running m s e s' :
  consume_cb m s = Fatal e s' -> truthy (run (conf s')) = true.
Proof.
  destruct (truthy (run (conf s))) eqn:Hrun.
  - rewrite consume_cb_running by exact Hrun.
    destruct (truthy (m_err m)).
    + destruct (_ =? _).
      * destruct (truthy (exit_eof (conf s))); [|discriminate].
        destruct (in_bounds (part_eof s) (m_partition m)) eqn:Hb.
        -- destruct (in_bounds_lookup _ _ Hb) as [v Hv].
           rewrite (mark_eof_eq _ v) by assumption. discriminate.
        -- rewrite mark_eof_out_of_bounds by exact Hb. discriminate.
      * intros H. injection H as _ <-. exact Hrun.
    + rewrite print_then_count.
      pose proof (print_message_stdout_only m s) as Hp.
      destruct (print_message m s) as [[] s1|e1 s1|s1|]; try discriminate.
      destruct Hp as [fp ->]. intros H. injection H as _ <-. exact Hrun.
  - rewrite consume_cb_stopped; [discriminate|]. apply truthy_false, Hrun.
Qed.

Lemma consume_callback_queue_Fatal_running batch s e s' :
  consume_callback_queue batch s = Fatal e s' -> truthy (run (conf s')) = true.
Proof.
  revert s. induction batch as [|m rest IH]; intros s; [discriminate|].
  cbn [consume_callback_queue]. intros H.
  apply bind_Fatal_inv in H as [H | (a & s1 & _ & H)].
  - exact (consume_cb_Fatal_running _ _ _ _ H).
  - exact (IH _ H).
Qed.

(** The consume loop is left through [FATAL], or found waiting for more
    messages, with the run flag still up. *)
Lemma consume_loop_unfinished_running batches s :
  match consume_loop batches s with
  | Fatal _ s' | Polling s' => truthy (run (conf s')) = true
  | _ => True
  end.
Proof.
  revert s. induction batches as [|b rest IH]; intros s; cbn [consume_loop].
  - destruct (truthy (run (conf s))) eqn:Hr; cbn [negb]; [exact Hr | exact I].
  - destruct (truthy (run (conf s))) eqn:Hr; cbn [negb]; [|exact I].
    unfold bind.
    pose proof (consume_callback_queue_ends_later b s) as E.
    destruct (consume_callback_queue b s) as [[] s1|e s1|s1|] eqn:Hq.
    + apply IH.
    + exact (consume_callback_queue_Fatal_running _ _ _ _ Hq).
    + destruct E.
    + exact I.
Qed.

Lemma set_run_same c : run c = 0 -> set_run 0 c = c.
Proof. destruct c. cbn. intros ->. reflexivity. Qed.

Lemma consumer_begin_conf w s :
  match consumer_begin w s with
  | Done _ s' | Fatal _ s' => conf s' = conf s
  | Polling _ | Undefined => False
  end.
Proof.
  rewrite consumer_begin_eq. unfold begin_outcome.
  destruct (truthy (metadata_err w)); [reflexivity|].
  destruct (topics (metadata w)) as [|t rest]; [reflexivity|].
  destruct (truthy (t_err t)); [reflexivity|].
  destruct (partition_cnt t =? 0); [reflexivity|].
  cbv zeta.
  destruct (partition (conf s) =? RD_KAFKA_PARTITION_UA).
  - destruct (start_attempts w (partitions t)) as [pre [p|]];
      cbn [conf log_calls log_call]; apply conf_after_setup.
  - destruct (index_of (partition (conf s)) (partitions t)).
    + destruct (_ =? -1); cbn [conf log_calls log_call]; apply conf_after_setup.
    + cbn [conf log_calls log_call]. apply conf_after_setup.
Qed.

(** X10.  The run flag is all a run changes of the configuration, and
    only a run that returns changes it: when [consumer_main] returns,
    the configuration is the one it was given with [run] at 0; when the
    process leaves through [FATAL], before or inside the consume loop,
    or is still waiting for messages, the configuration is untouched. *)
Theorem run_flag_is_all_a_run_changes
    (w : world) (c : conf_t) (io : list io_result) :
  match consumer_main w (initial_state c io) with
  | Done _ s' => conf s' = set_run 0 c
  | Fatal _ s' | Polling s' => conf s' = c
  | Undefined => True
  end.
Proof.
  unfold consumer_main. unfold bind at 1.
  pose proof (consumer_begin_conf w (initial_state c io)) as Hb.
  destruct (consumer_begin w (initial_state c io)) as [t s1|e s1|s1|];
    [| exact Hb | destruct Hb | exact I].
  cbn [conf initial_state] in Hb.
  unfold bind at 1.
  pose proof (consume_loop_ends_later (polls w) s1) as Hl.
  pose proof (consume_loop_unfinished_running (polls w) s1) as Hr.
  destruct (consume_loop (polls w) s1) as [[] s2|e s2|s2|]; try exact I.
  - destruct Hl as [Hl Hrun].
    unfold bind at 1. rewrite stop_loop_eq.
    unfold bind, modify, gets, ret. cbn [conf log_call log_calls].
    destruct (later_conf _ _ Hl) as [Hc|Hc]; rewrite Hc, Hb; [|reflexivity].
    symmetry. apply set_run_same. rewrite Hc, Hb in Hrun. exact Hrun.
  - cbn in Hl. destruct (later_conf _ _ Hl) as [Hc|Hc]; [congruence|].
    rewrite Hc in Hr. discriminate.
  - cbn in Hl. destruct (later_conf _ _ Hl) as [Hc|Hc]; [congruence|].
    rewrite Hc in Hr. discriminate.
Qed.

Lemma wanted_partitions_all c ps :
  partition c = RD_KAFKA_PARTITION_UA -> wanted_partitions c ps = ps.
Proof.
  intros Hua. unfold wanted_partitions.
  induction ps as [|p rest IH]; [reflexivity|].
  cbn [List.filter]. rewrite (unwanted_all _ _ Hua). cbn [negb].
  f_equal. exact IH.
Qed.

Lemma wanted_partitions_absent c ps :
  partition c <> RD_KAFKA_PARTITION_UA -> ~ In (partition c) ps ->
  wanted_partitions c ps = [].
Proof.
  intros Hne. unfold wanted_partitions.
  induction ps as [|p rest IH]; [reflexivity|].
  intros Hin. cbn [List.filter]. rewrite (unwanted_one _ _ Hne).
  destruct (Z.eqb_spec (partition c) p) as [Heq|Hp].
  - exfalso. apply Hin. left. symmetry. exact Heq.
  - cbn [negb]. apply IH. intros H. apply Hin. right. exact H.
Qed.

Lemma wanted_partitions_one c ps :
  partition c <> RD_KAFKA_PARTITION_UA -> NoDup ps -> In (partition c) ps ->
  wanted_partitions c ps = [partition c].
Proof.
  intros Hne Hnd. induction Hnd as [|p rest Hp Hnd IH]; [intros []|].
  intros Hin. unfold wanted_partitions. cbn [List.filter].
  rewrite (unwanted_one _ _ Hne).
  destruct (Z.eqb_spec (partition c) p) as [Heq|Hp'].
  - cbn [negb]. rewrite Heq. f_equal.
    apply (wanted_partitions_absent c rest Hne). rewrite Heq.
    rewrite <- list_elem_of_In. exact Hp.
  - cbn [negb]. apply IH. destruct Hin as [H|H]; [congruence | exact H].
Qed.

(** X11.  The library calls of a run that returns, in order: the queue
    is created; one stream is started per listed partition (with [-p],
    for that partition alone), each at [conf.offset] and each
    succeeding; after the consume loop every listed partition that is
    wanted is stopped; the queue is destroyed.  The stop loop has no
    [break]: only when the listed partition ids are distinct are the
    streams stopped exactly the streams started. *)
Theorem calls_of_a_run_that_returns
    (w : world) (c : conf_t) (io : list io_result) (code : Z) (s' : state) :
  consumer_main w (initial_state c io) = Done code s' ->
  exists t rest,
    topics (metadata w) = t :: rest /\
    let sel := if partition c =? RD_KAFKA_PARTITION_UA
               then partitions t else [partition c] in
    Forall (fun p => consume_start_ret w p <> -1) sel /\
    calls s' =
      rd_kafka_queue_new :: start_calls w c sel ++
      stop_calls (wanted_partitions c (partitions t)) ++
      [rd_kafka_queue_destroy] /\
    opened_streams (calls s') = sel /\
    closed_streams (calls s') = wanted_partitions c (partitions t) /\
    (NoDup (partitions t) -> wanted_partitions c (partitions t) = sel).
Proof.
  unfold consumer_main. intros H.
  apply bind_Done_inv in H as (t & s1 & Hbegin & H).
  apply bind_Done_inv in H as ([] & s2 & Hloop & H).
  apply bind_Done_inv in H as ([] & s3 & Hstop & H).
  rewrite stop_loop_eq in Hstop. injection Hstop as <-.
  unfold bind, modify, gets, ret in H. injection H as _ <-.
  pose proof (consume_loop_ends_later (polls w) s1) as Hl.
  rewrite Hloop in Hl. destruct Hl as [Hl _].
  pose proof (later_static _ _ Hl) as (_ & Hpart & _).
  destruct (consumer_begin_Done _ _ _ _ Hbegin)
    as (_ & [rest Htop] & _ & _ & sel & Hs1 & HF & Hsel).
  pose proof (consumer_begin_globals _ _ _ _ _ Hbegin) as (Hc & _).
  cbn [conf initial_state] in Hsel, Hs1.
  exists t, rest. split; [exact Htop|]. cbv zeta.
  assert (Hw : wanted_partitions (conf s2) (partitions t) =
               wanted_partitions c (partitions t)).
  { unfold wanted_partitions, unwanted. rewrite Hpart, Hc. reflexivity. }
  assert (Hsel' : (if partition c =? RD_KAFKA_PARTITION_UA
                   then partitions t else [partition c]) = sel).
  { destruct Hsel as [[Hua ->] | (Hne & -> & _)].
    - rewrite Hua, Z.eqb_refl. reflexivity.
    - apply Z.eqb_neq in Hne. rewrite Hne. reflexivity. }
  rewrite Hsel'. split; [exact HF|].
  assert (Hcalls : calls (log_call rd_kafka_queue_destroy
             (log_calls (stop_calls (wanted_partitions (conf s2) (partitions t))) s2)) =
           rd_kafka_queue_new :: start_calls w c sel ++
           stop_calls (wanted_partitions c (partitions t)) ++
           [rd_kafka_queue_destroy]).
  { cbn [calls log_call log_calls]. rewrite (later_calls _ _ Hl), Hw, Hs1.
    cbn [calls log_call log_calls]. rewrite calls_after_setup.
    cbn [calls initial_state app]. rewrite <- app_assoc. reflexivity. }
  split; [exact Hcalls|]. rewrite Hcalls.
  cbn [opened_streams closed_streams].
  rewrite !opened_streams_app, !closed_streams_app.
  rewrite (opened_streams_start_calls _ _ _ HF), closed_streams_start_calls.
  rewrite opened_streams_stop_calls, closed_streams_stop_calls.
  cbn [opened_streams closed_streams app]. rewrite !app_nil_r.
  split; [reflexivity|]. split; [reflexivity|].
  intros Hnd. destruct Hsel as [[Hua ->] | (Hne & -> & Hin)].
  - apply wanted_partitions_all, Hua.
  - apply wanted_partitions_one; assumption.
Qed.

Lemma calls_of_a_run_that_returns_witness :
  exists s',
    consumer_main (world3 [[data_message 1 7 "k" "v"]])
      (initial_state (set_partition 1 (set_msg_cnt 1 conf0)) []) = Done 0 s' /\
    calls s' =
      [rd_kafka_queue_new;
       rd_kafka_consume_start_queue 1 RD_KAFKA_OFFSET_END 0;
       rd_kafka_consume_stop 1;
       rd_kafka_queue_destroy].
Proof.
  eexists. split; [vm_compute; reflexivity|].
  destruct (calls_of_a_run_that_returns
              (world3 [[data_message 1 7 "k" "v"]])
              (set_partition 1 (set_msg_cnt 1 conf0)) [] 0 _ eq_refl)
    as (t & rest & Htop & _ & Hcalls & _).
  injection Htop as <- <-. exact Hcalls.
Defined.

(** ** Records in general *)

Lemma format_key_in_range key c :
  Z.of_nat (length key) <= Int.INT_MAX ->
  format_key (Int.wrap32 (Z.of_nat (length key))) key c =
    Some (c_string key ++ [c]).
Proof.
  intros Hl. unfold format_key.
  rewrite wrap32_id by (unfold Int.in_int, Int.INT_MAX in *; lia).
  destruct (Z.ltb_spec (Z.of_nat (length key)) 0); [lia|].
  rewrite Nat2Z.id, firstn_all. reflexivity.
Qed.

Lemma c_string_fixed s : c_string s = s -> has_nul s = false.
Proof.
  induction s as [|b s IH]; [reflexivity|].
  cbn [c_string has_nul existsb]. destruct (Byte.eqb b Byte.x00); [discriminate|].
  intros H. injection H as H. exact (IH H).
Qed.

(** The two unchecked [fprintf] calls come back whatever the stream does
    with them, and touch nothing but the stream. *)
Lemma print_fields_Done m s :
  key_len m <= Int.INT_MAX ->
  exists fp,
    (when (truthy (Z.land (flags (conf s)) CONF_F_OFFSET))
       (on_stdout (fprintf (format_offset (m_offset m) (key_delim (conf s))))
        >> ret tt) >>
     when (truthy (Z.land (flags (conf s)) CONF_F_KEY_DELIM))
       (match format_key (Int.wrap32 (key_len m)) (m_key m)
                (key_delim (conf s)) with
        | Some bs => on_stdout (fprintf bs) >> ret tt
        | None => undefined
        end)) s = Done tt (with_stdout fp s) /\
    (bare_output (conf s) -> fp = stdout s) /\
    (f_io (stdout s) = [] ->
     fp = mk_FILE (f_data (stdout s) ++
                   (if truthy (Z.land (flags (conf s)) CONF_F_OFFSET)
                    then list_byte_of_string (decimal (m_offset m))
                         ++ [key_delim (conf s)]
                    else []) ++
                   (if truthy (Z.land (flags (conf s)) CONF_F_KEY_DELIM)
                    then c_string (m_key m) ++ [key_delim (conf s)]
                    else [])) []).
Proof.
  intros Hlen. unfold key_len in *. rewrite (format_key_in_range _ _ Hlen).
  unfold bare_output.
  destruct (truthy (Z.land (flags (conf s)) CONF_F_OFFSET)) eqn:Ho;
    destruct (truthy (Z.land (flags (conf s)) CONF_F_KEY_DELIM)) eqn:Hk;
    cbn [when]; unfold bind, on_stdout, fprintf, ret; cbn [stdout with_stdout].
  - destruct (stream_put (format_offset (m_offset m) (key_delim (conf s)))
                (stdout s)) as [ok1 fp1] eqn:H1.
    cbn [stdout with_stdout].
    destruct (stream_put (c_string (m_key m) ++ [key_delim (conf s)]) fp1)
      as [ok2 fp2] eqn:H2.
    exists fp2. split; [reflexivity|]. split; [intros [? _]; discriminate|].
    intros Hio. rewrite (stream_put_ok _ _ Hio) in H1. injection H1 as _ <-.
    rewrite stream_put_ok in H2 by reflexivity. injection H2 as _ <-.
    cbn [f_data]. unfold format_offset, decimal. rewrite <- app_assoc. reflexivity.
  - destruct (stream_put (format_offset (m_offset m) (key_delim (conf s)))
                (stdout s)) as [ok1 fp1] eqn:H1.
    exists fp1. split; [reflexivity|]. split; [intros [? _]; discriminate|].
    intros Hio. rewrite (stream_put_ok _ _ Hio) in H1. injection H1 as _ <-.
    rewrite app_nil_r. reflexivity.
  - destruct (stream_put (c_string (m_key m) ++ [key_delim (conf s)]) (stdout s))
      as [ok2 fp2] eqn:H2.
    exists fp2. split; [reflexivity|]. split; [intros [_ ?]; discriminate|].
    intros Hio. rewrite (stream_put_ok _ _ Hio) in H2. injection H2 as _ <-.
    reflexivity.
  - exists (stdout s). rewrite with_stdout_same. split; [reflexivity|].
    split; [reflexivity|]. intros Hio. rewrite !app_nil_r.
    destruct (stdout s) as [d io]. cbn in *. rewrite Hio. reflexivity.
Qed.

Lemma print_message_fields m s fp :
  (when (truthy (Z.land (flags (conf s)) CONF_F_OFFSET))
     (on_stdout (fprintf (format_offset (m_offset m) (key_delim (conf s))))
      >> ret tt) >>
   when (truthy (Z.land (flags (conf s)) CONF_F_KEY_DELIM))
     (match format_key (Int.wrap32 (key_len m)) (m_key m)
              (key_delim (conf s)) with
      | Some bs => on_stdout (fprintf bs) >> ret tt
      | None => undefined
      end)) s = Done tt (with_stdout fp s) ->
  print_message m s =
    (let* w1 := on_stdout (fwrite (m_payload m)) in
     if negb (w1 =? 1)
     then FATAL (Write_error (len m) (m_offset m))
     else
       let* w2 := on_stdout (fwrite [delim (conf s)]) in
       if negb (w2 =? 1)
       then FATAL (Write_error (len m) (m_offset m))
       else ret tt) (with_stdout fp s).
Proof.
  intros H. apply bind_Done_inv in H as ([] & s1 & H1 & H2).
  unfold print_message. unfold bind at 1, gets at 1.
  rewrite (bind_Done _ _ _ _ _ H1), (bind_Done _ _ _ _ _ H2). reflexivity.
Qed.

(** X12.  A data record with a payload of at least one byte, taken while
    the run is on and every write succeeds, is counted once and comes
    out as: the decimal offset and the key delimiter if offsets are
    printed; the key up to its first NUL byte, then the key delimiter,
    if keys are printed; the payload, whole; the record delimiter.  This
    is the spec's record format exactly if keys are not printed or the
    key holds no NUL byte. *)
Theorem data_record_as_written (m : rd_kafka_message_t) (s : state) :
  truthy (run (conf s)) = true ->
  f_io (stdout s) = [] ->
  m_err m = 0 -> m_payload m <> [] -> key_len m <= Int.INT_MAX ->
  consume_cb m s =
    Done tt (counted (with_stdout
      (mk_FILE (f_data (stdout s) ++ written_record (conf s) m) []) s)) /\
  (written_record (conf s) m = formatted_record (conf s) m <->
   truthy (Z.land (flags (conf s)) CONF_F_KEY_DELIM) = false \/
   has_nul (m_key m) = false).
Proof.
  intros Hrun Hio He Hpay Hlen. split.
  - rewrite consume_cb_running by exact Hrun.
    rewrite He. cbn [truthy Z.eqb negb]. rewrite print_then_count.
    destruct (print_fields_Done m s Hlen) as (fp & Hf & _ & Hfp).
    rewrite (print_message_fields _ _ _ Hf), (Hfp Hio).
    unfold bind at 1, on_stdout at 1, fwrite at 1. cbn [stdout with_stdout].
    destruct (m_payload m) as [|b pay] eqn:Hp; [contradiction|].
    cbn [length Nat.eqb]. rewrite stream_put_ok by reflexivity.
    cbv beta iota zeta. rewrite Z.eqb_refl. cbn [negb].
    unfold bind, on_stdout, fwrite. cbn [stdout with_stdout length Nat.eqb conf].
    rewrite stream_put_ok by reflexivity.
    cbv beta iota zeta. rewrite Z.eqb_refl. cbn [negb f_data].
    unfold ret, written_record. rewrite Hp.
    do 2 f_equal. unfold with_stdout. cbn. f_equal. f_equal.
    rewrite <- !app_assoc. reflexivity.
  - unfold written_record, formatted_record, decimal. split.
    + intros H. apply app_inv_head in H.
      destruct (truthy (Z.land (flags (conf s)) CONF_F_KEY_DELIM));
        [right | left; reflexivity].
      apply app_inv_tail in H. apply app_inv_tail in H.
      apply c_string_fixed, H.
    + intros [Hk | Hn].
      * rewrite Hk. reflexivity.
      * rewrite (c_string_no_nul _ Hn). reflexivity.
Qed.

Lemma data_record_as_written_witness :
  exists s',
    consume_cb
      (mk_message 0 0 42
         (list_byte_of_string "a" ++ [Byte.x00] ++ list_byte_of_string "b")
         (list_byte_of_string "v"))
      (initial_state (set_flags 6 conf0) []) = Done tt s' /\
    f_data (stdout s') =
      list_byte_of_string "42" ++ [Byte.x09] ++
      list_byte_of_string "a" ++ [Byte.x09] ++
      list_byte_of_string "v" ++ [Byte.x0a].
Proof.
  eexists. split.
  - apply (data_record_as_written
             (mk_message 0 0 42
                (list_byte_of_string "a" ++ [Byte.x00] ++ list_byte_of_string "b")
                (list_byte_of_string "v"))
             (initial_state (set_flags 6 conf0) [])
             eq_refl eq_refl eq_refl
             ltac:(discriminate) ltac:(vm_compute; discriminate)).
  - vm_compute. reflexivity.
Defined.

(** X13.  A data record with an empty payload, taken while the run is
    on, always ends the process with the write error, whatever the
    stream does: [fwrite] of no bytes reports no item written.  The
    record is not counted and the configuration is untouched; the
    offset and key, if they are printed, have been handed to the stream
    before, and with neither printed the stream is as it was. *)
Theorem empty_payload_is_a_write_error (m : rd_kafka_message_t) (s : state) :
  truthy (run (conf s)) = true ->
  m_err m = 0 -> m_payload m = [] -> key_len m <= Int.INT_MAX ->
  exists fp,
    consume_cb m s = Fatal (Write_error 0 (m_offset m)) (with_stdout fp s) /\
    (bare_output (conf s) -> fp = stdout s).
Proof.
  intros Hrun He Hpay Hlen.
  destruct (print_fields_Done m s Hlen) as (fp & Hf & Hbare & _).
  exists fp. split; [|exact Hbare].
  rewrite consume_cb_running by exact Hrun.
  rewrite He. cbn [truthy Z.eqb negb]. rewrite print_then_count.
  rewrite (print_message_fields _ _ _ Hf).
  unfold bind, on_stdout, fwrite, len. rewrite Hpay. reflexivity.
Qed.

Lemma empty_payload_is_a_write_error_witness :
  consume_cb (data_message 1 7 "k" EmptyString) (initial_state conf0 [IO_ok]) =
    Fatal (Write_error 0 7) (initial_state conf0 [IO_ok]).
Proof.
  destruct (empty_payload_is_a_write_error
              (data_message 1 7 "k" EmptyString) (initial_state conf0 [IO_ok])
              eq_refl eq_refl eq_refl ltac:(vm_compute; discriminate))
    as (fp & H & Hfp).
  rewrite H, Hfp; [reflexivity | split; reflexivity].
Defined.

Lemma wrapu64_not_positive z :
  Int.LLONG_MIN <= z <= 0 ->
  Int.wrapu64 z = 0 \/ Int.LLONG_MAX < Int.wrapu64 z.
Proof.
  unfold Int.LLONG_MIN, Int.LLONG_MAX, Int.wrapu64. intros H.
  destruct (Z.eq_dec z 0) as [->|Hz]; [left; reflexivity | right].
  rewrite <- (Z_mod_plus_full z 1 (2 ^ 64)).
  rewrite Z.mod_small; lia.
Qed.

(** X14.  A message count of zero (the default) or below is no limit:
    while every write succeeds, plain records are all emitted in the
    spec's format and counted, and the run flag stays up, as long as the
    counter stays within the range of a signed 64-bit integer. *)
Theorem no_limit_without_positive_count
    (msgs : list rd_kafka_message_t) (s : state) :
  truthy (run (conf s)) = true ->
  f_io (stdout s) = [] ->
  Forall plain_record msgs ->
  Int.LLONG_MIN <= msg_cnt (conf s) <= 0 ->
  0 <= stats_rx s ->
  stats_rx s + Z.of_nat (length msgs) <= Int.LLONG_MAX ->
  exists s',
    consume_callback_queue msgs s = Done tt s' /\
    conf s' = conf s /\
    stats_rx s' = stats_rx s + Z.of_nat (length msgs) /\
    stdout s' =
      mk_FILE (f_data (stdout s) ++ concat (map (formatted_record (conf s)) msgs)) [].
Proof.
  revert s. induction msgs as [|m rest IH]; intros s Hrun Hio Hall Hcnt Hrx Hmax.
  - exists s. cbn [consume_callback_queue length map concat]. unfold ret.
    rewrite app_nil_r. repeat split; [lia|].
    destruct (stdout s) as [d io]. cbn in *. rewrite Hio. reflexivity.
  - apply Forall_cons in Hall as [Hm Hrest].
    cbn [consume_callback_queue]. unfold bind.
    rewrite (consume_cb_plain m s Hrun Hio Hm).
    cbn [length] in Hmax.
    assert (Hw : Int.wrapu64 (stats_rx s + 1) = stats_rx s + 1).
    { apply wrapu64_id. unfold Int.LLONG_MAX in Hmax. lia. }
    unfold counted. cbn [stats_rx with_stats_rx conf with_stdout].
    rewrite Hw.
    destruct (Z.eqb_spec (stats_rx s + 1) (Int.wrapu64 (msg_cnt (conf s))))
      as [Heq|_].
    { exfalso. destruct (wrapu64_not_positive _ Hcnt) as [H0|H0]; lia. }
    destruct (IH (with_stats_rx (stats_rx s + 1)
                    (with_stdout
                       (mk_FILE (f_data (stdout s) ++
                                 formatted_record (conf s) m) []) s)))
      as (s' & Hq & Hc & Hn & Hout);
      [exact Hrun | reflexivity | exact Hrest | exact Hcnt
      | cbn [stats_rx with_stats_rx]; lia
      | cbn [stats_rx with_stats_rx]; lia |].
    exists s'. split; [exact Hq|].
    cbn [stats_rx with_stats_rx conf with_stdout stdout f_data] in Hc, Hn, Hout.
    split; [exact Hc|]. split; [rewrite Hn; cbn [length]; lia|].
    rewrite Hout. cbn [map concat]. rewrite <- app_assoc. reflexivity.
Qed.

Lemma no_limit_without_positive_count_witness :
  exists s',
    consume_callback_queue
      [data_message 0 1 "k" "v"; data_message 0 2 "k" "w"]
      (initial_state (set_msg_cnt (-1) conf0) []) = Done tt s' /\
    run (conf s') = 1 /\ stats_rx s' = 2.
Proof.
  destruct (no_limit_without_positive_count
              [data_message 0 1 "k" "v"; data_message 0 2 "k" "w"]
              (initial_state (set_msg_cnt (-1) conf0) []))
    as (s' & Hq & Hc & Hn & _).
  - reflexivity.
  - reflexivity.
  - repeat constructor; vm_compute; try discriminate; reflexivity.
  - vm_compute. split; discriminate.
  - vm_compute. discriminate.
  - vm_compute. discriminate.
  - exists s'. split; [exact Hq|]. split; [rewrite Hc; reflexivity | exact Hn].
Defined.

(** ** End-of-partition messages, over a whole run *)

Lemma count_eof_full a :
  Z.of_nat (length a) <= count_eof a <->
  (forall i v, a !! i = Some v -> truthy v = true).
Proof.
  induction a as [|x a IH].
  - split; [intros _ i v H; discriminate | intros _; unfold count_eof; cbn; lia].
  - rewrite count_eof_cons. cbn [length].
    pose proof (count_eof_bounds a) as Hb. split.
    + intros H. destruct (truthy x) eqn:Hx; [|lia].
      assert (Ha : Z.of_nat (length a) <= count_eof a) by lia.
      intros [|i] v Hv.
      * cbn in Hv. injection Hv as <-. exact Hx.
      * apply (proj1 IH Ha i v Hv).
    + intros H. rewrite (H 0%nat x eq_refl).
      assert (Ha : Z.of_nat (length a) <= count_eof a).
      { apply IH. intros i v Hv. exact (H (S i) v Hv). }
      lia.
Qed.

Lemma count_eof_pos a i v :
  a !! i = Some v -> truthy v = true -> 1 <= count_eof a.
Proof.
  revert i. induction a as [|x a IH]; intros i Hi Hv; [discriminate|].
  rewrite count_eof_cons. pose proof (count_eof_bounds a) as Hb.
  destruct i as [|i].
  - cbn in Hi. injection Hi as ->. rewrite Hv. lia.
  - cbn in Hi. specialize (IH i Hi Hv). destruct (truthy x); lia.
Qed.

Lemma at_eof_lookup s p :
  at_eof s p = true <->
  in_bounds (part_eof s) p = true /\
  exists v, part_eof s !! Z.to_nat p = Some v /\ truthy v = true.
Proof.
  unfold at_eof. split.
  - intros H. apply andb_true_iff in H as [Hb H]. split; [exact Hb|].
    destruct (part_eof s !! Z.to_nat p) as [v|]; [|discriminate].
    exists v. split; [reflexivity | exact H].
  - intros (Hb & v & Hv & Ht). rewrite Hb, Hv. exact Ht.
Qed.

Lemma in_bounds_range a p :
  in_bounds a p = true <-> 0 <= p < Z.of_nat (length a).
Proof.
  unfold in_bounds. rewrite andb_true_iff, Z.leb_le, Z.ltb_lt. reflexivity.
Qed.

(** The count has reached the length of the array exactly when every
    flag in it is set. *)
Lemma all_at_eof s :
  part_eof_cnt s = count_eof (part_eof s) ->
  (Z.of_nat (length (part_eof s)) <= part_eof_cnt s <->
   forall p, 0 <= p < Z.of_nat (length (part_eof s)) -> at_eof s p = true).
Proof.
  intros ->. rewrite count_eof_full. split.
  - intros H p Hp. apply at_eof_lookup. split; [apply in_bounds_range, Hp|].
    destruct (lookup_lt_is_Some_2 (part_eof s) (Z.to_nat p)) as [v Hv]; [lia|].
    exists v. split; [exact Hv | exact (H _ _ Hv)].
  - intros H i v Hv.
    assert (Hi : (i < length (part_eof s))%nat).
    { apply lookup_lt_is_Some_1. exists v. exact Hv. }
    assert (Hat : at_eof s (Z.of_nat i) = true) by (apply H; lia).
    apply at_eof_lookup in Hat as (_ & v' & Hv' & Ht).
    rewrite Nat2Z.id, Hv in Hv'. injection Hv' as <-. exact Ht.
Qed.

(** One end-of-partition message, taken with exit-on-EOF while the run
    is on. *)
Lemma consume_cb_eof_step m s :
  eof_inv s ->
  truthy (run (conf s)) = true ->
  truthy (exit_eof (conf s)) = true ->
  m_err m = RD_KAFKA_RESP_ERR__PARTITION_EOF ->
  in_bounds (part_eof s) (m_partition m) = true ->
  exists s',
    consume_cb m s = Done tt s' /\
    (forall q, at_eof s' q = (q =? m_partition m) || at_eof s q) /\
    (run (conf s') = 0 <-> part_eof_thres s' <= part_eof_cnt s').
Proof.
  intros Hinv Hrun He Herr Hb.
  rewrite consume_cb_running by exact Hrun.
  rewrite Herr. change (truthy RD_KAFKA_RESP_ERR__PARTITION_EOF) with true.
  rewrite Z.eqb_refl, He. cbv iota.
  destruct (in_bounds_lookup _ _ Hb) as [v Hv].
  rewrite (mark_eof_eq _ v) by assumption.
  assert (Hat : at_eof s (m_partition m) = truthy v).
  { unfold at_eof. rewrite Hb, Hv. reflexivity. }
  destruct (truthy v) eqn:Hz.
  - exists s. split; [reflexivity|]. split.
    + intros q. destruct (Z.eqb_spec q (m_partition m)) as [->|_];
        [rewrite Hat|]; reflexivity.
    + split.
      * intros H0. apply truthy_true in Hrun. contradiction.
      * intros Hle. pose proof (inv_running _ Hinv Hrun He). lia.
  - exists (marked (m_partition m) s). split; [reflexivity|]. split.
    + intros q. rewrite at_eof_marked by exact Hb.
      destruct (q =? m_partition m); reflexivity.
    + destruct (eof_inv_marked (m_partition m) s Hinv Hrun He Hb) as [_ Hcnt].
      { right. exists v. split; assumption. }
      destruct (marked_fields (m_partition m) s) as (Hth & Hw & Hr).
      rewrite Hth, Hcnt, Hr, <- Hw, Hcnt.
      destruct (Z.leb_spec (part_eof_thres s) (part_eof_cnt s + 1)).
      * split; [intros _; assumption | reflexivity].
      * split; [|lia]. intros H0. apply truthy_true in Hrun. contradiction.
Qed.

(** A sequence of end-of-partition messages, taken with exit-on-EOF
    from a state in which the run flag is down exactly if the threshold
    is reached: every flag set at the end was set before or belongs to
    one of the messages; and if the run is still on at the end, all of
    the messages have been recorded. *)
Lemma consume_eof_messages n msgs :
  forall s,
    eof_inv s ->
    truthy (exit_eof (conf s)) = true ->
    Z.of_nat (length (part_eof s)) = n ->
    (run (conf s) = 0 <-> part_eof_thres s <= part_eof_cnt s) ->
    Forall (fun m => m_err m = RD_KAFKA_RESP_ERR__PARTITION_EOF /\
                     0 <= m_partition m < n) msgs ->
    exists s',
      consume_callback_queue msgs s = Done tt s' /\
      (run (conf s') = 0 <-> part_eof_thres s' <= part_eof_cnt s') /\
      (forall p, at_eof s' p = true ->
                 at_eof s p = true \/ In p (map m_partition msgs)) /\
      (truthy (run (conf s')) = true ->
       forall p, at_eof s p = true \/ In p (map m_partition msgs) ->
                 at_eof s' p = true).
Proof.
  induction msgs as [|m rest IH]; intros s Hinv He Hlen Hstop Hall.
  - exists s. split; [reflexivity|]. split; [exact Hstop|].
    split; [intros p Hp; left; exact Hp|].
    intros _ p [Hp|[]]. exact Hp.
  - apply Forall_cons in Hall as [[Herr Hp] Hrest].
    destruct (truthy (run (conf s))) eqn:Hrun.
    + assert (Hb : in_bounds (part_eof s) (m_partition m) = true).
      { apply in_bounds_range. lia. }
      destruct (consume_cb_eof_step m s Hinv Hrun He Herr Hb)
        as (s1 & H1 & Hat1 & Hstop1).
      pose proof (consume_cb_eof_inv _ _ _ Hinv H1) as Hinv1.
      pose proof (consume_cb_later _ _ _ H1) as Hl.
      pose proof (later_static _ _ Hl) as (He1 & _).
      destruct (IH s1) as (s' & Hq & Hstop' & Ha & Hb').
      * exact Hinv1.
      * rewrite He1. exact He.
      * rewrite (later_length _ _ Hl). exact Hlen.
      * exact Hstop1.
      * exact Hrest.
      * exists s'. split.
        { cbn [consume_callback_queue]. rewrite (bind_Done _ _ _ _ _ H1). exact Hq. }
        split; [exact Hstop'|]. split.
        -- intros p Hset. destruct (Ha p Hset) as [H|H].
           ++ rewrite Hat1 in H. apply orb_true_iff in H as [H|H].
              ** right. left. apply Z.eqb_eq in H. symmetry. exact H.
              ** left. exact H.
           ++ right. right. exact H.
        -- intros Hrun' p Hseen. apply (Hb' Hrun').
           destruct Hseen as [Hs|[Hs|Hs]].
           ++ left. rewrite Hat1, Hs. apply orb_true_r.
           ++ left. rewrite Hat1, <- Hs, Z.eqb_refl. reflexivity.
           ++ right. exact Hs.
    + apply truthy_false in Hrun. exists s.
      split; [apply consume_callback_queue_stopped, Hrun|].
      split; [exact Hstop|]. split; [intros p Hset; left; exact Hset|].
      intros Hrun'. apply truthy_true in Hrun'. contradiction.
Qed.

(** X15.  With exit-on-EOF, a run that has got to the consume loop and
    then receives end-of-partition messages only (for partitions within
    the array) has its run flag down afterwards exactly if: all
    partitions being wanted, every partition 0..n-1 of the topic is
    among the messages; with [-p], there was a message at all. *)
Theorem eof_messages_end_the_run
    (w : world) (c : conf_t) (io : list io_result)
    (t : rd_kafka_metadata_topic) (s1 : state)
    (msgs : list rd_kafka_message_t) :
  consumer_begin w (initial_state c io) = Done t s1 ->
  truthy (exit_eof c) = true ->
  truthy (run c) = true ->
  partition_cnt t <= Int.INT_MAX ->
  Forall (fun m => m_err m = RD_KAFKA_RESP_ERR__PARTITION_EOF /\
                   0 <= m_partition m < partition_cnt t) msgs ->
  exists s2,
    consume_callback_queue msgs s1 = Done tt s2 /\
    (run (conf s2) = 0 <->
     if partition c =? RD_KAFKA_PARTITION_UA
     then forall p, 0 <= p < partition_cnt t -> In p (map m_partition msgs)
     else msgs <> []).
Proof.
  intros Hbegin Hexit Hrun Hmax Hall.
  pose proof (consumer_begin_globals _ _ _ _ _ Hbegin) as (Hc & _ & _ & Hcnt & Hon & _).
  destruct (Hon Hexit) as [Ha Ht].
  pose proof (consumer_begin_eof_inv _ _ _ _ _ Hbegin Hmax) as Hinv1.
  destruct (consumer_begin_Done _ _ _ _ Hbegin) as (_ & _ & _ & Hne & _).
  assert (Hpos : 0 < partition_cnt t) by (unfold partition_cnt in *; lia).
  assert (Hlen : Z.of_nat (length (part_eof s1)) = partition_cnt t).
  { rewrite Ha, length_replicate. lia. }
  assert (Hnone : forall p, at_eof s1 p = false).
  { intros p. unfold at_eof. rewrite Ha.
    destruct (replicate (Z.to_nat (partition_cnt t)) 0 !! Z.to_nat p) as [v|] eqn:Hv;
      [|apply andb_false_r].
    apply lookup_replicate in Hv as [-> _]. apply andb_false_r. }
  destruct (consume_eof_messages (partition_cnt t) msgs s1) as (s2 & Hq & Hstop & Hin & Hrec).
  - exact Hinv1.
  - rewrite Hc. exact Hexit.
  - exact Hlen.
  - rewrite Hc, Hcnt, Ht. split.
    + intros H0. apply truthy_true in Hrun. contradiction.
    + destruct (_ =? _); lia.
  - exact Hall.
  - exists s2. split; [exact Hq|]. rewrite Hstop.
    pose proof (consume_callback_queue_later _ _ _ Hq) as Hl.
    pose proof (consume_callback_queue_eof_inv _ _ _ Hinv1 Hq) as Hinv2.
    assert (Hlen2 : Z.of_nat (length (part_eof s2)) = partition_cnt t).
    { rewrite (later_length _ _ Hl). exact Hlen. }
    rewrite (later_thres _ _ Hl), Ht.
    destruct (Z.eqb_spec (partition c) RD_KAFKA_PARTITION_UA) as [Hua|Hsel].
    + rewrite <- Hlen2, (all_at_eof s2 (inv_count _ Hinv2)), Hlen2. split.
      * intros H p Hp. destruct (Hin p (H p Hp)) as [H0|H0]; [|exact H0].
        rewrite Hnone in H0. discriminate.
      * intros H p Hp.
        destruct (truthy (run (conf s2))) eqn:Hrun2.
        -- apply (Hrec eq_refl). right. exact (H p Hp).
        -- apply truthy_false in Hrun2. apply Hstop in Hrun2.
           rewrite (later_thres _ _ Hl), Ht in Hrun2.
           rewrite <- Hlen2 in Hrun2.
           apply (proj1 (all_at_eof s2 (inv_count _ Hinv2)) Hrun2). lia.
    + split.
      * intros H ->. cbn in Hq. injection Hq as <-. lia.
      * intros Hmsgs. destruct msgs as [|m rest]; [contradiction|].
        destruct (truthy (run (conf s2))) eqn:Hrun2.
        -- assert (Hat : at_eof s2 (m_partition m) = true).
           { apply (Hrec eq_refl). right. left. reflexivity. }
           apply at_eof_lookup in Hat as (_ & v & Hv & Hv').
           rewrite (inv_count _ Hinv2). exact (count_eof_pos _ _ _ Hv Hv').
        -- apply truthy_false in Hrun2. apply Hstop in Hrun2.
           rewrite (later_thres _ _ Hl), Ht in Hrun2. exact Hrun2.
Qed.

Lemma eof_messages_end_the_run_witness :
  exists s2,
    consume_callback_queue
      [eof_message 2 9; eof_message 0 4; eof_message 2 9; eof_message 1 7]
      (state_after (world3 []) (set_exit_eof 1 conf0) [] []) = Done tt s2 /\
    run (conf s2) = 0.
Proof.
  destruct (eof_messages_end_the_run
              (world3 []) (set_exit_eof 1 conf0) [] topic3
              (state_after (world3 []) (set_exit_eof 1 conf0) [] [])
              [eof_message 2 9; eof_message 0 4; eof_message 2 9; eof_message 1 7])
    as (s2 & Hq & Hstop).
  - reflexivity.
  - reflexivity.
  - reflexivity.
  - vm_compute. discriminate.
  - repeat constructor; vm_compute; congruence.
  - exists s2. split; [exact Hq|]. apply Hstop.
    change (set_exit_eof 1 conf0).(partition) with RD_KAFKA_PARTITION_UA.
    rewrite Z.eqb_refl. change (partition_cnt topic3) with 3.
    intros p Hp. cbn [map m_partition eof_message].
    assert (Hcases : p = 0 \/ p = 1 \/ p = 2) by lia.
    destruct Hcases as [-> | [-> | ->]]; cbn; tauto.
Defined.

(** X16.  The array [part_eof] has one element per listed partition and
    is indexed by the partition id of the message: with exit-on-EOF, an
    end-of-partition message whose partition id is not in
    0..partition_cnt-1, taken at any point of a run that is still on,
    makes the callback read [part_eof] outside the array, which C leaves
    undefined; nothing checks the id against the partition count. *)
Theorem eof_outside_the_array
    (w : world) (c : conf_t) (io : list io_result)
    (t : rd_kafka_metadata_topic) (s1 s2 : state)
    (msgs : list rd_kafka_message_t) (m : rd_kafka_message_t) :
  consumer_begin w (initial_state c io) = Done t s1 ->
  consume_callback_queue msgs s1 = Done tt s2 ->
  truthy (exit_eof c) = true ->
  truthy (run (conf s2)) = true ->
  m_err m = RD_KAFKA_RESP_ERR__PARTITION_EOF ->
  ~ (0 <= m_partition m < partition_cnt t) ->
  consume_cb m s2 = Undefined.
Proof.
  intros Hbegin Hq Hexit Hrun Herr Hout.
  pose proof (consumer_begin_globals _ _ _ _ _ Hbegin) as (Hc & _ & _ & _ & Hon & _).
  destruct (Hon Hexit) as [Ha _].
  pose proof (consume_callback_queue_later _ _ _ Hq) as Hl.
  pose proof (later_static _ _ Hl) as (He & _).
  rewrite consume_cb_running by exact Hrun.
  rewrite Herr. change (truthy RD_KAFKA_RESP_ERR__PARTITION_EOF) with true.
  rewrite Z.eqb_refl, He, Hc, Hexit. cbv iota.
  apply mark_eof_out_of_bounds.
  destruct (in_bounds (part_eof s2) (m_partition m)) eqn:Hb; [|reflexivity].
  exfalso. apply Hout. apply in_bounds_range in Hb.
  rewrite (later_length _ _ Hl), Ha, length_replicate in Hb.
  unfold partition_cnt in *. lia.
Qed.

Lemma eof_outside_the_array_witness :
  consume_cb (eof_message 2 5)
    (state_after
       (mk_world 0 (mk_metadata [mk_topic 0 [0; 2]]) (fun _ => 0) [])
       (set_exit_eof 1 conf0) [] []) = Undefined.
Proof.
  apply (eof_outside_the_array
           (mk_world 0 (mk_metadata [mk_topic 0 [0; 2]]) (fun _ => 0) [])
           (set_exit_eof 1 conf0) [] (mk_topic 0 [0; 2])
           (state_after
              (mk_world 0 (mk_metadata [mk_topic 0 [0; 2]]) (fun _ => 0) [])
              (set_exit_eof 1 conf0) [] [])
           (state_after
              (mk_world 0 (mk_metadata [mk_topic 0 [0; 2]]) (fun _ => 0) [])
              (set_exit_eof 1 conf0) [] [])
           [] (eof_message 2 5));
    try reflexivity.
  unfold partition_cnt. cbn. lia.
Defined.

(** ** Leaving the option loop, and the diagnostics switches *)

Section Exits.

Variable parse_delim : string -> Byte.byte.
Variables topic_conf_set conf_set : string -> string -> rd_kafka_conf_res_t.

Lemma argparse_X_exit optarg c st :
  argparse_X topic_conf_set conf_set optarg c = ArgExit st ->
  st = 1 \/ (st = 0 /\ (optarg = "list"%string \/ optarg = "help"%string)).
Proof.
  unfold argparse_X.
  destruct (String.eqb_spec optarg "list") as [->|Hl].
  { intros H. injection H as <-. right. auto. }
  destruct (String.eqb_spec optarg "help") as [->|Hh].
  { intros H. injection H as <-. right. auto. }
  cbn [orb].
  destruct (String.eqb optarg "dump"); [discriminate|].
  destruct (split_eq optarg) as [[name val]|];
    [|intros H; injection H as <-; left; reflexivity].
  destruct (conf_res_eqb _ RD_KAFKA_CONF_OK); [discriminate|].
  intros H. injection H as <-. left. reflexivity.
Qed.

Lemma argparse_opt_exit o a c st :
  argparse_opt parse_delim topic_conf_set conf_set o a c = ArgExit st ->
  st = 1 \/ (st = 0 /\ asks_for_properties (o, a)).
Proof.
  unfold argparse_opt, asks_for_properties.
  repeat (match goal with
          | |- context [Ascii.eqb o ?x] =>
              destruct (Ascii.eqb_spec o x) as [->|?]; [try discriminate|]
          end).
  - intros H. apply argparse_X_exit in H as [H | [H1 H2]]; [left | right]; auto.
  - intros H. injection H as <-. left. reflexivity.
Qed.

Lemma argparse_opt_properties o a c :
  asks_for_properties (o, a) ->
  argparse_opt parse_delim topic_conf_set conf_set o a c = ArgExit 0.
Proof.
  intros [Ho Ha]. cbn [fst snd] in Ho, Ha. subst o.
  unfold argparse_opt. cbn. unfold argparse_X.
  destruct Ha as [-> | ->]; reflexivity.
Qed.

Lemma argparse_opts_app pre rest c :
  argparse_opts parse_delim topic_conf_set conf_set (pre ++ rest) c =
  match argparse_opts parse_delim topic_conf_set conf_set pre c with
  | ArgNext c1 => argparse_opts parse_delim topic_conf_set conf_set rest c1
  | ArgExit st => ArgExit st
  end.
Proof.
  revert c. induction pre as [|[o a] pre IH]; intros c; [reflexivity|].
  cbn [app argparse_opts].
  destruct (argparse_opt parse_delim topic_conf_set conf_set o a c);
    [apply IH | reflexivity].
Qed.

(** The option loop is left at the first option that ends the
    process. *)
Lemma argparse_opts_exit opts c st :
  argparse_opts parse_delim topic_conf_set conf_set opts c = ArgExit st ->
  exists pre o post c1,
    opts = pre ++ o :: post /\
    argparse_opts parse_delim topic_conf_set conf_set pre c = ArgNext c1 /\
    argparse_opt parse_delim topic_conf_set conf_set (fst o) (snd o) c1 = ArgExit st.
Proof.
  revert c. induction opts as [|[o a] rest IH]; intros c; [discriminate|].
  cbn [argparse_opts].
  destruct (argparse_opt parse_delim topic_conf_set conf_set o a c)
    as [c1|st1] eqn:H1.
  - intros H. destruct (IH _ H) as (pre & o' & post & c2 & -> & Hpre & Ho).
    exists ((o, a) :: pre), o', post, c2. split; [reflexivity|].
    split; [|exact Ho]. cbn [argparse_opts]. rewrite H1. exact Hpre.
  - intros H. injection H as <-.
    exists [], (o, a), rest, c. repeat split. exact H1.
Qed.

(** What one option does to the two diagnostics fields. *)
Lemma argparse_opt_diagnostics o a c c1 :
  argparse_opt parse_delim topic_conf_set conf_set o a c = ArgNext c1 ->
  verbosity c1 =
    (if Ascii.eqb o "q" then 0
     else if Ascii.eqb o "v" then Int.wrap32 (verbosity c + 1)
     else verbosity c) /\
  (conf_dump c1 = conf_dump c \/
   (conf_dump c1 = 1 /\ o = "X"%char /\ a = "dump"%string)) /\
  (o = "X"%char -> a = "dump"%string -> conf_dump c1 = 1).
Proof.
  unfold argparse_opt.
  repeat (match goal with
          | |- context [Ascii.eqb o ?x] =>
              destruct (Ascii.eqb_spec o x) as [->|?];
              [try (intros H; injection H as <-; cbn;
                    repeat split; try (left; reflexivity); discriminate)|]
          end).
  - unfold argparse_X. destruct (_ || _); [discriminate|].
    destruct (String.eqb_spec a "dump") as [->|Hd].
    + intros H. injection H as <-. cbn. repeat split. right. auto.
    + destruct (split_eq a) as [[name val]|]; [|discriminate].
      destruct (conf_res_eqb _ RD_KAFKA_CONF_OK); [|discriminate].
      intros H. injection H as <-. cbn. repeat split; [left; reflexivity|].
      intros _ Ha. contradiction.
  - discriminate.
Qed.

End Exits.

(** X17.  [consumer_argparse] ends the process with status 0 or 1 only,
    and with 0 exactly if [-X list] or [-X help] occurs and every option
    before its first occurrence is accepted: what follows it, operands
    and broker list included, is not looked at. *)
Theorem exit_status_of_the_command_line
    (parse_delim : string -> Byte.byte)
    (topic_conf_set conf_set : string -> string -> rd_kafka_conf_res_t)
    (opts : list (ascii * string)) (operands : list string) (c : conf_t) :
  (forall st,
      consumer_argparse parse_delim topic_conf_set conf_set opts operands c
        = ArgExit st -> st = 0 \/ st = 1) /\
  (consumer_argparse parse_delim topic_conf_set conf_set opts operands c
     = ArgExit 0 <->
   exists pre o post c1,
     opts = pre ++ o :: post /\ asks_for_properties o /\
     argparse_opts parse_delim topic_conf_set conf_set pre c = ArgNext c1).
Proof.
  assert (Hexit : forall st,
    consumer_argparse parse_delim topic_conf_set conf_set opts operands c
      = ArgExit st ->
    st = 1 \/
    (st = 0 /\ exists pre o post c1,
       opts = pre ++ o :: post /\ asks_for_properties o /\
       argparse_opts parse_delim topic_conf_set conf_set pre c = ArgNext c1)).
  { intros st. unfold consumer_argparse.
    destruct (argparse_opts parse_delim topic_conf_set conf_set opts c)
      as [c1|st1] eqn:Hopts.
    - destruct operands as [|t rest]; [intros H; injection H as <-; auto|].
      destruct (conf_res_eqb _ RD_KAFKA_CONF_OK); [discriminate|].
      intros H. injection H as <-. auto.
    - intros H. injection H as ->.
      apply argparse_opts_exit in Hopts as (pre & [o a] & post & c1 & -> & Hpre & Ho).
      cbn [fst snd] in Ho.
      apply argparse_opt_exit in Ho as [-> | [-> Hx]]; [auto|].
      right. split; [reflexivity|]. exists pre, (o, a), post, c1. auto. }
  split.
  - intros st H. destruct (Hexit st H) as [-> | [-> _]]; auto.
  - split.
    + intros H. destruct (Hexit 0 H) as [H0 | [_ H0]]; [discriminate | exact H0].
    + intros (pre & [o a] & post & c1 & -> & Hx & Hpre).
      unfold consumer_argparse. rewrite argparse_opts_app, Hpre.
      cbn [argparse_opts]. rewrite (argparse_opt_properties _ _ _ _ _ _ Hx).
      reflexivity.
Qed.

Lemma after_last_none opt opts :
  occurs opt opts = false -> after_last opt opts = opts.
Proof.
  destruct opts as [|[o a] rest]; [reflexivity|].
  unfold occurs. cbn [existsb fst after_last]. intros H.
  apply orb_false_iff in H as [Ho Hrest].
  unfold occurs. rewrite Hrest, Ho. reflexivity.
Qed.

Lemma wrap32_range z : Int.in_int (Int.wrap32 z).
Proof.
  unfold Int.in_int, Int.INT_MAX, Int.wrap32.
  pose proof (Z.mod_pos_bound (z + 2 ^ 31) (2 ^ 32)). lia.
Qed.

Lemma argparse_opts_verbosity parse_delim topic_conf_set conf_set opts :
  forall c c',
    argparse_opts parse_delim topic_conf_set conf_set opts c = ArgNext c' ->
    Int.in_int (verbosity c) ->
    (if occurs "q" opts then 0 else verbosity c) +
      count_opt "v" (after_last "q" opts) <= Int.INT_MAX ->
    verbosity c' =
      (if occurs "q" opts then 0 else verbosity c) +
      count_opt "v" (after_last "q" opts).
Proof.
  induction opts as [|[o a] rest IH]; intros c c' H Hin Hmax.
  - cbn in H. injection H as <-. unfold occurs, count_opt.
    cbn [existsb after_last List.filter length]. lia.
  - cbn [argparse_opts] in H.
    destruct (argparse_opt parse_delim topic_conf_set conf_set o a c)
      as [c1|] eqn:H1; [|discriminate].
    apply argparse_opt_diagnostics in H1 as (Hv & _).
    assert (Hin1 : Int.in_int (verbosity c1)).
    { rewrite Hv. destruct (Ascii.eqb o "q");
        [unfold Int.in_int, Int.INT_MAX; lia|].
      destruct (Ascii.eqb o "v"); [apply wrap32_range | exact Hin]. }
    specialize (IH c1 c' H Hin1).
    unfold occurs in Hmax |- *. cbn [existsb fst after_last] in Hmax |- *.
    fold (occurs "q" rest) in Hmax, IH |- *.
    destruct (occurs "q" rest) eqn:Hq.
    + rewrite orb_true_r in Hmax |- *. apply IH. exact Hmax.
    + rewrite orb_false_r in Hmax |- *.
      rewrite (after_last_none _ _ Hq) in IH.
      destruct (Ascii.eqb_spec o "q") as [->|Hoq].
      * rewrite Hv in IH. cbn in IH. apply IH. exact Hmax.
      * unfold count_opt in Hmax, IH |- *. cbn [List.filter fst] in Hmax |- *.
        destruct (Ascii.eqb_spec o "v") as [->|Hov].
        -- cbn [length] in Hmax |- *.
           assert (Hw : Int.wrap32 (verbosity c + 1) = verbosity c + 1).
           { apply wrap32_id. unfold Int.in_int, Int.INT_MAX in *. lia. }
           rewrite Hv in IH. cbn in IH. rewrite Hw in IH.
           rewrite IH; lia.
        -- rewrite Hv in IH. apply IH. exact Hmax.
Qed.

Lemma argparse_opts_conf_dump parse_delim topic_conf_set conf_set opts :
  forall c c',
    argparse_opts parse_delim topic_conf_set conf_set opts c = ArgNext c' ->
    (conf_dump c' = 1 <->
     conf_dump c = 1 \/ In ("X"%char, "dump"%string) opts).
Proof.
  induction opts as [|[o a] rest IH]; intros c c' H.
  - cbn in H. injection H as <-. cbn. tauto.
  - cbn [argparse_opts] in H.
    destruct (argparse_opt parse_delim topic_conf_set conf_set o a c)
      as [c1|] eqn:H1; [|discriminate].
    apply argparse_opt_diagnostics in H1 as (_ & Hd & Hx).
    rewrite (IH _ _ H). cbn [In]. split.
    + intros [H0 | H0]; [|auto].
      destruct Hd as [Hd | (_ & -> & ->)]; [left; congruence | auto].
    + intros [H0 | [H0 | H0]]; [| |auto].
      * left. destruct Hd as [Hd | (Hd & _)]; congruence.
      * injection H0 as -> ->. left. apply Hx; reflexivity.
Qed.

(** X18.  After a command line that [consumer_argparse] accepts, the
    verbosity is the number of [-v] options that follow the last [-q],
    counted from 0, or from the earlier verbosity if there is no [-q]
    (as long as that stays within [int]); and the configuration dump is
    on exactly if it was on before or [-X dump] occurs. *)
Theorem diagnostics_switches
    (parse_delim : string -> Byte.byte)
    (topic_conf_set conf_set : string -> string -> rd_kafka_conf_res_t)
    (opts : list (ascii * string)) (operands : list string) (c c' : conf_t) :
  consumer_argparse parse_delim topic_conf_set conf_set opts operands c
    = ArgNext c' ->
  Int.in_int (verbosity c) ->
  (if occurs "q" opts then 0 else verbosity c) +
    count_opt "v" (after_last "q" opts) <= Int.INT_MAX ->
  verbosity c' =
    (if occurs "q" opts then 0 else verbosity c) +
    count_opt "v" (after_last "q" opts) /\
  (conf_dump c' = 1 <->
   conf_dump c = 1 \/ In ("X"%char, "dump"%string) opts).
Proof.
  unfold consumer_argparse.
  destruct (argparse_opts parse_delim topic_conf_set conf_set opts c)
    as [c1|] eqn:Hopts; [|discriminate].
  destruct operands as [|t rest]; [discriminate|].
  destruct (conf_res_eqb _ RD_KAFKA_CONF_OK); [|discriminate].
  intros H Hin Hmax. injection H as <-. cbn [verbosity conf_dump set_topic].
  split.
  - exact (argparse_opts_verbosity _ _ _ _ _ _ Hopts Hin Hmax).
  - exact (argparse_opts_conf_dump _ _ _ _ _ _ Hopts).
Qed.

Lemma diagnostics_switches_witness :
  exists c',
    consumer_argparse parse_delim0 conf_set0 conf_set0
      [("v"%char, EmptyString); ("v"%char, EmptyString);
       ("q"%char, EmptyString); ("X"%char, "dump"%string);
       ("v"%char, EmptyString)] ["events"%string] conf0 = ArgNext c' /\
    verbosity c' = 1 /\ conf_dump c' = 1.
Proof.
  eexists. split; [vm_compute; reflexivity|].
  destruct (diagnostics_switches parse_delim0 conf_set0 conf_set0
              [("v"%char, EmptyString); ("v"%char, EmptyString);
               ("q"%char, EmptyString); ("X"%char, "dump"%string);
               ("v"%char, EmptyString)] ["events"%string] conf0 _ eq_refl)
    as (Hv & Hd).
  - vm_compute. split; discriminate.
  - vm_compute. discriminate.
  - split; [exact Hv|]. apply Hd. right. cbn. tauto.
Defined.

(** X19.  The two checked [fwrite] calls of a data record (here with
    neither offset nor key printed), by what the calls report: if the
    [fwrite] of the payload reports its item not written, the stream
    having taken only the first [n] bytes of it, [FATAL] is called with
    the write error, those bytes with the stream, the delimiter not
    handed over and the record not counted; if the payload is taken but
    the [fwrite] of the delimiter reports its item not written, [FATAL]
    is called with the same error, the payload with the stream and no
    delimiter after it.  On a buffered [stdout] (no [-u]) a write the
    device refuses is reported by the call that flushes the buffer, so
    the record whose [fwrite] reports it need not be the one whose
    bytes the device refused. *)
Theorem short_write_is_a_write_error (m : rd_kafka_message_t) (s : state) :
  truthy (run (conf s)) = true ->
  m_err m = 0 -> m_payload m <> [] -> bare_output (conf s) ->
  (forall n io,
      f_io (stdout s) = IO_short n :: io ->
      (n < length (m_payload m))%nat ->
      consume_cb m s =
        Fatal (Write_error (len m) (m_offset m))
          (with_stdout
             (mk_FILE (f_data (stdout s) ++ take n (m_payload m)) io) s)) /\
  (forall io,
      f_io (stdout s) = IO_ok :: IO_short 0 :: io ->
      consume_cb m s =
        Fatal (Write_error (len m) (m_offset m))
          (with_stdout (mk_FILE (f_data (stdout s) ++ m_payload m) io) s)).
Proof.
  intros Hrun He Hpay [Ho Hk].
  assert (Hcb : consume_cb m s =
    match (let* w1 := on_stdout (fwrite (m_payload m)) in
           if negb (w1 =? 1)
           then FATAL (Write_error (len m) (m_offset m))
           else
             let* w2 := on_stdout (fwrite [delim (conf s)]) in
             if negb (w2 =? 1)
             then FATAL (Write_error (len m) (m_offset m))
             else ret tt) s with
    | Done _ s1 => Done tt (counted s1)
    | Fatal e s1 => Fatal e s1
    | Polling s1 => Polling s1
    | Undefined => Undefined
    end).
  { rewrite consume_cb_running by exact Hrun.
    rewrite He. cbn [truthy Z.eqb negb]. rewrite print_then_count.
    unfold print_message. unfold bind at 1, gets at 1. rewrite Ho, Hk.
    reflexivity. }
  rewrite Hcb. unfold bind, on_stdout, fwrite, stream_put.
  destruct (m_payload m) as [|b pay] eqn:Hp; [contradiction|].
  cbn [length Nat.eqb]. split.
  - intros n io Hio Hn. rewrite Hio. apply Nat.ltb_lt in Hn. rewrite Hn.
    reflexivity.
  - intros io Hio. rewrite Hio. cbn. rewrite app_nil_r. reflexivity.
Qed.

Lemma short_write_is_a_write_error_witness :
  consume_cb (data_message 0 7 "k" "value")
    (initial_state conf0 [IO_short 2]) =
  Fatal (Write_error 5 7)
    (with_stdout (mk_FILE (list_byte_of_string "va") [])
       (initial_state conf0 [IO_short 2])).
Proof.
  apply (proj1 (short_write_is_a_write_error
                  (data_message 0 7 "k" "value")
                  (initial_state conf0 [IO_short 2])
                  eq_refl eq_refl ltac:(discriminate)
                  (conj eq_refl eq_refl)) 2%nat [] eq_refl).
  vm_compute. lia.
Defined.
